(* ===== verification/_CoqProject ===== *)
-Q . S2P
Prelude.v
ColorSpace.v
Image.v
HSLAdjust.v
CCMApply.v
Pipeline.v
VideoIO.v
LoadVideo.v
CCMFit.v
ROI.v
ROILive.v
CSV.v
AutoAdjust.v
Calibration.v
Filters.v
Copies.v
Batch.v
VideoMain.v
