(* ===== verification/Prelude.v ===== *)
(** * A verification development for the color_correction repository

    The repository (src/src/) corrects and stylises the colours of images
    and video frames with OpenCV.  Its numeric core, which this
    development models, is:

    - the RGB <-> HSL conversion of [mylib/hsl.cpp] ([rgb_to_hsl],
      [hsl_to_rgb] and its [hue_to_rgb] lambda; the same text is copied
      into [hsl_rgb.cpp] and [process_image.cpp]), and the second,
      chroma-based conversion of [loadvideo.cpp];
    - the HSL adjusters of [mylib/hsl.cpp] ([adjust_yellow],
      [adjust_green], [adjust_hsl_yellow_frame], [adjust_hsl_green_frame]),
      the unbanded [adjust_hsl] of [hsl_rgb.cpp]/[process_image.cpp] and
      [adjust_hsl_frame] of [loadvideo.cpp];
    - the colour-correction matrix (CCM): its least-squares fit in
      [LCC_CMC] and its application in [LCC] ([mylib/Linear_CCM.cpp]),
      with the copies of the application loop in [process_image.cpp]
      ([applyColorCorrection] then [convertTo]), [load_ccm2video.cpp],
      [test.cpp] and the zoom-blended variant of [applyvideo2ccm.cpp];
    - the per-frame drivers that sequence these stages over a video (the
      [while (cap.read(frame))] loops);
    - the interactive ROI selection of [Linear_CCM.cpp] ([ROImouseEvent]
      and the sampling loop of [ROISelection]) that measures the 24
      patches the fit needs;
    - the CSV text of the CCM and of the reference colours: the
      [getline]/[find_first_of]/[stof] loop that [LCC],
      [readColorCorrectionMatrix] and the mains of [load_ccm2video.cpp]
      and [test.cpp] repeat, the reference reader and the CCM writer of
      [LCC_CMC];
    - the automatic adjustment of [auto_add_image.cpp], which derives a
      saturation and a lightness adjustment from the image's mean HSL.

    How the parts interact.  Pixels flow one way: a decoded BGR frame goes
    through zero or more HSL passes (each converts every pixel to HSL,
    edits it and converts it back to 8-bit BGR) and then through the CCM
    pass (a 3x3 matrix applied to every pixel, saturated to [0..255]).
    The CCM is fitted offline by [LCC_CMC] from 24 measured colour
    patches (selected with the mouse by [ROISelection]) and their
    reference colours (read from a CSV file), and reaches the
    application code through a second CSV file that [LCC],
    [readColorCorrectionMatrix] and the video mains read back.  The
    batch [main] of [process_image.cpp] chains the two over directories:
    the HSL pass from [data] into [result_hsl], then the CCM pass, gamma
    and white balance from [result_hsl] into [results].

    Files (in the order of _CoqProject) and what they model:
    - [Prelude] (this file): the C++/OpenCV primitives the code relies on
      ([std::clamp], [std::fmod], [std::max]/[std::min] of two values and
      of an initializer list, [std::abs], the truncating double->uchar
      conversion of the [Vec3b] constructor, [cvRound],
      [saturate_cast<uchar>]), the [Vec3b] pixel, the [cc_scope]
      notations for the comparisons of doubles, the tactics ([qcases],
      [qcases_pruned], [qeval], [qabs_eval], [qconst], [div_facts],
      [qdecide]), the hint database [cc] and the lemmas they share.
    - [ColorSpace], Module [HSLConv]: [struct HSL], [rgb_to_hsl],
      [hue_to_rgb], [hsl_to_rgb] of [mylib/hsl.cpp] (lines 7-61).
      [HSLConvProps]: exact round trip on every 8-bit pixel, output
      ranges, definedness of the uchar conversions for hues of
      [[-240, 600]], 360-periodicity there and the failure below -240.
    - [Image], Module [Image]: [cv::Mat] of [Vec3b], [at<Vec3b>] reads
      and writes (out of range is [None]) and the clone-then-double-loop
      of every adjuster, proved to be the pixelwise map.
    - [HSLAdjust]: the adjusters of [mylib/hsl.cpp] and [adjust_hsl] of
      [process_image.cpp]; Module [AdjustSpec] is the specification's
      [adjustPixel]; [HSLAdjustProps] proves the refinements (green pass
      for shifts of [[-60, 180)], yellow pass for shifts from -240), the
      identity of the null adjustment, the pass-through outside the green
      band, and the divergences on the specification's scenario.
    - [CCMApply]: the byte loop of [LCC] with [saturate_cast] (fuel
      [S (3 * width)], one more than the iterations of the [j += 3] loop,
      so the proofs show the loop ends), [convertTo], the zoom blend of
      [applyvideo2ccm.cpp]; proved: the loop computes the per-pixel
      matrix product without an out-of-row read, the identity matrix, and
      the negative blend factor of a zoom below 1.
    - [Pipeline]: the frame loops of [applyhsl2video.cpp],
      [load_ccm2video.cpp] and [applyvideo2ccm.cpp] as [video_loop] over
      the list of frames; the class [FrameStage] is the contract a stage
      gives the driver (well-formed frames of the same size), proved by
      an instance for every stage of the code; [processVideo] is shown
      never to apply its matrix.
    - [VideoIO]: the capture's properties and the rate and size each
      driver opens its [cv::VideoWriter] with ([int] in
      [applyvideo2ccm.cpp], [double] rate elsewhere).
    - [LoadVideo]: the conversions, [adjust_hsl_frame] and
      [process_video] of [loadvideo.cpp]; proved: both conversions agree
      with those of [mylib/hsl.cpp] on [[0, 360)], the output exchanges
      red and blue ([cv::Vec3b(r, g, b)] in a BGR frame), a negative hue
      gives a grey pixel.
    - [CCMFit]: [cv::Mat] of floats with [t()], [operator*] and the 3x3
      [inv()] of OpenCV, and the fit [(O^T O)^-1 O^T R] of [LCC_CMC];
      proved: the normal equations, exact recovery of [M] from
      [R = O M], agreement of fit and application on the patches, and
      the zero matrix returned for singular patches.
    - [ROI]: the mouse callback and one iteration of the sampling loop of
      [ROISelection] as a state machine ([roi_tick], [roi_reach]) over
      the corners, the flags, [ROICount] and the 72 floats of
      [OriginalColor], with the crop assertion, the division by
      [ROISize] and the writes through [OPtr] as error values; proved:
      the reachable states (by rule induction), the mean a patch
      records, the write past the matrix at the 24th patch and the
      division by zero for a flat drag.
    - [ROILive]: what a session can still reach from a state of the
      loop; proved: liveness (from every reachable state whose corners
      are [(-1, -1)] or free of [-1], an idle call, a cancelling click,
      5x5 drags and ESC make [ROISelection] exit with 23 patches, on an
      image of at least 5x5) and the stall after a release at [x = -1]
      (the callback and the loop disagree on an unset corner: no patch
      is ever recorded again).
    - [CSV]: [getline] ([getlines]), the comma loop ([comma_loop], with
      fuel one more than the length of the line, enough since each turn
      moves past a comma: [comma_fields] never runs out), the writes
      into the float buffers of [ColorMatrix] (9) and [ReferenceColor]
      (72) with their bounds as error values, the reference reader with
      its final [stof], and the writer; [std::stof]/[operator<<] are the
      class [FloatText], with the instance [DecimalText]; proved: the
      writer/reader round trip, the 72 reference values, the loss of the
      last value of a line without a trailing comma, the throw of the
      reference reader on a trailing comma, the write past the matrix
      for a fourth line.
    - [AutoAdjust]: [calculateHSLStats] (pixel loop, means as doubles
      that may be NaN), [determineHSLAdjustments], [autoAdjustHSL] (its
      undeclared callee a section variable, instantiated with
      [adjust_hsl] of [process_image.cpp]) and [main]; proved: the means
      are in range, the adjustments are within [[-15, 15]] and
      [[-20, 20]] (the caps of 50 and 30 never apply) and point towards
      the middle band, an image without pixels gives NaN means and no
      adjustment, and [main] behaves as a frame stage.
    - [Calibration]: [LCC_CMC] as the composition of the reference
      reader ([CSV]), [ROISelection] ([ROI]), the fit ([CCMFit]) and the
      writer ([CSV]), and [LCC] as the reader followed by the byte loop
      ([CCMApply]); proved: end to end, the file [LCC_CMC] writes makes
      [LCC] apply a solution of the normal equations (as printed and
      parsed), and the 24th reference colour never influences the CCM,
      since [ROISelection] always exits with the last row of
      [OriginalColor] zero.
    - [Filters]: [adjustWhiteBalance] of [process_image.cpp] (target
      129) and of [test.cpp] (target 128) as split, mean, saturating
      subtraction and merge, with [cvtColor]'s Lab conversions as
      section variables; [gammaCorrection] as its lookup table and
      [cv::LUT], with [pow] a section variable; [enhanceColor] of
      [Linear_CCM.cpp] as its per-channel threshold and saturating
      scale; proved: on a neutral image the 129 version leaves the
      chroma at 129 (a colour cast) where the 128 version is the Lab
      round trip, and [enhanceColor] tests each channel on its own;
      [unsharpMask] as the matrix expression [cv::addWeighted]
      evaluates (with [GaussianBlur] a section variable; it leaves an
      image equal to its blur unchanged), [bilateralFilter],
      [convertToLabSpace] and [convertToRGBSpace].
    - [Batch]: the drivers over a file store (paths to pictures or
      text): [adjust_hsl] on paths, the directory walks of the [main]s
      of [hsl_rgb.cpp] and [process_image.cpp], and [processImages]
      (extension filter, [imread], the [continue] on an empty image,
      [applyColorCorrection], [gammaCorrection], [adjustWhiteBalance],
      [imwrite]), the [main] of [test.cpp] with its early returns, and
      the [imwrite] of [adjust_yellow] and [adjust_green]; proved:
      [processImages] writes exactly the corrected images of the
      selected inputs and nothing else, [main] end to end (including the
      stale files of [result_hsl] and the [.jpeg] files it never
      corrects), and the store stays well formed.
    - [VideoMain]: the [main]s of [load_ccm2video.cpp] and
      [applyvideo2ccm.cpp] (with [processVideo]) and their early
      returns; proved: [applyvideo2ccm.cpp] writes its video at the
      whole part of the capture's frame rate (29.97 becomes 29, below 1
      becomes 0), [load_ccm2video.cpp] at the rate itself.
    - [Copies]: the functions each executable compiles its own copy of
      ([rgb_to_hsl] and [hsl_to_rgb] in [process_image.cpp] and
      [hsl_rgb.cpp], [readColorCorrectionMatrix] in
      [applyvideo2ccm.cpp], the filters in [load_ccm2video.cpp] and
      [test.cpp]), translated from their own lines and shown equal to
      the first occurrence, which the drivers are written with.

    Numbers.  A C++ [double] or [float] is an exact rational ([Q]); the
    comparisons of the code are the boolean tests [Qlt_bool], [Qle_bool],
    [Qeq_bool].  The model is the exact-arithmetic idealisation of the
    code: the rounding of each floating-point operation is not modelled
    (so the constants [1.0/6], [1.0/3], [2.0/3] are exact, and a result
    [R * 255] that a float computation would leave just below an integer
    is that integer here), while every conversion to an integer type is
    modelled as C++ and OpenCV define it ([Qtrunc], [cvRound],
    [saturate_cast]).  Equality of rationals is the setoid [Qeq]; the
    modelled operations come with [Proper] instances.  8-bit channels are
    integers [Z] with the range [0..255] stated by [uchar_ok].

    Not modelled: image and video decoding and encoding (a file holds
    the decoded picture, [imread] and [imwrite] move it in and out of
    the store of [Batch]; a video is the list of its frames; the failure
    of [imwrite] is not modelled), the drawing of the ROI ([imshow],
    [rectangle]; the key and mouse events of [waitKey] are the input of
    the ROI model), the file streams (a file is its text), the decimal
    syntax [std::stof] accepts beyond the instance [DecimalText] and the
    six-significant-digit format of [operator<<] (both behind
    [FloatText]), the standard deviations of [calculateHSLStats] ([sqrt];
    never read), what OpenCV computes inside [cvtColor], [pow],
    [GaussianBlur] and [bilateralFilter] (library code: section
    variables of [Filters]), directories as objects of their own
    ([create_directories], [is_regular_file]: the store holds regular
    files only), timing ([std::chrono]: a nondeterministic duration
    that is only printed) and console output (messages no other part
    reads). *)

From Stdlib Require Export QArith Qround Qabs ZArith List Lia Lqa Morphisms Setoid Bool.
Export ListNotations.

Open Scope Q_scope.

(** ** Comparisons of doubles, as boolean tests on [Q] *)

Declare Scope cc_scope.
Delimit Scope cc_scope with cc.

(** [x < y] on doubles. *)
Definition Qlt_bool (x y : Q) : bool := negb (Qle_bool y x).

Notation "x <? y" := (Qlt_bool x y) : cc_scope.
Notation "x <=? y" := (Qle_bool x y) : cc_scope.
Notation "x =? y" := (Qeq_bool x y) : cc_scope.

Open Scope cc_scope.

(** ** The C++ library functions the code calls *)

(** Conversion of a double to an integer type: truncation toward zero. *)
Definition Qtrunc (x : Q) : Z :=
  if 0 <=? x then Qfloor x else (- Qfloor (- x))%Z.

(** [std::fmod(x, y)]: [x - n*y] with [n] the truncation of [x/y]; the
    result has the sign of [x]. *)
Definition fmod (x y : Q) : Q := x - inject_Z (Qtrunc (x / y)) * y.

(** [std::clamp(v, lo, hi)] as libstdc++ writes it:
    [v < lo ? lo : hi < v ? hi : v]. *)
Definition clamp (v lo hi : Q) : Q :=
  if v <? lo then lo else if hi <? v then hi else v.

(** Three doubles equal as rationals. *)
Definition Q3eq (a b : Q * Q * Q) : Prop :=
  let '(a1, a2, a3) := a in let '(b1, b2, b3) := b in a1 == b1 /\ a2 == b2 /\ a3 == b3.

(** [std::max(a, b)]: [a < b ? b : a]. *)
Definition max2 (a b : Q) : Q := if a <? b then b else a.

(** [std::min(a, b)]: [b < a ? b : a]. *)
Definition min2 (a b : Q) : Q := if b <? a then b else a.

(** [std::max({a, b, c})]: [max_element] keeps the first largest. *)
Definition max3 (a b c : Q) : Q :=
  let m := if a <? b then b else a in
  if m <? c then c else m.

(** [std::min({a, b, c})]: [min_element] keeps the first smallest. *)
Definition min3 (a b c : Q) : Q :=
  let m := if b <? a then b else a in
  if c <? m then c else m.

(** Implicit conversion of a double to [uchar] (the [cv::Vec3b]
    constructor): truncation toward zero, then the value kept modulo 256
    (the conversion is undefined in C++ when the truncated value is not in
    [0..255]; the theorems show that the code never reaches that case). *)
Definition cast_uchar (x : Q) : Z := Z.modulo (Qtrunc x) 256.

(** OpenCV's [cvRound]: round to nearest, ties to even (the default
    rounding mode of [lrint] and of [_mm_cvtsd_si32]). *)
Definition cvRound (x : Q) : Z :=
  let f := Qfloor x in
  let d := x - inject_Z f in
  if d <? (1 # 2) then f
  else if (1 # 2) <? d then (f + 1)%Z
  else if Z.even f then f else (f + 1)%Z.

(** [saturate_cast<uchar>(int v)]:
    [(unsigned)v <= UCHAR_MAX ? v : v > 0 ? UCHAR_MAX : 0]. *)
Definition saturate_uchar_int (v : Z) : Z :=
  if ((0 <=? v)%Z && (v <=? 255)%Z)%bool then v
  else if (0 <? v)%Z then 255%Z else 0%Z.

(** [saturate_cast<uchar>(float or double v)] = the integer saturation of
    [cvRound(v)]. *)
Definition saturate_cast_uchar (x : Q) : Z := saturate_uchar_int (cvRound x).

(** ** Pixels *)

(** [cv::Vec3b]: three 8-bit channels, in memory order; for an OpenCV
    colour image channel 0 is blue, 1 green, 2 red. *)
Record Vec3b := mkVec3b { vb0 : Z; vb1 : Z; vb2 : Z }.

Definition uchar_ok (z : Z) : Prop := (0 <= z <= 255)%Z.

Definition uchar_okb (z : Z) : bool := ((0 <=? z)%Z && (z <=? 255)%Z)%bool.

Definition vec3b_ok (v : Vec3b) : Prop :=
  uchar_ok (vb0 v) /\ uchar_ok (vb1 v) /\ uchar_ok (vb2 v).

Definition vec3b_okb (v : Vec3b) : bool :=
  (uchar_okb (vb0 v) && uchar_okb (vb1 v) && uchar_okb (vb2 v))%bool.

Definition Vec3b_eqb (a b : Vec3b) : bool :=
  ((vb0 a =? vb0 b)%Z && (vb1 a =? vb1 b)%Z && (vb2 a =? vb2 b)%Z)%bool.

Definition Vec3b_eq_dec (a b : Vec3b) : {a = b} + {a <> b}.
Proof. decide equality; apply Z.eq_dec. Defined.

(** ** Reflection of the boolean tests *)

Lemma Qlt_bool_spec (x y : Q) : reflect (x < y) (x <? y).
Proof.
  unfold Qlt_bool. destruct (Qle_bool y x) eqn:E; constructor.
  - apply Qle_bool_iff in E. now apply Qle_not_lt.
  - apply Qnot_le_lt. intros Hle.
    apply Qle_bool_iff in Hle. congruence.
Qed.

Lemma Qle_bool_spec (x y : Q) : reflect (x <= y) (x <=? y).
Proof.
  destruct (Qle_bool x y) eqn:E; constructor.
  - now apply Qle_bool_iff.
  - intros H. apply Qle_bool_iff in H. congruence.
Qed.

Lemma Qeq_bool_spec (x y : Q) : reflect (x == y) (x =? y).
Proof.
  destruct (Qeq_bool x y) eqn:E; constructor.
  - now apply Qeq_bool_iff.
  - intros H. apply Qeq_bool_iff in H. congruence.
Qed.

Lemma Qneq_lt (x y : Q) : ~ x == y -> x < y \/ y < x.
Proof.
  intros H. destruct (Q_dec x y) as [[? | ?] | ?]; auto. contradiction.
Qed.

(** [qcases] turns every boolean test on rationals of the goal into a case
    split on the corresponding proposition, innermost tests first. *)
Ltac no_qtest t :=
  lazymatch t with
  | context [Qlt_bool _ _] => fail
  | context [Qle_bool _ _] => fail
  | context [Qeq_bool _ _] => fail
  | _ => idtac
  end.

Ltac qcases :=
  cbv zeta;
  repeat (match goal with
  | |- context [Qlt_bool ?x ?y] => no_qtest x; no_qtest y; destruct (Qlt_bool_spec x y)
  | |- context [Qle_bool ?x ?y] => no_qtest x; no_qtest y; destruct (Qle_bool_spec x y)
  | |- context [Qeq_bool ?x ?y] => no_qtest x; no_qtest y;
      let Hn := fresh "Hne" in
      destruct (Qeq_bool_spec x y) as [| Hn]; [| apply Qneq_lt in Hn]
  end; cbv iota beta zeta).

Ltac qcases_in H :=
  cbv zeta in H;
  repeat (match type of H with
  | context [Qlt_bool ?x ?y] => no_qtest x; no_qtest y; destruct (Qlt_bool_spec x y)
  | context [Qle_bool ?x ?y] => no_qtest x; no_qtest y; destruct (Qle_bool_spec x y)
  | context [Qeq_bool ?x ?y] => no_qtest x; no_qtest y;
      let Hn := fresh "Hne" in
      destruct (Qeq_bool_spec x y) as [| Hn]; [| apply Qneq_lt in Hn]
  end; cbv iota beta zeta in H).

(** [qconst] rewrites a division by a positive literal into a product by
    its inverse, which [lra] reads as a constant. *)
Ltac qconst :=
  unfold Qdiv in *;
  repeat match goal with
  | |- context [Qinv (Qmake (Zpos ?n) ?d)] =>
      change (Qinv (Qmake (Zpos n) d)) with (Qmake (Zpos d) n)
  | H : context [Qinv (Qmake (Zpos ?n) ?d)] |- _ =>
      change (Qinv (Qmake (Zpos n) d)) with (Qmake (Zpos d) n) in H
  end.

(** ** Compatibility with [Qeq] *)

#[export] Instance Qlt_bool_proper : Proper (Qeq ==> Qeq ==> eq) Qlt_bool.
Proof.
  intros x x' Hx y y' Hy. destruct (Qlt_bool_spec x y), (Qlt_bool_spec x' y');
    auto; exfalso; rewrite Hx, Hy in *; auto.
Qed.

#[export] Instance Qle_bool_proper : Proper (Qeq ==> Qeq ==> eq) Qle_bool.
Proof.
  intros x x' Hx y y' Hy. destruct (Qle_bool_spec x y), (Qle_bool_spec x' y');
    auto; exfalso; rewrite Hx, Hy in *; auto.
Qed.

#[export] Instance Qeq_bool_proper : Proper (Qeq ==> Qeq ==> eq) Qeq_bool.
Proof.
  intros x x' Hx y y' Hy. destruct (Qeq_bool_spec x y), (Qeq_bool_spec x' y');
    auto; exfalso; rewrite Hx, Hy in *; auto.
Qed.

#[export] Instance Qtrunc_proper : Proper (Qeq ==> eq) Qtrunc.
Proof.
  intros x y H. unfold Qtrunc. rewrite H.
  destruct (0 <=? y); [apply Qfloor_comp; exact H |].
  f_equal. apply Qfloor_comp. now rewrite H.
Qed.

#[export] Instance cast_uchar_proper : Proper (Qeq ==> eq) cast_uchar.
Proof. intros x y H. unfold cast_uchar. now rewrite H. Qed.

#[export] Instance clamp_proper : Proper (Qeq ==> Qeq ==> Qeq ==> Qeq) clamp.
Proof.
  intros v v' Hv lo lo' Hlo hi hi' Hhi. unfold clamp. qcases; lra.
Qed.

#[export] Instance fmod_proper : Proper (Qeq ==> Qeq ==> Qeq) fmod.
Proof.
  intros x x' Hx y y' Hy. unfold fmod.
  assert (E : Qtrunc (x / y) = Qtrunc (x' / y'))
    by (apply Qtrunc_proper; now rewrite Hx, Hy).
  rewrite E, Hx, Hy. reflexivity.
Qed.

#[export] Instance max2_proper : Proper (Qeq ==> Qeq ==> Qeq) max2.
Proof. intros a a' Ha b b' Hb. unfold max2. qcases; lra. Qed.

#[export] Instance min2_proper : Proper (Qeq ==> Qeq ==> Qeq) min2.
Proof. intros a a' Ha b b' Hb. unfold min2. qcases; lra. Qed.

#[export] Instance max3_proper : Proper (Qeq ==> Qeq ==> Qeq ==> Qeq) max3.
Proof.
  intros a a' Ha b b' Hb c c' Hc. unfold max3. qcases; lra.
Qed.

#[export] Instance min3_proper : Proper (Qeq ==> Qeq ==> Qeq ==> Qeq) min3.
Proof.
  intros a a' Ha b b' Hb c c' Hc. unfold min3. qcases; lra.
Qed.

#[export] Instance cvRound_proper : Proper (Qeq ==> eq) cvRound.
Proof.
  intros x y H. unfold cvRound. rewrite (Qfloor_comp _ _ H).
  set (f := Qfloor y). qcases; lra || reflexivity.
Qed.

#[export] Instance saturate_cast_uchar_proper : Proper (Qeq ==> eq) saturate_cast_uchar.
Proof. intros x y H. unfold saturate_cast_uchar. now rewrite H. Qed.

(** ** Integer conversions *)

Lemma Qtrunc_nonneg (x : Q) : 0 <= x -> Qtrunc x = Qfloor x.
Proof. intros H. unfold Qtrunc. destruct (Qle_bool_spec 0 x); [reflexivity | contradiction]. Qed.

Lemma Qtrunc_Z (z : Z) : Qtrunc (inject_Z z) = z.
Proof.
  unfold Qtrunc. destruct (Qle_bool_spec 0 (inject_Z z)).
  - apply Qfloor_Z.
  - rewrite <- inject_Z_opp, Qfloor_Z. lia.
Qed.

(** [int(x)] of a double within [[-k, k]] is within [[-k, k]]. *)
Lemma Qtrunc_bounds (x : Q) (k : Z) :
  - inject_Z k <= x <= inject_Z k -> (- k <= Qtrunc x <= k)%Z.
Proof.
  intros [Hlo Hhi]. unfold Qtrunc. destruct (Qle_bool_spec 0 x) as [H0|H0].
  - pose proof (Qfloor_resp_le _ _ Hhi) as H1. pose proof (Qfloor_resp_le _ _ H0) as H2.
    rewrite Qfloor_Z in H1. change (Qfloor 0) with 0%Z in H2. lia.
  - assert (Hn : - x <= inject_Z k) by lra. assert (Hp : 0 <= - x) by lra.
    pose proof (Qfloor_resp_le _ _ Hn) as H1. pose proof (Qfloor_resp_le _ _ Hp) as H2.
    rewrite Qfloor_Z in H1. change (Qfloor 0) with 0%Z in H2. lia.
Qed.

(** [int(x)] keeps the sign of [x]. *)
Lemma Qtrunc_sign (x : Q) : (0 <= x -> (0 <= Qtrunc x)%Z) /\ (x <= 0 -> (Qtrunc x <= 0)%Z).
Proof.
  split; intros Hx.
  - rewrite Qtrunc_nonneg by exact Hx. pose proof (Qfloor_resp_le _ _ Hx) as H. exact H.
  - unfold Qtrunc. destruct (Qle_bool_spec 0 x) as [H0|H0].
    + assert (x == 0) as Hz by lra. rewrite (Qfloor_comp _ _ Hz). reflexivity.
    + assert (Hp : 0 <= - x) by lra. pose proof (Qfloor_resp_le _ _ Hp) as H. change (Qfloor 0) with 0%Z in H. lia.
Qed.

(** A double holding an integer [z] of [0..255] converts to [z]. *)
Lemma cast_uchar_Z (x : Q) (z : Z) : uchar_ok z -> x == inject_Z z -> cast_uchar x = z.
Proof.
  intros Hz Hx. unfold cast_uchar. rewrite Hx, Qtrunc_Z.
  apply Z.mod_small. unfold uchar_ok in Hz. lia.
Qed.

(** A double of [[0, 256)] converts without wrapping, to its floor. *)
Lemma cast_uchar_small (x : Q) :
  0 <= x < 256 -> cast_uchar x = Qfloor x /\ uchar_ok (cast_uchar x).
Proof.
  intros [H0 H1]. unfold cast_uchar. rewrite Qtrunc_nonneg by assumption.
  assert (0 <= Qfloor x < 256)%Z.
  { split.
    - apply Qfloor_resp_le in H0. change (Qfloor 0) with 0%Z in H0. exact H0.
    - pose proof (Qfloor_le x) as Hf.
      assert (inject_Z (Qfloor x) < inject_Z 256) as Hl by (change (inject_Z 256) with 256; lra).
      now rewrite <- Zlt_Qlt in Hl. }
  rewrite Z.mod_small by lia. unfold uchar_ok. split; [reflexivity | lia].
Qed.

Lemma cvRound_Z (z : Z) : cvRound (inject_Z z) = z.
Proof.
  unfold cvRound. rewrite Qfloor_Z.
  destruct (Qlt_bool_spec (inject_Z z - inject_Z z) (1 # 2)); [reflexivity |].
  exfalso. lra.
Qed.

Lemma saturate_uchar_int_ok (v : Z) : uchar_ok (saturate_uchar_int v).
Proof.
  unfold saturate_uchar_int, uchar_ok.
  destruct (0 <=? v)%Z eqn:E1, (v <=? 255)%Z eqn:E2, (0 <? v)%Z eqn:E3; simpl;
    rewrite ?Z.leb_le, ?Z.leb_gt, ?Z.ltb_lt, ?Z.ltb_ge in *; lia.
Qed.

Lemma saturate_uchar_int_id (v : Z) : uchar_ok v -> saturate_uchar_int v = v.
Proof.
  unfold saturate_uchar_int, uchar_ok. intros H.
  replace ((0 <=? v)%Z && (v <=? 255)%Z)%bool with true; [reflexivity |].
  symmetry. apply andb_true_intro. split; apply Z.leb_le; lia.
Qed.

Lemma saturate_cast_uchar_ok (x : Q) : uchar_ok (saturate_cast_uchar x).
Proof. apply saturate_uchar_int_ok. Qed.

(** [saturate_cast<uchar>] of a double holding an integer of [0..255] is
    that integer. *)
Lemma saturate_cast_uchar_Z (x : Q) (z : Z) :
  uchar_ok z -> x == inject_Z z -> saturate_cast_uchar x = z.
Proof.
  intros Hz Hx. unfold saturate_cast_uchar. rewrite Hx, cvRound_Z.
  now apply saturate_uchar_int_id.
Qed.

(** An 8-bit channel read as a double lies in [[0, 255]]. *)
Lemma uchar_ok_Q (z : Z) : uchar_ok z -> 0 <= inject_Z z <= 255.
Proof.
  unfold uchar_ok. intros [H0 H1]. change 0 with (inject_Z 0). change 255 with (inject_Z 255).
  rewrite <- !Zle_Qle. lia.
Qed.

(** ** [std::clamp] and [std::fmod] *)

Lemma clamp_range (v lo hi : Q) : lo <= hi -> lo <= clamp v lo hi <= hi.
Proof. intros H. unfold clamp. qcases; lra. Qed.

Lemma clamp_id (v lo hi : Q) : lo <= v <= hi -> clamp v lo hi == v.
Proof. intros H. unfold clamp. qcases; lra. Qed.

Lemma clamp_below (v lo hi : Q) : v < lo -> clamp v lo hi == lo.
Proof. intros H. unfold clamp. qcases; lra. Qed.

Lemma clamp_above (v lo hi : Q) : lo <= hi -> hi < v -> clamp v lo hi == hi.
Proof. intros H1 H2. unfold clamp. qcases; lra. Qed.

#[export] Instance Q3eq_equiv : Equivalence Q3eq.
Proof.
  split.
  - intros [[a b] c]. cbn. repeat split; reflexivity.
  - intros [[a b] c] [[a' b'] c']. cbn. intros (? & ? & ?). repeat split; symmetry; assumption.
  - intros [[a b] c] [[a' b'] c'] [[a'' b''] c'']. cbn. intros (? & ? & ?) (? & ? & ?).
    repeat split; etransitivity; eassumption.
Qed.

(** [std::min(std::max(v, lo), hi)] is [std::clamp(v, lo, hi)]. *)
Lemma min2_max2_clamp (v lo hi : Q) : lo <= hi -> min2 (max2 v lo) hi == clamp v lo hi.
Proof. intros H. unfold min2, max2, clamp. qcases; lra. Qed.

(** [std::abs] on doubles, by cases on the sign. *)
Lemma Qabs_cases (x : Q) : (0 <= x /\ Qabs x == x) \/ (x <= 0 /\ Qabs x == - x).
Proof.
  destruct (Qlt_le_dec x 0) as [H | H].
  - right. split; [lra | apply Qabs_neg; lra].
  - left. split; [lra | apply Qabs_pos; lra].
Qed.

(** The floor is characterised by its two bounds. *)
Lemma Qfloor_unique (x : Q) (z : Z) :
  inject_Z z <= x < inject_Z (z + 1) -> Qfloor x = z.
Proof.
  intros [H0 H1].
  pose proof (Qfloor_le x) as F0. pose proof (Qlt_floor x) as F1.
  rewrite inject_Z_plus in *. change (inject_Z 1) with 1 in *.
  assert (z < Qfloor x + 1)%Z by (rewrite Zlt_Qlt, inject_Z_plus; change (inject_Z 1) with 1; lra).
  assert (Qfloor x < z + 1)%Z by (rewrite Zlt_Qlt, inject_Z_plus; change (inject_Z 1) with 1; lra).
  lia.
Qed.

(** [int(x)] of a double strictly between -1 and 1 is 0. *)
Lemma Qtrunc_small (x : Q) : -1 < x < 1 -> Qtrunc x = 0%Z.
Proof.
  intros [Hlo Hhi]. unfold Qtrunc. destruct (Qle_bool_spec 0 x) as [H0|H0].
  - apply Qfloor_unique. change (inject_Z 0) with 0. change (inject_Z (0 + 1)) with 1. lra.
  - rewrite (Qfloor_unique (- x) 0); [reflexivity|].
    change (inject_Z 0) with 0. change (inject_Z (0 + 1)) with 1. lra.
Qed.

Lemma fmod_small (x y : Q) : 0 <= x < y -> fmod x y == x.
Proof.
  intros [H0 H1]. unfold fmod.
  assert (Qtrunc (x / y) = 0%Z) as ->.
  { rewrite Qtrunc_nonneg by (apply Qle_shift_div_l; lra).
    apply Qfloor_unique. change (inject_Z 0) with 0. change (inject_Z (0 + 1)) with 1.
    split.
    - apply Qle_shift_div_l; lra.
    - apply Qlt_shift_div_r; lra. }
  simpl. ring.
Qed.

(** For a non-negative dividend, [std::fmod] subtracts the floor. *)
Lemma fmod_nonneg (x y : Q) : 0 <= x -> 0 < y -> fmod x y == x - inject_Z (Qfloor (x / y)) * y.
Proof.
  intros Hx Hy. unfold fmod. rewrite Qtrunc_nonneg; [reflexivity |].
  apply Qle_shift_div_l; lra.
Qed.

(** On the [n]-th period [[n y, (n + 1) y)], [std::fmod] subtracts [n y]. *)
Lemma fmod_seg (x y : Q) (n : Z) :
  0 < y -> (0 <= n)%Z -> inject_Z n * y <= x < (inject_Z n + 1) * y ->
  fmod x y == x - inject_Z n * y.
Proof.
  intros Hy Hn [H0 H1].
  assert (0 <= inject_Z n) by (change 0 with (inject_Z 0); rewrite <- Zle_Qle; exact Hn).
  rewrite fmod_nonneg by nra.
  assert (Qfloor (x / y) = n) as ->; [| reflexivity].
  apply Qfloor_unique. rewrite inject_Z_plus. change (inject_Z 1) with 1.
  split; [apply Qle_shift_div_l | apply Qlt_shift_div_r]; lra.
Qed.

(** A small negative dividend is returned unchanged (with its sign). *)
Lemma fmod_neg_small (x y : Q) : - y < x < 0 -> fmod x y == x.
Proof.
  intros [H0 H1]. unfold fmod, Qtrunc.
  destruct (Qle_bool_spec 0 (x / y)) as [Hc | _].
  - exfalso. assert (x / y < 0) by (apply Qlt_shift_div_r; lra). lra.
  - assert (Qfloor (- (x / y)) = 0%Z) as ->; [| simpl; ring].
    apply Qfloor_unique. change (inject_Z 0) with 0. change (inject_Z (0 + 1)) with 1.
    assert (Hy : 0 < y) by lra.
    assert (E : - (x / y) == (- x) / y) by (field; lra). rewrite E.
    split; [apply Qle_shift_div_l | apply Qlt_shift_div_r]; lra.
Qed.

(** The [uchar] conversion always lands in [0..255] (by the modulo of the
    model; the code relies on the value being there already). *)
Lemma cast_uchar_ok (x : Q) : uchar_ok (cast_uchar x).
Proof. unfold cast_uchar, uchar_ok. pose proof (Z.mod_pos_bound (Qtrunc x) 256). lia. Qed.

(** ** [std::max] and [std::min] over three values *)

Lemma max3_spec (a b c : Q) :
  a <= max3 a b c /\ b <= max3 a b c /\ c <= max3 a b c /\
  (max3 a b c == a \/ max3 a b c == b \/ max3 a b c == c).
Proof. unfold max3. qcases; lra. Qed.

Lemma min3_spec (a b c : Q) :
  min3 a b c <= a /\ min3 a b c <= b /\ min3 a b c <= c /\
  (min3 a b c == a \/ min3 a b c == b \/ min3 a b c == c).
Proof. unfold min3. qcases; lra. Qed.

(** ** Quotients by a positive variable *)

(** What [lra] needs to know about a quotient [x / y] of two variables
    with [|x| <= y]: its range, its sign and that it times [y] is [x]. *)
Lemma Qdiv_unit_bounds (x y : Q) :
  0 < y -> -y <= x <= y ->
  -1 <= x * Qinv y <= 1 /\
  (x < 0 -> x * Qinv y < 0) /\ (0 <= x -> 0 <= x * Qinv y) /\
  (0 < x -> 0 < x * Qinv y) /\ (x <= 0 -> x * Qinv y <= 0) /\
  (x < y -> x * Qinv y < 1) /\ (-y < x -> -1 < x * Qinv y) /\
  x * Qinv y * y == x.
Proof.
  intros Hy Hx.
  assert (E : x * Qinv y * y == x) by (field; lra).
  assert (Hinv : 0 < Qinv y) by (apply Qinv_lt_0_compat; exact Hy).
  repeat split; intros; unfold Qdiv in *.
  - apply Qle_shift_div_l; [exact Hy | lra].
  - apply Qle_shift_div_r; [exact Hy | lra].
  - apply Qlt_shift_div_r; [exact Hy | lra].
  - apply Qle_shift_div_l; [exact Hy | lra].
  - apply Qlt_shift_div_l; [exact Hy | lra].
  - apply Qle_shift_div_r; [exact Hy | lra].
  - apply Qlt_shift_div_r; [exact Hy | lra].
  - apply Qlt_shift_div_l; [exact Hy | lra].
  - exact E.
Qed.

(** [div_facts] names every quotient [x * Qinv y] of the goal (after
    [qconst]) and records [Qdiv_unit_bounds] for it. *)
Ltac div_fact x y :=
  let k := fresh "k" in
  let Hk := fresh "Hk" in
  (pose proof (Qdiv_unit_bounds x y ltac:(lra) ltac:(lra)) as Hk || idtac);
  set (k := x * Qinv y) in *.

Ltac div_facts :=
  repeat match goal with
  | |- context [?x * Qinv ?y] => div_fact x y
  | H : context [?x * Qinv ?y] |- _ => div_fact x y
  end.

(** [qcases_pruned] is [qcases] that drops, after each split, the
    branches whose hypotheses are contradictory. *)
Ltac qcases_pruned :=
  cbv zeta;
  repeat (match goal with
  | |- context [Qlt_bool ?x ?y] => no_qtest x; no_qtest y; destruct (Qlt_bool_spec x y)
  | |- context [Qle_bool ?x ?y] => no_qtest x; no_qtest y; destruct (Qle_bool_spec x y)
  | |- context [Qeq_bool ?x ?y] => no_qtest x; no_qtest y;
      let Hn := fresh "Hne" in
      destruct (Qeq_bool_spec x y) as [| Hn]; [| apply Qneq_lt in Hn]
  end; cbv beta iota zeta delta [andb orb negb]; try (exfalso; qconst; lra)).

Lemma Qlt_bool_true (x y : Q) : x < y -> (x <? y) = true.
Proof. intros H. destruct (Qlt_bool_spec x y); [reflexivity | contradiction]. Qed.

Lemma Qlt_bool_false (x y : Q) : y <= x -> (x <? y) = false.
Proof. intros H. destruct (Qlt_bool_spec x y); [lra | reflexivity]. Qed.

Lemma Qle_bool_true (x y : Q) : x <= y -> (x <=? y) = true.
Proof. intros H. destruct (Qle_bool_spec x y); [reflexivity | contradiction]. Qed.

Lemma Qle_bool_false (x y : Q) : y < x -> (x <=? y) = false.
Proof. intros H. destruct (Qle_bool_spec x y); [lra | reflexivity]. Qed.

Lemma Qeq_bool_false (x y : Q) : ~ x == y -> (x =? y) = false.
Proof. intros H. destruct (Qeq_bool_spec x y); [contradiction | reflexivity]. Qed.

(** [qeval] decides every boolean test of the goal from the hypotheses
    (by [lra]) instead of splitting on it, and splits only on the tests
    the hypotheses leave open; [qabs_eval] rewrites every
    [Qabs] whose sign the hypotheses fix. *)
Ltac qeval_test :=
  match goal with
  | |- context [Qlt_bool ?x ?y] => no_qtest x; no_qtest y;
      first [ rewrite (Qlt_bool_true x y) by (qconst; lra)
            | rewrite (Qlt_bool_false x y) by (qconst; lra)
            | destruct (Qlt_bool_spec x y) ]
  | |- context [Qle_bool ?x ?y] => no_qtest x; no_qtest y;
      first [ rewrite (Qle_bool_true x y) by (qconst; lra)
            | rewrite (Qle_bool_false x y) by (qconst; lra)
            | destruct (Qle_bool_spec x y) ]
  | |- context [Qeq_bool ?x ?y] => no_qtest x; no_qtest y;
      first [ rewrite (Qeq_bool_false x y) by (qconst; lra)
            | rewrite (proj2 (Qeq_bool_iff x y)) by (qconst; lra)
            | let Hn := fresh "Hne" in
              destruct (Qeq_bool_spec x y) as [| Hn]; [| apply Qneq_lt in Hn] ]
  end.

Ltac qeval :=
  cbv zeta; repeat (qeval_test; cbv beta iota zeta delta [andb orb negb]).

Ltac qabs_eval :=
  repeat match goal with
  | |- context [Qabs ?x] =>
      first [ rewrite (Qabs_pos x) by (qconst; lra) | rewrite (Qabs_neg x) by (qconst; lra) ]
  end.

(** [qdecide] closes comparisons between rational literals by computation. *)
Ltac qdecide :=
  repeat split; vm_compute; first [reflexivity | discriminate | intros ?; discriminate].

(** [pixel_ok] closes [vec3b_ok] of a pixel literal. *)
Ltac pixel_ok := unfold vec3b_ok, uchar_ok; simpl; lia.

(** ** Automation *)

Create HintDb cc.
#[export] Hint Resolve saturate_cast_uchar_ok saturate_uchar_int_ok cast_uchar_ok : cc.
#[export] Hint Resolve clamp_range : cc.
#[export] Hint Unfold uchar_ok vec3b_ok : cc.
