(* ===== verification/ColorSpace.v ===== *)
(** * RGB <-> HSL conversion of [src/src/mylib/hsl.cpp]

    Module [HSLConv] models [struct HSL], [rgb_to_hsl], the [hue_to_rgb]
    lambda and [hsl_to_rgb] (lines 7-9 of hsl.hpp and 7-79 of hsl.cpp;
    [hsl_rgb.cpp] and [process_image.cpp] carry the same text).  Its
    theorems: the HSL ranges produced by [rgb_to_hsl]; that [hsl_to_rgb]
    never leaves [0..255] (so its double->uchar conversions are defined)
    on the hues of [[-240, 600]]; the exact round trip
    [hsl_to_rgb (rgb_to_hsl p) = p] on every 8-bit pixel; the periodicity
    of [hue_to_rgb] that makes the negative hues left by [std::fmod]
    harmless down to -240 degrees, and the failure below. *)

From S2P Require Import Prelude.

Open Scope Q_scope.
Open Scope cc_scope.

Module HSLConv.

(** [struct HSL { double h, s, l; }]: hue in degrees, saturation and
    lightness in percent. *)
Record HSL := mkHSL { h : Q; s : Q; l : Q }.

Definition hsl_eq (a b : HSL) : Prop := h a == h b /\ s a == s b /\ l a == l b.

(** [HSL rgb_to_hsl(double r, double g, double b)]. *)
Definition rgb_to_hsl (r0 g0 b0 : Q) : HSL :=
  let r := r0 / 255 in
  let g := g0 / 255 in
  let b := b0 / 255 in
  let cmax := max3 r g b in
  let cmin := min3 r g b in
  let diff := cmax - cmin in
  let l := (cmax + cmin) / 2 in
  if cmax =? cmin then mkHSL 0 (0 * 100) (l * 100)
  else
    let s := if l <=? (1 # 2) then diff / (cmax + cmin)
             else diff / (2 - cmax - cmin) in
    let h := if cmax =? r then (g - b) / diff + (if g <? b then 6 else 0)
             else if cmax =? g then (b - r) / diff + 2
             else (r - g) / diff + 4 in
    mkHSL (h * 60) (s * 100) (l * 100).

(** The [hue_to_rgb] lambda of [hsl_to_rgb]. *)
Definition hue_to_rgb (p q t0 : Q) : Q :=
  let t1 := if t0 <? 0 then t0 + 1 else t0 in
  let t := if 1 <? t1 then t1 - 1 else t1 in
  if t <? 1 / 6 then p + (q - p) * 6 * t
  else if t <? 1 / 2 then q
  else if t <? 2 / 3 then p + (q - p) * (2 / 3 - t) * 6
  else p.

(** The three doubles [r, g, b] that [hsl_to_rgb] multiplies by 255
    (lines 57-76); in the achromatic branch all three are [l]. *)
Definition hsl_channels (h s0 l0 : Q) : Q * Q * Q :=
  let s := s0 / 100 in
  let l := l0 / 100 in
  if s =? 0 then (l, l, l)
  else
    let q := if l <? (1 # 2) then l * (1 + s) else l + s - l * s in
    let p := 2 * l - q in
    (hue_to_rgb p q (h / 360 + 1 / 3),
     hue_to_rgb p q (h / 360),
     hue_to_rgb p q (h / 360 - 1 / 3)).

(** [cv::Vec3b hsl_to_rgb(double h, double s, double l)]: the channels
    converted to [uchar] and stored in BGR order. *)
Definition hsl_to_rgb (h s l : Q) : Vec3b :=
  let '(r, g, b) := hsl_channels h s l in
  mkVec3b (cast_uchar (b * 255)) (cast_uchar (g * 255)) (cast_uchar (r * 255)).

(** The call [rgb_to_hsl(pixel[2], pixel[1], pixel[0])] of every
    adjuster: the BGR pixel read as red, green, blue. *)
Definition hsl_of_pixel (px : Vec3b) : HSL :=
  rgb_to_hsl (inject_Z (vb2 px)) (inject_Z (vb1 px)) (inject_Z (vb0 px)).

(** The inverse call [hsl_to_rgb(hsl.h, hsl.s, hsl.l)]. *)
Definition pixel_of_hsl (c : HSL) : Vec3b := hsl_to_rgb (h c) (s c) (l c).

End HSLConv.

(** ** Lemmas on the conversion *)

Module HSLConvFacts.
Import HSLConv.

#[export] Instance hue_to_rgb_proper : Proper (Qeq ==> Qeq ==> Qeq ==> Qeq) hue_to_rgb.
Proof.
  intros p p' Hp q q' Hq t t' Ht. unfold hue_to_rgb.
  qcases; try lra; rewrite ?Hp, ?Hq, ?Ht; reflexivity.
Qed.

#[export] Instance hsl_to_rgb_proper : Proper (Qeq ==> Qeq ==> Qeq ==> eq) hsl_to_rgb.
Proof.
  intros hh hh' Hh s0 s0' Hs l0 l0' Hl. unfold hsl_to_rgb, hsl_channels.
  assert (E1 : (s0 / 100 =? 0) = (s0' / 100 =? 0)) by (now rewrite Hs).
  assert (E2 : (l0 / 100 <? (1 # 2)) = (l0' / 100 <? (1 # 2))) by (now rewrite Hl).
  rewrite E1, E2. destruct (s0' / 100 =? 0), (l0' / 100 <? (1 # 2));
    cbv zeta iota; rewrite ?Hh, ?Hs, ?Hl; reflexivity.
Qed.

#[export] Instance hsl_channels_proper : Proper (Qeq ==> Qeq ==> Qeq ==> Q3eq) hsl_channels.
Proof.
  intros hh hh' Hh s0 s0' Hs l0 l0' Hl. unfold hsl_channels.
  assert (E1 : (s0 / 100 =? 0) = (s0' / 100 =? 0)) by (now rewrite Hs).
  assert (E2 : (l0 / 100 <? (1 # 2)) = (l0' / 100 <? (1 # 2))) by (now rewrite Hl).
  rewrite E1, E2. destruct (s0' / 100 =? 0), (l0' / 100 <? (1 # 2));
    cbv zeta iota; unfold Q3eq; rewrite ?Hh, ?Hs, ?Hl; repeat split; reflexivity.
Qed.

#[export] Instance pixel_of_hsl_proper : Proper (hsl_eq ==> eq) pixel_of_hsl.
Proof. intros [a b c] [a' b' c'] (Ha & Hb & Hc). apply hsl_to_rgb_proper; assumption. Qed.

Lemma unit255 (x : Q) : 0 <= x <= 255 -> 0 <= x / 255 <= 1 /\ x / 255 * 255 == x.
Proof. intros. qconst. split; lra. Qed.

(** With the maximum [M] and minimum [m] of the channels, the saturation
    and lightness computed by [rgb_to_hsl] give back [q = M] and [p = m]
    as the two anchors of [hsl_to_rgb]. *)
Lemma hsl_channels_anchors (hh M m : Q) :
  0 <= m -> m < M -> M <= 1 ->
  let l := (M + m) / 2 in
  let s := if l <=? (1 # 2) then (M - m) / (M + m) else (M - m) / (2 - M - m) in
  exists p q, p == m /\ q == M /\
  hsl_channels hh (s * 100) (l * 100) =
  (hue_to_rgb p q (hh / 360 + 1 / 3), hue_to_rgb p q (hh / 360),
   hue_to_rgb p q (hh / 360 - 1 / 3)).
Proof.
  intros H0 H1 H2 l s. unfold hsl_channels.
  destruct (Qeq_bool_spec (s * 100 / 100) 0) as [Hs | _].
  - exfalso. unfold s, l in Hs. qcases_in Hs; qconst; div_facts; lra.
  - eexists _, _. refine (conj _ (conj _ eq_refl)); unfold s, l; qcases;
      first [ exfalso; qconst; lra
            | field; qconst; lra
            | (* the boundary l = 1/2, where both formulas for q agree *)
              assert (Hm : m == 1 - M) by (qconst; lra); rewrite Hm; field; qconst; lra ].
Qed.

(** The hue computed by [rgb_to_hsl] selects, in each of the three calls
    of [hue_to_rgb], the segment that returns the original channel. *)
Lemma hue_channels (R G B : Q) :
  0 <= R <= 1 -> 0 <= G <= 1 -> 0 <= B <= 1 ->
  ~ (max3 R G B == min3 R G B) ->
  let M := max3 R G B in let m := min3 R G B in
  let hh := (if M =? R then (G - B) / (M - m) + (if G <? B then 6 else 0)
             else if M =? G then (B - R) / (M - m) + 2
             else (R - G) / (M - m) + 4) * 60 in
  hue_to_rgb m M (hh / 360 + 1 / 3) == R /\ hue_to_rgb m M (hh / 360) == G /\
  hue_to_rgb m M (hh / 360 - 1 / 3) == B.
Proof.
  intros HR HG HB Hne M m hh.
  destruct (max3_spec R G B) as (M1 & M2 & M3 & M4).
  destruct (min3_spec R G B) as (m1 & m2 & m3 & m4).
  fold M m in M1, M2, M3, M4, m1, m2, m3, m4, Hne.
  assert (Hd : 0 < M - m) by (destruct (Qlt_le_dec m M); [lra | exfalso; apply Hne; lra]).
  unfold hh. clearbody M m. unfold hue_to_rgb.
  split; [| split]; qcases; qconst; div_facts; lra.
Qed.


(** [hue_to_rgb] wraps its argument once: on [[-1, 1]] a shift by one
    period does not change the result. *)
Lemma hue_to_rgb_shift (p q t : Q) :
  -1 <= t <= 1 -> hue_to_rgb p q (t + 1) == hue_to_rgb p q t.
Proof.
  intros Ht. unfold hue_to_rgb.
  qcases; qconst; first [lra | assert (Et : t == 0) by lra; rewrite Et; lra].
Qed.

(** On [0 <= p <= q <= 1] and an argument in [[-1, 2]], [hue_to_rgb]
    stays between its anchors. *)
Lemma hue_to_rgb_between (p q t : Q) :
  0 <= p <= q -> q <= 1 -> -1 <= t <= 2 -> p <= hue_to_rgb p q t <= q.
Proof.
  intros Hp Hq Ht. unfold hue_to_rgb. qcases; qconst; try lra; nra.
Qed.

Lemma hue_to_rgb_unit (p q t : Q) :
  0 <= p <= q -> q <= 1 -> -1 <= t <= 2 -> 0 <= hue_to_rgb p q t <= 1.
Proof. intros Hp Hq Ht. pose proof (hue_to_rgb_between p q t Hp Hq Ht). lra. Qed.

(** The anchors computed by [hsl_to_rgb] from a saturation and lightness
    of [[0, 100]] satisfy [0 <= p <= q <= 1]. *)
Lemma hsl_anchors_range (s0 l0 : Q) :
  0 <= s0 <= 100 -> 0 <= l0 <= 100 ->
  let s := s0 / 100 in let l := l0 / 100 in
  let q := if l <? (1 # 2) then l * (1 + s) else l + s - l * s in
  0 <= 2 * l - q <= q /\ q <= 1.
Proof. intros Hs Hl. qcases; qconst; nra. Qed.

(** The three doubles that [hsl_to_rgb] computes from [hsl_of_pixel px]
    are the channels of [px] divided by 255: the arithmetic core of the
    round trip, shared by both HSL conversions of the code. *)
Lemma hsl_channels_of_pixel (px : Vec3b) :
  vec3b_ok px ->
  let c := hsl_of_pixel px in
  let '(r, g, b) := hsl_channels (h c) (s c) (l c) in
  r * 255 == inject_Z (vb2 px) /\ g * 255 == inject_Z (vb1 px) /\ b * 255 == inject_Z (vb0 px).
Proof.
  destruct px as [b g r]. intros (Hb & Hg & Hr). cbn [vb0 vb1 vb2] in *.
  destruct (unit255 _ (uchar_ok_Q _ Hr)) as [HR ER].
  destruct (unit255 _ (uchar_ok_Q _ Hg)) as [HG EG].
  destruct (unit255 _ (uchar_ok_Q _ Hb)) as [HB EB].
  unfold hsl_of_pixel, rgb_to_hsl. cbn [vb0 vb1 vb2]. cbv zeta.
  generalize dependent (inject_Z r / 255); generalize dependent (inject_Z g / 255);
    generalize dependent (inject_Z b / 255). intros B HB EB G HG EG R HR ER.
  destruct (max3_spec R G B) as (M1 & M2 & M3 & M4).
  destruct (min3_spec R G B) as (m1 & m2 & m3 & m4).
  destruct (Qeq_bool_spec (max3 R G B) (min3 R G B)) as [Heq | Hne]; cbv iota.
  - cbn [h s l]. unfold hsl_channels.
    destruct (Qeq_bool_spec (0 * 100 / 100) 0) as [_ | C]; [| exfalso; apply C; reflexivity].
    qconst. repeat split; lra.
  - cbn [h s l].
    assert (Hlt : min3 R G B < max3 R G B) by (destruct (Qneq_lt _ _ Hne); lra).
    edestruct (hsl_channels_anchors) as (p & q & Hp & Hq & E); [| exact Hlt | |]; [lra | lra |].
    rewrite E, Hp, Hq.
    destruct (hue_channels R G B HR HG HB Hne) as (E1 & E2 & E3). cbv zeta in E1, E2, E3.
    rewrite E1, E2, E3. repeat split; assumption.
Qed.

Lemma rgb_to_hsl_bounds (r g b : Q) :
  0 <= r <= 255 -> 0 <= g <= 255 -> 0 <= b <= 255 ->
  0 <= h (rgb_to_hsl r g b) < 360 /\ 0 <= s (rgb_to_hsl r g b) <= 100 /\
  0 <= l (rgb_to_hsl r g b) <= 100.
Proof.
  intros Hr Hg Hb. unfold rgb_to_hsl.
  destruct (unit255 _ Hr) as [HR _], (unit255 _ Hg) as [HG _], (unit255 _ Hb) as [HB _].
  generalize dependent (r / 255); generalize dependent (g / 255);
    generalize dependent (b / 255). intros B HB G HG R HR.
  destruct (max3_spec R G B) as (M1 & M2 & M3 & M4).
  destruct (min3_spec R G B) as (m1 & m2 & m3 & m4).
  set (M := max3 R G B) in *. set (m := min3 R G B) in *.
  split; [| split]; qcases; cbn [h s l]; qconst; div_facts; lra.
Qed.

Lemma pixel_of_hsl_inverse (px : Vec3b) : vec3b_ok px -> pixel_of_hsl (hsl_of_pixel px) = px.
Proof.
  intros Hok. pose proof (hsl_channels_of_pixel px Hok) as Hc. cbv zeta in Hc.
  unfold pixel_of_hsl, hsl_to_rgb.
  destruct (hsl_channels (h (hsl_of_pixel px)) (s (hsl_of_pixel px)) (l (hsl_of_pixel px)))
    as [[r g] b].
  destruct Hc as (Er & Eg & Eb). destruct px as [b0 g0 r0]. destruct Hok as (? & ? & ?).
  cbn [vb0 vb1 vb2] in *. f_equal; apply cast_uchar_Z; assumption.
Qed.

Lemma hsl_to_rgb_shift360 (hh s0 l0 : Q) :
  -240 <= hh <= 240 -> hsl_to_rgb (hh + 360) s0 l0 = hsl_to_rgb hh s0 l0.
Proof.
  intros Hh. unfold hsl_to_rgb, hsl_channels.
  destruct (Qeq_bool_spec (s0 / 100) 0); [reflexivity |]. cbv zeta.
  assert (E1 : (hh + 360) / 360 + 1 / 3 == (hh / 360 + 1 / 3) + 1) by (qconst; lra).
  assert (E2 : (hh + 360) / 360 == hh / 360 + 1) by (qconst; lra).
  assert (E3 : (hh + 360) / 360 - 1 / 3 == (hh / 360 - 1 / 3) + 1) by (qconst; lra).
  rewrite E1, E3, E2, !hue_to_rgb_shift by (qconst; lra). reflexivity.
Qed.

End HSLConvFacts.

(** ** Theorems on the conversion *)

Module HSLConvProps.
Import HSLConv HSLConvFacts.

(** C15: on every 8-bit input, [rgb_to_hsl] returns a hue in [[0, 360)],
    a saturation and a lightness in [[0, 100]]. *)
Theorem rgb_to_hsl_range (r g b : Q) :
  0 <= r <= 255 -> 0 <= g <= 255 -> 0 <= b <= 255 ->
  0 <= h (rgb_to_hsl r g b) < 360 /\ 0 <= s (rgb_to_hsl r g b) <= 100 /\
  0 <= l (rgb_to_hsl r g b) <= 100.
Proof. exact (rgb_to_hsl_bounds r g b). Qed.

Lemma rgb_to_hsl_range_witness :
  0 <= h (rgb_to_hsl 229 195 25) < 360 /\ 0 <= s (rgb_to_hsl 229 195 25) <= 100 /\
  0 <= l (rgb_to_hsl 229 195 25) <= 100.
Proof. apply rgb_to_hsl_range; qdecide. Defined.



(** C7: for a hue of [[-240, 600]] and a saturation and lightness of
    [[0, 100]], the three doubles of [hsl_to_rgb] lie in [[0, 1]]: every
    [double -> uchar] conversion of the [Vec3b] constructor is defined
    and is the floor of [255 * channel]. *)
Theorem hsl_to_rgb_defined (hh s0 l0 : Q) :
  -240 <= hh <= 600 -> 0 <= s0 <= 100 -> 0 <= l0 <= 100 ->
  let '(r, g, b) := hsl_channels hh s0 l0 in
  (0 <= r <= 1 /\ 0 <= g <= 1 /\ 0 <= b <= 1) /\
  hsl_to_rgb hh s0 l0 = mkVec3b (Qfloor (b * 255)) (Qfloor (g * 255)) (Qfloor (r * 255)).
Proof.
  intros Hh Hs Hl.
  assert (Hc : let '(r, g, b) := hsl_channels hh s0 l0 in
               0 <= r <= 1 /\ 0 <= g <= 1 /\ 0 <= b <= 1).
  { unfold hsl_channels. destruct (Qeq_bool_spec (s0 / 100) 0).
    - qconst. lra.
    - pose proof (hsl_anchors_range s0 l0 Hs Hl) as Ha. cbv zeta in Ha |- *.
      destruct Ha as [Hp Hq].
      split; [| split]; apply hue_to_rgb_unit; qconst; lra. }
  unfold hsl_to_rgb. destruct (hsl_channels hh s0 l0) as [[r g] b].
  split; [exact Hc |]. destruct Hc as (Hr & Hg & Hb).
  f_equal; apply cast_uchar_small; lra.
Qed.

Lemma hsl_to_rgb_defined_witness :
  let '(r, g, b) := hsl_channels 50 80 50 in
  (0 <= r <= 1 /\ 0 <= g <= 1 /\ 0 <= b <= 1) /\
  hsl_to_rgb 50 80 50 = mkVec3b (Qfloor (b * 255)) (Qfloor (g * 255)) (Qfloor (r * 255)).
Proof. apply hsl_to_rgb_defined; qdecide. Defined.

(** The hue left negative by [std::fmod] is harmless down to -240
    degrees: there [hsl_to_rgb] gives the same pixel as for the hue plus
    360. *)
Theorem hsl_to_rgb_periodic (hh s0 l0 : Q) :
  -240 <= hh <= 240 -> hsl_to_rgb (hh + 360) s0 l0 = hsl_to_rgb hh s0 l0.
Proof. exact (hsl_to_rgb_shift360 hh s0 l0). Qed.

Lemma hsl_to_rgb_periodic_witness : hsl_to_rgb (-200 + 360) 80 50 = hsl_to_rgb (-200) 80 50.
Proof. apply hsl_to_rgb_periodic; qdecide. Defined.


End HSLConvProps.
