(* ===== verification/Image.v ===== *)
(** * [cv::Mat] of 8-bit BGR pixels and the per-pixel loops of the code

    Module [Image] models the images the code handles ([CV_8UC3], the
    type [imread] and [VideoCapture::read] return): a [Mat] with its row
    and column counts and its pixels, row-major.  [at_] and [set_at] are
    [img.at<cv::Vec3b>(y, x)] read and written, with [None] for an access
    out of the matrix (undefined behaviour in OpenCV).  [map_pixels_loop]
    is the double loop of every HSL adjuster
    ([Mat result = img.clone(); for y .. for x ..
      result.at(y, x) = f(img.at(y, x))]); [map_pixels] is the pixelwise
    map it refines.  A video is the list of its frames. *)

From S2P Require Import Prelude.
From stdpp Require Import list.

Open Scope Q_scope.

Module Image.

(** A [cv::Mat] of type [CV_8UC3]: [rows], [cols] and the pixels, row by
    row. *)
Record Mat := mkMat { rows : nat; cols : nat; data : list (list Vec3b) }.

(** [cv::Mat()]. *)
Definition empty_mat : Mat := mkMat 0 0 [].

(** [img.empty()]: no element. *)
Definition mat_empty (m : Mat) : bool := ((rows m =? 0)%nat || (cols m =? 0)%nat)%bool.

(** Well-formedness: [rows] rows of [cols] valid pixels each. *)
Definition mat_wf (m : Mat) : Prop :=
  length (data m) = rows m /\
  Forall (fun row => length row = cols m /\ Forall vec3b_ok row) (data m).

Definition mat_wfb (m : Mat) : bool :=
  ((length (data m) =? rows m)%nat &&
   forallb (fun row => (length row =? cols m)%nat && forallb vec3b_okb row) (data m))%bool.

(** [img.at<cv::Vec3b>(y, x)] as an rvalue. *)
Definition at_ (m : Mat) (y x : nat) : option Vec3b :=
  row ← data m !! y; row !! x.

(** [result.at<cv::Vec3b>(y, x) = v]. *)
Definition set_at (m : Mat) (y x : nat) (v : Vec3b) : option Mat :=
  row ← data m !! y;
  if decide (x < length row)%nat
  then Some (mkMat (rows m) (cols m) (<[y := <[x := v]> row]> (data m)))
  else None.

(** [for (int x = x0; x < x0 + n; x++) dst.at(y, x) = f(src.at(y, x));] *)
Fixpoint loop_cols (f : Vec3b -> Vec3b) (src : Mat) (y x n : nat) (dst : Mat) : option Mat :=
  match n with
  | O => Some dst
  | S n' =>
      px ← at_ src y x;
      dst' ← set_at dst y x (f px);
      loop_cols f src y (S x) n' dst'
  end.

(** [for (int y = y0; y < y0 + n; y++) for (int x = 0; x < src.cols; x++) ...] *)
Fixpoint loop_rows (f : Vec3b -> Vec3b) (src : Mat) (y n : nat) (dst : Mat) : option Mat :=
  match n with
  | O => Some dst
  | S n' =>
      dst' ← loop_cols f src y 0 (cols src) dst;
      loop_rows f src (S y) n' dst'
  end.

(** [cv::Mat result = img.clone();] followed by the double loop over
    [img.rows] and [img.cols]. *)
Definition map_pixels_loop (f : Vec3b -> Vec3b) (img : Mat) : option Mat :=
  loop_rows f img 0 (rows img) img.

(** The pixelwise map the loop computes. *)
Definition map_pixels (f : Vec3b -> Vec3b) (img : Mat) : Mat :=
  mkMat (rows img) (cols img) (map (map f) (data img)).

(** A video: its frames, in order. *)
Definition Video := list Mat.

End Image.

(** ** The loops compute the pixelwise map *)

Module ImageFacts.
Import Image.

(** Writing [f a] at index [i] of a list whose prefix [take i l] is
    already mapped extends the mapped prefix by one. *)
Lemma insert_map_take_drop {A} (f : A -> A) (l : list A) (i : nat) (a : A) :
  l !! i = Some a ->
  <[i := f a]> (map f (take i l) ++ drop i l) = map f (take (S i) l) ++ drop (S i) l.
Proof.
  intros H. pose proof (lookup_lt_Some _ _ _ H) as Hi.
  rewrite (take_S_r _ _ _ H), map_app, <- app_assoc, (drop_S _ _ _ H).
  rewrite insert_app_r_alt by (rewrite length_map, length_take; lia).
  rewrite length_map, length_take.
  replace (i - i `min` length l)%nat with 0%nat by lia. reflexivity.
Qed.

Lemma lookup_map {A B} (f : A -> B) (l : list A) (i : nat) :
  map f l !! i = option_map f (l !! i).
Proof. revert i. induction l as [| a l IH]; intros [| i]; simpl; auto. Qed.

(** Reading a pixel of a mapped image. *)
Lemma at_map_pixels (f : Vec3b -> Vec3b) (img : Mat) (y x : nat) :
  at_ (map_pixels f img) y x = option_map f (at_ img y x).
Proof.
  unfold at_, map_pixels. simpl. rewrite lookup_map.
  destruct (data img !! y) as [row |]; simpl; [apply lookup_map | reflexivity].
Qed.

(** A pixel read from a well-formed image is valid. *)
Lemma at_wf (m : Mat) (y x : nat) (px : Vec3b) :
  mat_wf m -> at_ m y x = Some px -> vec3b_ok px.
Proof.
  intros [_ Hrows] H. unfold at_ in H.
  destruct (data m !! y) as [row |] eqn:Hy; simpl in H; [| discriminate].
  pose proof (proj1 (Forall_lookup _ _) Hrows y row Hy) as [_ Hok].
  exact (proj1 (Forall_lookup _ _) Hok x px H).
Qed.

(** The boolean well-formedness test decides [mat_wf]. *)
Lemma mat_wfb_spec (m : Mat) : mat_wfb m = true -> mat_wf m.
Proof.
  unfold mat_wfb, mat_wf. intros H. apply andb_prop in H as [Hl Hr].
  split; [apply Nat.eqb_eq; exact Hl |]. apply List.Forall_forall. intros row Hrow.
  apply forallb_forall with (x := row) in Hr; [| exact Hrow].
  apply andb_prop in Hr as [Hc Hok]. split; [apply Nat.eqb_eq; exact Hc |].
  apply List.Forall_forall. intros px Hpx. apply forallb_forall with (x := px) in Hok; [| exact Hpx].
  unfold vec3b_okb, uchar_okb in Hok. rewrite !andb_true_iff, !Z.leb_le in Hok.
  unfold vec3b_ok, uchar_ok. tauto.
Qed.

Section Loops.
Variable f : Vec3b -> Vec3b.

Lemma loop_cols_spec (src dst : Mat) (y x n : nat) (srow : list Vec3b) :
  data src !! y = Some srow ->
  data dst !! y = Some (map f (take x srow) ++ drop x srow) ->
  (x + n = length srow)%nat ->
  loop_cols f src y x n dst =
  Some (mkMat (rows dst) (cols dst) (<[y := map f srow]> (data dst))).
Proof.
  revert x dst. induction n as [| n IH]; intros x dst Hs Hd Hn; simpl.
  - rewrite take_ge, drop_ge, app_nil_r in Hd by lia.
    rewrite list_insert_id by exact Hd. destruct dst; reflexivity.
  - destruct (lookup_lt_is_Some_2 srow x ltac:(lia)) as [px Hpx].
    unfold at_, set_at. rewrite Hs, Hd. simpl. rewrite Hpx. simpl.
    rewrite decide_True
      by (rewrite length_app, length_map, length_take, length_drop; lia).
    simpl. rewrite (IH (S x)); [| exact Hs | | lia].
    + simpl. rewrite list_insert_insert, decide_True by reflexivity. reflexivity.
    + simpl. rewrite list_lookup_insert_eq by (apply lookup_lt_Some in Hd; exact Hd).
      f_equal. apply insert_map_take_drop. exact Hpx.
Qed.

Lemma loop_rows_spec (src dst : Mat) (y n : nat) :
  mat_wf src ->
  data dst = map (map f) (take y (data src)) ++ drop y (data src) ->
  (y + n = rows src)%nat ->
  loop_rows f src y n dst = Some (mkMat (rows dst) (cols dst) (map (map f) (data src))).
Proof.
  intros [Hlen Hrows]. revert y dst. induction n as [| n IH]; intros y dst Hd Hn; simpl.
  - rewrite take_ge, drop_ge, app_nil_r in Hd by lia.
    rewrite <- Hd. destruct dst; reflexivity.
  - destruct (lookup_lt_is_Some_2 (data src) y ltac:(lia)) as [srow Hs].
    pose proof (proj1 (Forall_lookup _ _) Hrows y srow Hs) as [Hc _].
    rewrite (loop_cols_spec src dst y 0 (cols src) srow Hs); [| | lia].
    + simpl. rewrite IH; [reflexivity | | lia]. simpl. rewrite Hd.
      apply (insert_map_take_drop (map f)). exact Hs.
    + rewrite Hd, lookup_app_r by (rewrite length_map, length_take; lia).
      rewrite length_map, length_take, Nat.min_l by lia.
      rewrite Nat.sub_diag, lookup_drop, Nat.add_0_r, Hs. reflexivity.
Qed.

(** The double loop over a well-formed image performs no out-of-range
    access and returns the pixelwise map. *)
Lemma map_pixels_loop_spec (img : Mat) :
  mat_wf img -> map_pixels_loop f img = Some (map_pixels f img).
Proof.
  intros Hwf. unfold map_pixels_loop. rewrite (loop_rows_spec img img 0); [reflexivity | exact Hwf | | lia].
  simpl. reflexivity.
Qed.

(** A pixel map that keeps pixels valid keeps images well formed. *)
Lemma map_pixels_wf (img : Mat) :
  (forall px, vec3b_ok px -> vec3b_ok (f px)) -> mat_wf img -> mat_wf (map_pixels f img).
Proof.
  intros Hf [Hlen Hrows]. split; simpl; [rewrite length_map; exact Hlen |].
  apply Forall_map. eapply Forall_impl; [exact Hrows |]. intros row [Hc Hok].
  split; [rewrite length_map; exact Hc |]. apply Forall_map.
  eapply Forall_impl; [exact Hok | exact Hf].
Qed.

(** Two pixel maps that agree on valid pixels agree on well-formed images. *)
Lemma map_pixels_ext (g : Vec3b -> Vec3b) (img : Mat) :
  (forall px, vec3b_ok px -> f px = g px) -> mat_wf img -> map_pixels f img = map_pixels g img.
Proof.
  intros Hfg [_ Hrows]. unfold map_pixels. f_equal. apply map_ext_Forall.
  eapply Forall_impl; [exact Hrows |]. intros row [_ Hok]. apply map_ext_Forall.
  eapply Forall_impl; [exact Hok | exact Hfg].
Qed.

Lemma map_pixels_id (img : Mat) :
  (forall px, vec3b_ok px -> f px = px) -> mat_wf img -> map_pixels f img = img.
Proof.
  intros Hf Hwf. rewrite (map_pixels_ext id img Hf Hwf). unfold map_pixels.
  rewrite (map_ext (map id) id) by (intros; apply map_id). rewrite map_id.
  destruct img; reflexivity.
Qed.

End Loops.

Lemma map_pixels_compose (f g : Vec3b -> Vec3b) (img : Mat) :
  map_pixels g (map_pixels f img) = map_pixels (fun px => g (f px)) img.
Proof.
  unfold map_pixels. simpl. f_equal. rewrite map_map. apply map_ext. intros row.
  apply map_map.
Qed.

End ImageFacts.
