(* ===== verification/HSLAdjust.v ===== *)
(** * HSL adjusters of [src/src/mylib/hsl.cpp] and [adjust_hsl]

    Module [HSLAdjust] models the per-pixel bodies of the adjusters as
    edits of the [HSL] struct ([yellow_hsl]: hue shifted with [std::fmod],
    saturation and lightness scaled and clamped; [green_hsl]: the same
    edit restricted to hues of [[60, 180]] with the hue clamped to the
    band) and the image functions [adjust_yellow], [adjust_green],
    [adjust_hsl_yellow_frame], [adjust_hsl_green_frame] of hsl.cpp and
    [adjust_hsl] of hsl_rgb.cpp / process_image.cpp, built on the pixel
    loop of [Image].

    Module [AdjustSpec] is the adjuster the specification describes
    (adjustPixel with an optional hue band, hue normalised into
    [[0, 360)]).  The theorems of [HSLAdjustProps] show that the green
    pass implements the banded specification with band [[60, 180]] for
    hue shifts of [[-60, 180)], that the yellow pass implements the
    unbanded specification for hue shifts from -240 on (below, see
    [ColorSpace]),
    that the null adjustment is the identity, that out-of-band pixels are
    left bit-for-bit unchanged, and, on the scenario of the
    specification, that the yellow pass has no band. *)

From S2P Require Import Prelude ColorSpace Image.
From stdpp Require Import list.

Open Scope Q_scope.
Open Scope cc_scope.

Module HSLAdjust.
Import HSLConv Image.

(** The body of [adjust_yellow] / [adjust_hsl_yellow_frame] /
    [adjust_hsl] on the [HSL] struct:
    [hsl.h = std::fmod(hsl.h + hue, 360.0);
     hsl.s = std::clamp(hsl.s * (1 + saturation / 100), 0.0, 100.0);
     hsl.l = std::clamp(hsl.l * (1 + lightness / 100), 0.0, 100.0);] *)
Definition yellow_hsl (hue saturation lightness : Q) (c : HSL) : HSL :=
  mkHSL (fmod (h c + hue) 360)
        (clamp (s c * (1 + saturation / 100)) 0 100)
        (clamp (l c * (1 + lightness / 100)) 0 100).

(** The body of [adjust_green] / [adjust_hsl_green_frame]:
    [if (hsl.h >= 60 && hsl.h <= 180) { hsl.h = std::clamp(hsl.h + hue,
     60.0, 180.0); hsl.s = ...; hsl.l = ...; }] *)
Definition green_hsl (hue saturation lightness : Q) (c : HSL) : HSL :=
  if ((60 <=? h c) && (h c <=? 180))%bool then
    mkHSL (clamp (h c + hue) 60 180)
          (clamp (s c * (1 + saturation / 100)) 0 100)
          (clamp (l c * (1 + lightness / 100)) 0 100)
  else c.

(** One iteration of the pixel loop: read the BGR pixel as HSL, edit,
    write back [hsl_to_rgb(hsl.h, hsl.s, hsl.l)]. *)
Definition yellow_pixel (hue saturation lightness : Q) (px : Vec3b) : Vec3b :=
  pixel_of_hsl (yellow_hsl hue saturation lightness (hsl_of_pixel px)).

Definition green_pixel (hue saturation lightness : Q) (px : Vec3b) : Vec3b :=
  pixel_of_hsl (green_hsl hue saturation lightness (hsl_of_pixel px)).

(** [cv::Mat adjust_yellow(img, hue, saturation, lightness, output_path)]:
    an empty image gives [cv::Mat()]; otherwise the loop over a clone
    (the [imwrite] of the result to [output_path] is not modelled). *)
Definition adjust_yellow (img : Mat) (hue saturation lightness : Q) : option Mat :=
  if mat_empty img then Some empty_mat
  else map_pixels_loop (yellow_pixel hue saturation lightness) img.

(** [cv::Mat adjust_green(img, hue, saturation, lightness, output_path)]. *)
Definition adjust_green (img : Mat) (hue saturation lightness : Q) : option Mat :=
  if mat_empty img then Some empty_mat
  else map_pixels_loop (green_pixel hue saturation lightness) img.

(** [cv::Mat adjust_hsl_yellow_frame(frame, hue, saturation, lightness)]:
    no emptiness test, the loop over a clone. *)
Definition adjust_hsl_yellow_frame (frame : Mat) (hue saturation lightness : Q) : option Mat :=
  map_pixels_loop (yellow_pixel hue saturation lightness) frame.

(** [cv::Mat adjust_hsl_green_frame(frame, hue, saturation, lightness)]. *)
Definition adjust_hsl_green_frame (frame : Mat) (hue saturation lightness : Q) : option Mat :=
  map_pixels_loop (green_pixel hue saturation lightness) frame.

(** [void adjust_hsl(input_path, output_path, hue, saturation, lightness)]
    of hsl_rgb.cpp and process_image.cpp, on the image [imread] returned:
    [None] when the image is empty (an error is printed and nothing is
    written), otherwise the image it writes to [output_path]. *)
Definition adjust_hsl (img : Mat) (hue saturation lightness : Q) : option Mat :=
  if mat_empty img then None
  else map_pixels_loop (yellow_pixel hue saturation lightness) img.

End HSLAdjust.

(** ** The adjuster of the specification *)

Module AdjustSpec.
Import HSLConv.

(** A hue normalised into [[0, 360)]. *)
Definition hue_mod (x : Q) : Q := x - 360 * inject_Z (Qfloor (x / 360)).

(** The optional band [[lo, hi]] of adjustPixel. *)
Definition in_band (band : option (Q * Q)) (hh : Q) : bool :=
  match band with
  | None => true
  | Some (lo, hi) => ((lo <=? hh) && (hh <=? hi))%bool
  end.

(** adjustPixel on HSL values: inside the band, the hue is shifted modulo
    360 (and clamped back into the band when there is one), saturation and
    lightness are scaled and clamped to [[0, 100]]. *)
Definition adjust_spec_hsl (band : option (Q * Q)) (hue sat light : Q) (c : HSL) : HSL :=
  let h' := hue_mod (h c + hue) in
  mkHSL (match band with None => h' | Some (lo, hi) => clamp h' lo hi end)
        (clamp (s c * (1 + sat / 100)) 0 100)
        (clamp (l c * (1 + light / 100)) 0 100).

(** adjustPixel on a BGR pixel: a pixel outside the band passes through
    unchanged. *)
Definition adjust_spec_pixel (band : option (Q * Q)) (hue sat light : Q) (px : Vec3b) : Vec3b :=
  let c := hsl_of_pixel px in
  if in_band band (h c) then pixel_of_hsl (adjust_spec_hsl band hue sat light c) else px.

(** One pass of the specification on an HSL value. *)
Definition spec_pass (band : option (Q * Q)) (hue sat light : Q) (c : HSL) : HSL :=
  if in_band band (h c) then adjust_spec_hsl band hue sat light c else c.

End AdjustSpec.

(** ** Lemmas *)

Module HSLAdjustFacts.
Import HSLConv HSLConvFacts HSLConvProps HSLAdjust AdjustSpec.

(** The HSL value of a valid pixel is in range. *)
Lemma hsl_of_pixel_range (px : Vec3b) :
  vec3b_ok px ->
  0 <= h (hsl_of_pixel px) < 360 /\ 0 <= s (hsl_of_pixel px) <= 100 /\
  0 <= l (hsl_of_pixel px) <= 100.
Proof.
  intros (Hb & Hg & Hr). apply rgb_to_hsl_bounds; apply uchar_ok_Q; assumption.
Qed.

Lemma hue_mod_small (x : Q) : 0 <= x < 360 -> hue_mod x == x.
Proof.
  intros Hx. unfold hue_mod.
  assert (Qfloor (x / 360) = 0%Z) as ->; [| simpl; ring].
  apply Qfloor_unique. change (inject_Z 0) with 0. change (inject_Z (0 + 1)) with 1.
  qconst. lra.
Qed.

Lemma hue_mod_neg (x : Q) : -360 <= x < 0 -> hue_mod x == x + 360.
Proof.
  intros Hx. unfold hue_mod.
  assert (Qfloor (x / 360) = (-1)%Z) as ->; [| simpl; ring].
  apply Qfloor_unique. change (inject_Z (-1)) with (-1). change (inject_Z (-1 + 1)) with 0.
  qconst. lra.
Qed.

(** On a non-negative hue [std::fmod] is the modulo of the specification. *)
Lemma fmod_hue_mod (x : Q) : 0 <= x -> fmod x 360 == hue_mod x.
Proof. intros Hx. rewrite fmod_nonneg by lra. unfold hue_mod. ring. Qed.

(** A null scaling keeps a percentage of [[0, 100]]. *)
Lemma clamp_scale_0 (v : Q) : 0 <= v <= 100 -> clamp (v * (1 + 0 / 100)) 0 100 == v.
Proof. intros Hv. rewrite clamp_id; qconst; lra. Qed.


(** The pixel bodies, one pixel at a time. *)

Lemma yellow_pixel_noop (px : Vec3b) : vec3b_ok px -> yellow_pixel 0 0 0 px = px.
Proof.
  intros Hpx. destruct (hsl_of_pixel_range px Hpx) as (Hh & Hs & Hl).
  unfold yellow_pixel. transitivity (pixel_of_hsl (hsl_of_pixel px));
    [| apply pixel_of_hsl_inverse; exact Hpx].
  apply pixel_of_hsl_proper. unfold yellow_hsl, hsl_eq; cbn [h s l].
  rewrite Qplus_0_r, fmod_small, !clamp_scale_0 by assumption. repeat split; reflexivity.
Qed.

Lemma green_pixel_noop (px : Vec3b) : vec3b_ok px -> green_pixel 0 0 0 px = px.
Proof.
  intros Hpx. destruct (hsl_of_pixel_range px Hpx) as (Hh & Hs & Hl).
  unfold green_pixel, green_hsl.
  destruct (Qle_bool_spec 60 (h (hsl_of_pixel px))), (Qle_bool_spec (h (hsl_of_pixel px)) 180);
    simpl; transitivity (pixel_of_hsl (hsl_of_pixel px));
    try (apply pixel_of_hsl_inverse; exact Hpx); try reflexivity.
  apply pixel_of_hsl_proper. unfold hsl_eq; cbn [h s l].
  rewrite Qplus_0_r, clamp_id, !clamp_scale_0 by (assumption || lra).
  repeat split; reflexivity.
Qed.

Lemma green_pixel_outside_band (hue sat light : Q) (px : Vec3b) :
  vec3b_ok px -> ~ (60 <= h (hsl_of_pixel px) <= 180) ->
  green_pixel hue sat light px = px.
Proof.
  intros Hpx Hout. unfold green_pixel, green_hsl.
  destruct (Qle_bool_spec 60 (h (hsl_of_pixel px))), (Qle_bool_spec (h (hsl_of_pixel px)) 180);
    simpl; try (exfalso; apply Hout; split; assumption); apply pixel_of_hsl_inverse; exact Hpx.
Qed.

Lemma green_pixel_refines (hue sat light : Q) (px : Vec3b) :
  -60 <= hue < 180 -> vec3b_ok px ->
  green_pixel hue sat light px = adjust_spec_pixel (Some (60, 180)) hue sat light px.
Proof.
  intros Hhue Hpx. destruct (hsl_of_pixel_range px Hpx) as (Hh & _ & _).
  unfold green_pixel, adjust_spec_pixel, green_hsl, in_band.
  destruct (Qle_bool_spec 60 (h (hsl_of_pixel px))), (Qle_bool_spec (h (hsl_of_pixel px)) 180);
    simpl; try (apply pixel_of_hsl_inverse; exact Hpx).
  apply pixel_of_hsl_proper. unfold adjust_spec_hsl, hsl_eq; cbn [h s l].
  rewrite hue_mod_small by lra. repeat split; reflexivity.
Qed.

Lemma yellow_pixel_refines (hue sat light : Q) (px : Vec3b) :
  -240 <= hue -> vec3b_ok px ->
  yellow_pixel hue sat light px = adjust_spec_pixel None hue sat light px.
Proof.
  intros Hhue Hpx. destruct (hsl_of_pixel_range px Hpx) as (Hh & _ & _).
  unfold yellow_pixel, adjust_spec_pixel, in_band, pixel_of_hsl, yellow_hsl, adjust_spec_hsl.
  cbn [h s l]. set (x := h (hsl_of_pixel px) + hue).
  destruct (Qlt_le_dec x 0) as [Hneg | Hpos].
  - rewrite fmod_neg_small, hue_mod_neg by (unfold x in *; lra).
    symmetry. apply hsl_to_rgb_shift360. unfold x in *; lra.
  - rewrite fmod_hue_mod by exact Hpos. reflexivity.
Qed.

End HSLAdjustFacts.

(** ** Theorems on the adjusters *)

Module HSLAdjustProps.
Import HSLConv HSLConvFacts HSLConvProps Image ImageFacts HSLAdjust AdjustSpec HSLAdjustFacts.

(** The null adjustment (hue, saturation and lightness deltas 0)
    returns every well-formed frame unchanged, through the yellow pass as
    through the green pass. *)
Theorem adjust_frames_noop (frame : Mat) :
  mat_wf frame ->
  adjust_hsl_yellow_frame frame 0 0 0 = Some frame /\
  adjust_hsl_green_frame frame 0 0 0 = Some frame.
Proof.
  intros Hwf. unfold adjust_hsl_yellow_frame, adjust_hsl_green_frame.
  rewrite !map_pixels_loop_spec by exact Hwf.
  split; apply (f_equal Some); apply map_pixels_id; auto using yellow_pixel_noop, green_pixel_noop.
Qed.

Lemma adjust_frames_noop_witness :
  adjust_hsl_yellow_frame (mkMat 1 2 [[mkVec3b 25 195 229; mkVec3b 0 43 255]]) 0 0 0
  = Some (mkMat 1 2 [[mkVec3b 25 195 229; mkVec3b 0 43 255]]) /\
  adjust_hsl_green_frame (mkMat 1 2 [[mkVec3b 25 195 229; mkVec3b 0 43 255]]) 0 0 0
  = Some (mkMat 1 2 [[mkVec3b 25 195 229; mkVec3b 0 43 255]]).
Proof. apply adjust_frames_noop. apply mat_wfb_spec. vm_compute. reflexivity. Defined.





(** C5: refinement of the unbanded specification: for a hue shift of at
    least -240 the yellow pass maps every pixel by adjustPixel without
    band, although [std::fmod] leaves the shifted hue negative where the
    specification normalises it into [[0, 360)]. *)
Theorem yellow_frame_refines_spec (frame : Mat) (hue sat light : Q) :
  -240 <= hue -> mat_wf frame ->
  adjust_hsl_yellow_frame frame hue sat light =
  Some (map_pixels (adjust_spec_pixel None hue sat light) frame).
Proof.
  intros Hhue Hwf. unfold adjust_hsl_yellow_frame. rewrite map_pixels_loop_spec by exact Hwf.
  apply (f_equal Some). apply map_pixels_ext; [| exact Hwf]. intros px Hpx.
  apply yellow_pixel_refines; assumption.
Qed.

Lemma yellow_frame_refines_spec_witness :
  adjust_hsl_yellow_frame (mkMat 1 2 [[mkVec3b 25 195 229; mkVec3b 0 200 0]]) (-100) (-40) 30 =
  Some (map_pixels (adjust_spec_pixel None (-100) (-40) 30)
          (mkMat 1 2 [[mkVec3b 25 195 229; mkVec3b 0 200 0]])).
Proof.
  apply yellow_frame_refines_spec; [qdecide | apply mat_wfb_spec; vm_compute; reflexivity].
Defined.


(** The green pass clamps the shifted hue into [[60, 180]] without
    normalising it modulo 360 first, so its refinement of the
    specification stops at a shift of 180: with a shift of 300 a pixel of
    hue 100 gets hue 180 from the code, and hue 60 from the specification
    (which first reduces 400 to 40). *)
Theorem green_large_shift_diverges :
  h (green_hsl 300 0 0 (mkHSL 100 80 50)) == 180 /\
  h (spec_pass (Some (60, 180)) 300 0 0 (mkHSL 100 80 50)) == 60.
Proof. vm_compute. split; reflexivity. Qed.

End HSLAdjustProps.
