(* ===== verification/CCMApply.v ===== *)
(** * Application of the colour-correction matrix

    Module [CCMApply] models the loop that applies the 3x3 CCM to an
    image, written out in [LCC] of [src/src/mylib/Linear_CCM.cpp] (lines
    234-252) and copied in [applyColorCorrection] of [process_image.cpp],
    in the frame loop of [load_ccm2video.cpp] and in [main] of
    [test.cpp]; the zoom-blended variant [applyColorCorrection] of
    [applyvideo2ccm.cpp]; and OpenCV's [convertTo(dst, -1, alpha, 0)]
    used after it.  The loop walks a row as bytes ([img.ptr<uchar>(i)],
    [j += 3]); [row_bytes] and [bytes_row] are the two views of a row.
    The matrix is the [CV_32FC1] 3x3 [ColorMatrix], as its rows.

    The theorems of [CCMApplyProps]: the byte loop computes the per-pixel
    product [out_c = sum_k in_k * C[k][c]] in BGR order with
    [saturate_cast] (a refinement of the row-vector convention of the
    specification), never leaves [0..255], is the identity for the
    identity matrix, and that a zoom factor below 1 makes the blend
    factor negative and inverts the correction (the blend with factor 0,
    which [processVideo] always passes, is the identity). *)

From S2P Require Import Prelude Image.
From stdpp Require Import list.

Open Scope Q_scope.
Open Scope cc_scope.

Module CCMApply.
Import Image.

(** [cv::Mat ColorMatrix(3, 3, CV_32FC1)], as its rows. *)
Definition CMat := list (list Q).

(** [ColorMatrix.ptr<float>(i)[j]]. *)
Definition cm (C : CMat) (i j : nat) : Q := nth j (nth i C []) 0.

(** [SP[j] * CMC_1[c] + SP[j + 1] * CMC_2[c] + SP[j+2] * CMC_3[c]]. *)
Definition ccm_channel (C : CMat) (c : nat) (b g r : Q) : Q :=
  b * cm C 0 c + g * cm C 1 c + r * cm C 2 c.

(** A row of pixels as the bytes [img.ptr<uchar>(i)] points to. *)
Definition row_bytes (row : list Vec3b) : list Z :=
  flat_map (fun px => [vb0 px; vb1 px; vb2 px]) row.

(** The bytes of a row read back as pixels. *)
Fixpoint bytes_row (bs : list Z) : list Vec3b :=
  match bs with
  | b :: g :: r :: rest => mkVec3b b g r :: bytes_row rest
  | _ => []
  end.

(** [for (j = j0; j < len; j += 3) { DP[j] = saturate_cast<uchar>(...);
    DP[j+1] = ...; DP[j+2] = ...; }], with [fuel] bounding the number of
    iterations; [None] is a read out of the row or fuel exhausted. *)
Fixpoint lcc_row_loop (C : CMat) (sp : list Z) (len j fuel : nat) (dp : list Z) : option (list Z) :=
  match fuel with
  | O => None
  | S fuel' =>
      if (j <? len)%nat then
        b ← sp !! j; g ← sp !! (j + 1)%nat; r ← sp !! (j + 2)%nat;
        let B := inject_Z b in let G := inject_Z g in let R := inject_Z r in
        let dp1 := <[j := saturate_cast_uchar (ccm_channel C 0 B G R)]> dp in
        let dp2 := <[(j + 1)%nat := saturate_cast_uchar (ccm_channel C 1 B G R)]> dp1 in
        let dp3 := <[(j + 2)%nat := saturate_cast_uchar (ccm_channel C 2 B G R)]> dp2 in
        lcc_row_loop C sp len (j + 3)%nat fuel' dp3
      else Some dp
  end.

(** One row: [uchar *SP = img.ptr<uchar>(i); uchar *DP = Dst.ptr<uchar>(i);]
    and the [j] loop up to [ImgWidth*channels] (3 channels), [DP] starting
    as a copy of [SP] ([Dst = img.clone()]). *)
Definition lcc_row (C : CMat) (width : nat) (row : list Vec3b) : option (list Vec3b) :=
  let sp := row_bytes row in
  dp ← lcc_row_loop C sp (width * 3) 0 (S (width * 3)) sp;
  Some (bytes_row dp).

(** Lines 234-252 of [LCC]: [Dst = img.clone()] and the loop over the rows
    with the matrix [ColorMatrix] read from the CSV file. *)
Definition LCC_apply (C : CMat) (img : Mat) : option Mat :=
  rows' ← mapM (lcc_row C (cols img)) (data img);
  Some (mkMat (rows img) (cols img) rows').

(** The same loop body on one pixel. *)
Definition ccm_pixel (C : CMat) (px : Vec3b) : Vec3b :=
  let B := inject_Z (vb0 px) in let G := inject_Z (vb1 px) in let R := inject_Z (vb2 px) in
  mkVec3b (saturate_cast_uchar (ccm_channel C 0 B G R))
          (saturate_cast_uchar (ccm_channel C 1 B G R))
          (saturate_cast_uchar (ccm_channel C 2 B G R)).

(** [src.convertTo(dst, -1, alpha, beta)] on an 8-bit image: every byte
    becomes [saturate_cast<uchar>(alpha * v + beta)]. *)
Definition convert_pixel (alpha beta : Q) (px : Vec3b) : Vec3b :=
  mkVec3b (saturate_cast_uchar (alpha * inject_Z (vb0 px) + beta))
          (saturate_cast_uchar (alpha * inject_Z (vb1 px) + beta))
          (saturate_cast_uchar (alpha * inject_Z (vb2 px) + beta)).

Definition convertTo (alpha beta : Q) (img : Mat) : Mat := map_pixels (convert_pixel alpha beta) img.

(** [applyColorCorrection(img, ColorMatrix)] of process_image.cpp: the loop,
    then [Dst.convertTo(Dst, -1, 0.95, 0)]. *)
Definition applyColorCorrection (img : Mat) (C : CMat) : option Mat :=
  dst ← LCC_apply C img;
  Some (convertTo (95 / 100) 0 dst).

(** The frame body of [main] in load_ccm2video.cpp: the loop, then
    [convertTo] with [alpha = 1]. *)
Definition ccm_frame_load (C : CMat) (frame : Mat) : option Mat :=
  dst ← LCC_apply C frame;
  Some (convertTo 1 0 dst).

(** [main] of test.cpp after reading the matrix: the loop, then [convertTo]
    with [alpha = 0.9]. *)
Definition ccm_test_image (C : CMat) (img : Mat) : option Mat :=
  dst ← LCC_apply C img;
  Some (convertTo (9 / 10) 0 dst).

(** The body of the zoom-blended loop of applyvideo2ccm.cpp:
    [DP[j] = saturate_cast<uchar>(SP[j] * (1.0 - enhancement) + b * enhancement)]
    with [b] the unsaturated product. *)
Definition zoom_pixel (C : CMat) (enhancement : Q) (px : Vec3b) : Vec3b :=
  let B := inject_Z (vb0 px) in let G := inject_Z (vb1 px) in let R := inject_Z (vb2 px) in
  let b := ccm_channel C 0 B G R in
  let g := ccm_channel C 1 B G R in
  let r := ccm_channel C 2 B G R in
  mkVec3b (saturate_cast_uchar (B * (1 - enhancement) + b * enhancement))
          (saturate_cast_uchar (G * (1 - enhancement) + g * enhancement))
          (saturate_cast_uchar (R * (1 - enhancement) + r * enhancement)).

(** [double enhancement = std::min(zoom_factor - 1.0, 1.0);] *)
Definition enhancement_of (zoom_factor : Q) : Q :=
  if 1 <? zoom_factor - 1 then 1 else zoom_factor - 1.

(** [applyColorCorrection(img, ColorMatrix, zoom_factor)] of
    applyvideo2ccm.cpp, on the pixels (its byte loop has the shape of
    [lcc_row_loop]). *)
Definition applyColorCorrection_zoom (img : Mat) (C : CMat) (zoom_factor : Q) : Mat :=
  map_pixels (zoom_pixel C (enhancement_of zoom_factor)) img.

End CCMApply.

(** ** The byte view of a row *)

Module CCMApplyFacts.
Import Image ImageFacts CCMApply.

Lemma row_bytes_app (l1 l2 : list Vec3b) : row_bytes (l1 ++ l2) = row_bytes l1 ++ row_bytes l2.
Proof. unfold row_bytes. apply flat_map_app. Qed.

Lemma length_row_bytes (l : list Vec3b) : length (row_bytes l) = (3 * length l)%nat.
Proof. induction l as [| px l IH]; simpl; [reflexivity |]. rewrite IH. lia. Qed.

(** Reading a row as bytes and back gives the row. *)
Lemma bytes_row_bytes (l : list Vec3b) : bytes_row (row_bytes l) = l.
Proof. induction l as [| [b g r] l IH]; simpl; [reflexivity |]. now rewrite IH. Qed.

(** The byte [3k + c] of a row is channel [c] of pixel [k]. *)
Lemma lookup_row_bytes (pre rest : list Vec3b) (px : Vec3b) :
  let j := (3 * length pre)%nat in
  row_bytes (pre ++ px :: rest) !! j = Some (vb0 px) /\
  row_bytes (pre ++ px :: rest) !! (j + 1)%nat = Some (vb1 px) /\
  row_bytes (pre ++ px :: rest) !! (j + 2)%nat = Some (vb2 px).
Proof.
  intros j. rewrite row_bytes_app. unfold j.
  rewrite !lookup_app_r by (rewrite length_row_bytes; lia).
  rewrite length_row_bytes. replace (3 * length pre - 3 * length pre)%nat with 0%nat by lia.
  replace (3 * length pre + 1 - 3 * length pre)%nat with 1%nat by lia.
  replace (3 * length pre + 2 - 3 * length pre)%nat with 2%nat by lia.
  repeat split.
Qed.

(** Writing the three bytes of pixel [k] replaces that pixel. *)
Lemma insert3_row_bytes (pre rest : list Vec3b) (px q : Vec3b) :
  let j := (3 * length pre)%nat in
  <[(j + 2)%nat := vb2 q]> (<[(j + 1)%nat := vb1 q]> (<[j := vb0 q]> (row_bytes (pre ++ px :: rest))))
  = row_bytes (pre ++ q :: rest).
Proof.
  intros j. rewrite !row_bytes_app. unfold j.
  rewrite !insert_app_r_alt by (rewrite length_row_bytes; lia).
  rewrite length_row_bytes. replace (3 * length pre - 3 * length pre)%nat with 0%nat by lia.
  replace (3 * length pre + 1 - 3 * length pre)%nat with 1%nat by lia.
  replace (3 * length pre + 2 - 3 * length pre)%nat with 2%nat by lia.
  reflexivity.
Qed.

(** The loop, started at pixel [length pre] with the prefix already
    written, finishes the row within [length rest + 1] iterations. *)
Lemma lcc_row_loop_spec (C : CMat) (row pre rest : list Vec3b) (fuel : nat) :
  row = pre ++ rest -> (length rest < fuel)%nat ->
  lcc_row_loop C (row_bytes row) (3 * length row) (3 * length pre) fuel
    (row_bytes (map (ccm_pixel C) pre ++ rest)) =
  Some (row_bytes (map (ccm_pixel C) row)).
Proof.
  revert pre fuel. induction rest as [| px rest IH]; intros pre fuel -> Hfuel;
    destruct fuel as [| fuel]; try (simpl in Hfuel; lia); cbn [lcc_row_loop].
  - rewrite !app_nil_r, Nat.ltb_irrefl. reflexivity.
  - rewrite length_app. cbn [length].
    destruct (Nat.ltb_spec (3 * length pre) (3 * (length pre + S (length rest)))) as [_ | C']; [| lia].
    destruct (lookup_row_bytes pre rest px) as (E0 & E1 & E2). cbv zeta in E0, E1, E2.
    rewrite E0, E1, E2. cbn [mbind option_bind].
    pose proof (insert3_row_bytes (map (ccm_pixel C) pre) rest px (ccm_pixel C px)) as Ei.
    cbv zeta in Ei. rewrite length_map in Ei.
    match goal with |- lcc_row_loop _ _ _ _ _ ?dp = _ =>
      replace dp with (row_bytes (map (ccm_pixel C) pre ++ ccm_pixel C px :: rest))
        by (rewrite <- Ei; reflexivity) end.
    replace (3 * length pre + 3)%nat with (3 * length (pre ++ [px]))%nat
      by (rewrite length_app; simpl; lia).
    replace (map (ccm_pixel C) pre ++ ccm_pixel C px :: rest)
      with (map (ccm_pixel C) (pre ++ [px]) ++ rest)
      by (rewrite map_app, <- app_assoc; reflexivity).
    replace (3 * (length pre + S (length rest)))%nat with (3 * length ((pre ++ [px]) ++ rest))%nat
      by (rewrite !length_app; simpl; lia).
    rewrite <- app_assoc. simpl.
    rewrite (IH (pre ++ [px])); [reflexivity | rewrite <- app_assoc; reflexivity | simpl in Hfuel; lia].
Qed.

Lemma lcc_row_spec (C : CMat) (row : list Vec3b) :
  lcc_row C (length row) row = Some (map (ccm_pixel C) row).
Proof.
  unfold lcc_row. rewrite Nat.mul_comm.
  pose proof (lcc_row_loop_spec C row [] row (S (3 * length row)) eq_refl ltac:(lia)) as E.
  simpl in E |- *. rewrite E. simpl. rewrite bytes_row_bytes. reflexivity.
Qed.

Lemma mapM_Some_map {A B} (f : A -> option B) (g : A -> B) (l : list A) :
  Forall (fun x => f x = Some (g x)) l -> mapM f l = Some (map g l).
Proof. induction 1 as [| x l Hx _ IH]; simpl; [reflexivity |]. rewrite Hx, IH. reflexivity. Qed.

(** [saturate_cast] keeps every output pixel valid. *)
Lemma ccm_pixel_ok (C : CMat) (px : Vec3b) : vec3b_ok (ccm_pixel C px).
Proof. unfold ccm_pixel, vec3b_ok. simpl. auto with cc. Qed.

Lemma zoom_pixel_ok (C : CMat) (e : Q) (px : Vec3b) : vec3b_ok (zoom_pixel C e px).
Proof. unfold zoom_pixel, vec3b_ok. simpl. auto with cc. Qed.

Lemma convert_pixel_ok (alpha beta : Q) (px : Vec3b) : vec3b_ok (convert_pixel alpha beta px).
Proof. unfold convert_pixel, vec3b_ok. simpl. auto with cc. Qed.

(** The application loop on a well-formed image is the per-pixel map. *)
Lemma LCC_apply_map (C : CMat) (img : Mat) :
  mat_wf img -> LCC_apply C img = Some (map_pixels (ccm_pixel C) img).
Proof.
  intros [Hlen Hrows]. unfold LCC_apply. rewrite (mapM_Some_map _ (map (ccm_pixel C))).
  - reflexivity.
  - eapply Forall_impl; [exact Hrows |]. intros row [Hc _]. rewrite <- Hc. apply lcc_row_spec.
Qed.

(** The identity matrix as [ColorMatrix]. *)
Definition I3 : CMat := [[1; 0; 0]; [0; 1; 0]; [0; 0; 1]].

Lemma ccm_pixel_I3 (px : Vec3b) : vec3b_ok px -> ccm_pixel I3 px = px.
Proof.
  destruct px as [b g r]. intros (Hb & Hg & Hr). unfold ccm_pixel, ccm_channel, cm, I3. simpl.
  f_equal; apply saturate_cast_uchar_Z; auto; ring.
Qed.

(** With blend factor 0 the zoom loop copies every pixel. *)
Lemma zoom_pixel_0 (C : CMat) (px : Vec3b) : vec3b_ok px -> zoom_pixel C 0 px = px.
Proof.
  destruct px as [b g r]. intros (Hb & Hg & Hr). unfold zoom_pixel. simpl.
  f_equal; apply saturate_cast_uchar_Z; auto; ring.
Qed.

(** With blend factor 1 the zoom loop is the plain application loop. *)
Lemma zoom_pixel_1 (C : CMat) (px : Vec3b) : zoom_pixel C 1 px = ccm_pixel C px.
Proof.
  unfold zoom_pixel, ccm_pixel. f_equal; apply saturate_cast_uchar_proper; ring.
Qed.

#[export] Instance enhancement_of_proper : Proper (Qeq ==> Qeq) enhancement_of.
Proof. intros z z' Hz. unfold enhancement_of. qcases; lra. Qed.

Lemma enhancement_of_1 : enhancement_of 1 == 0.
Proof. reflexivity. Qed.

End CCMApplyFacts.

(** ** Theorems on the application of the matrix *)

Module CCMApplyProps.
Import Image ImageFacts CCMApply CCMApplyFacts.

(** C2: on a well-formed image, the byte loop of [LCC] never reads out of
    a row, terminates, and computes for every pixel the row-vector product
    [out_c = B*C[0][c] + G*C[1][c] + R*C[2][c]] saturated to [0..255]; the
    result is a well-formed image of the same size. *)
Theorem LCC_apply_spec (C : CMat) (img : Mat) :
  mat_wf img ->
  LCC_apply C img = Some (map_pixels (ccm_pixel C) img) /\
  mat_wf (map_pixels (ccm_pixel C) img).
Proof.
  intros Hwf. split; [apply LCC_apply_map; exact Hwf |].
  apply map_pixels_wf; [intros; apply ccm_pixel_ok | exact Hwf].
Qed.

Lemma LCC_apply_spec_witness :
  LCC_apply [[2; 0; 0]; [0; 1#2; 0]; [0; 0; 1]] (mkMat 1 2 [[mkVec3b 10 20 30; mkVec3b 200 100 0]]) =
  Some (map_pixels (ccm_pixel [[2; 0; 0]; [0; 1#2; 0]; [0; 0; 1]])
          (mkMat 1 2 [[mkVec3b 10 20 30; mkVec3b 200 100 0]])) /\
  mat_wf (map_pixels (ccm_pixel [[2; 0; 0]; [0; 1#2; 0]; [0; 0; 1]])
          (mkMat 1 2 [[mkVec3b 10 20 30; mkVec3b 200 100 0]])).
Proof. apply LCC_apply_spec. apply mat_wfb_spec. vm_compute. reflexivity. Defined.

(** Applying the identity matrix leaves every well-formed image
    unchanged, through [LCC] as through the frame loop of
    load_ccm2video.cpp (whose [convertTo] has [alpha = 1]). *)
Theorem LCC_identity (img : Mat) :
  mat_wf img -> LCC_apply I3 img = Some img /\ ccm_frame_load I3 img = Some img.
Proof.
  intros Hwf. unfold ccm_frame_load. rewrite LCC_apply_map by exact Hwf.
  rewrite map_pixels_id by (exact ccm_pixel_I3 || exact Hwf). split; [reflexivity |].
  simpl. unfold convertTo. rewrite map_pixels_id; [reflexivity | | exact Hwf].
  intros [b g r] (Hb & Hg & Hr). unfold convert_pixel. simpl.
  f_equal; apply saturate_cast_uchar_Z; auto; ring.
Qed.

Lemma LCC_identity_witness :
  LCC_apply I3 (mkMat 1 2 [[mkVec3b 10 20 30; mkVec3b 200 100 0]]) =
  Some (mkMat 1 2 [[mkVec3b 10 20 30; mkVec3b 200 100 0]]) /\
  ccm_frame_load I3 (mkMat 1 2 [[mkVec3b 10 20 30; mkVec3b 200 100 0]]) =
  Some (mkMat 1 2 [[mkVec3b 10 20 30; mkVec3b 200 100 0]]).
Proof. apply LCC_identity. apply mat_wfb_spec. vm_compute. reflexivity. Defined.

(** A zoom factor below 1 gives a negative blend factor: the
    specification clamps the factor into [[0, 1]], the code only bounds it
    above, so at zoom 1/2 the correction is inverted: with the matrix
    [2 I] a grey pixel 100 comes out 50 instead of lying between 100 and
    200. *)
Theorem zoom_blend_negative :
  enhancement_of (1 # 2) == - (1 # 2) /\
  zoom_pixel [[2; 0; 0]; [0; 2; 0]; [0; 0; 2]] (enhancement_of (1 # 2)) (mkVec3b 100 100 100)
  = mkVec3b 50 50 50.
Proof. split; vm_compute; reflexivity. Qed.

End CCMApplyProps.
