(* ===== verification/Pipeline.v ===== *)
(** * The per-frame drivers: stages sequenced over a video

    Module [Pipeline] models the [while (cap.read(frame))] loops of the
    video tools as [video_loop]: the frames still to read and the frames
    already handed to the [VideoWriter] are the explicit state; an
    optional [break] test ends the loop early.  The stages are
    - [hsl2video_stage]: [process_video] of applyhsl2video.cpp, the yellow
      pass then the green pass with the same parameters, and
      [hsl2video_main_stage], its [main] with (0, -40, 30) then
      (20, 40, -5);
    - [ccm_frame_load]: the CCM loop of load_ccm2video.cpp (which breaks
      on an empty frame);
    - [processVideo_stage]: [processVideo] of applyvideo2ccm.cpp, whose
      zoom factor is [frame.cols / base_width].

    The class [FrameStage] is what a stage promises to the driver: on a
    well-formed frame it returns a well-formed frame of the same size.
    The driver theorems of [PipelineProps] are proved against the class
    and the instances discharge it for every stage of the code. *)

From S2P Require Import Prelude ColorSpace Image HSLAdjust CCMApply.
From stdpp Require Import list.

Open Scope Q_scope.
Open Scope cc_scope.

Module Pipeline.
Import Image HSLAdjust CCMApply.

(** What a stage of the per-frame pipeline promises. *)
Class FrameStage (stage : Mat -> option Mat) : Prop := {
  stage_ok : forall m, mat_wf m ->
    exists out, stage m = Some out /\ mat_wf out /\ rows out = rows m /\ cols out = cols m
}.

(** [while (cap.read(frame)) { if (stop(frame)) break; out = stage(frame);
    writer.write(out); }]: [written] is what the writer has received. *)
Fixpoint video_loop (stop : Mat -> bool) (stage : Mat -> option Mat)
    (frames : Video) (written : Video) : option Video :=
  match frames with
  | [] => Some written
  | frame :: rest =>
      if stop frame then Some written
      else out ← stage frame; video_loop stop stage rest (written ++ [out])
  end.

(** The loops without [break]. *)
Definition no_break (_ : Mat) : bool := false.

(** The body of [process_video] in applyhsl2video.cpp:
    [adjust_hsl_yellow_frame] then [adjust_hsl_green_frame], both with the
    parameters of the call. *)
Definition hsl2video_stage (hue saturation lightness : Q) (frame : Mat) : option Mat :=
  yellow ← adjust_hsl_yellow_frame frame hue saturation lightness;
  adjust_hsl_green_frame yellow hue saturation lightness.

(** [process_video(input_path, output_path, hue, saturation, lightness)]. *)
Definition process_video_hsl (frames : Video) (hue saturation lightness : Q) : option Video :=
  video_loop no_break (hsl2video_stage hue saturation lightness) frames [].

(** The frame body of [main] in applyhsl2video.cpp. *)
Definition hsl2video_main_stage (frame : Mat) : option Mat :=
  yellow ← adjust_hsl_yellow_frame frame 0 (-40) 30;
  adjust_hsl_green_frame yellow 20 40 (-5).

Definition hsl2video_main (frames : Video) : option Video :=
  video_loop no_break hsl2video_main_stage frames [].

(** [main] of load_ccm2video.cpp: [if (frame.empty()) break;], the CCM
    loop and [convertTo] with [alpha = 1]. *)
Definition load_ccm2video (C : CMat) (frames : Video) : option Video :=
  video_loop mat_empty (ccm_frame_load C) frames [].

(** The loop body of [processVideo] in applyvideo2ccm.cpp:
    [zoom_factor = frame.cols / base_width] and the blended application. *)
Definition processVideo_stage (C : CMat) (base_width : Q) (frame : Mat) : option Mat :=
  Some (applyColorCorrection_zoom frame C (inject_Z (Z.of_nat (cols frame)) / base_width)).

(** [processVideo]: [base_width] is the [CAP_PROP_FRAME_WIDTH] of the file. *)
Definition processVideo (C : CMat) (frame_width : nat) (frames : Video) : option Video :=
  video_loop no_break (processVideo_stage C (inject_Z (Z.of_nat frame_width))) frames [].

End Pipeline.

(** ** The driver loop *)

Module PipelineFacts.
Import Image ImageFacts HSLAdjust CCMApply CCMApplyFacts Pipeline.

(** Without [break], the loop hands the writer the stage applied to each
    frame, in order. *)
Lemma video_loop_no_break (stage : Mat -> option Mat) (frames written : Video) :
  video_loop no_break stage frames written = (outs ← mapM stage frames; Some (written ++ outs)).
Proof.
  revert written. induction frames as [| f frames IH]; intros written; simpl.
  - rewrite app_nil_r. reflexivity.
  - destruct (stage f) as [out |]; simpl; [| reflexivity].
    rewrite IH. destruct (mapM stage frames); simpl; [| reflexivity].
    rewrite <- app_assoc. reflexivity.
Qed.

(** Two stages in sequence ([x <- s1 frame; s2 x]) form a stage. *)
#[export] Instance stage_seq (s1 s2 : Mat -> option Mat) :
  FrameStage s1 -> FrameStage s2 -> FrameStage (fun m => x ← s1 m; s2 x).
Proof.
  intros [H1] [H2]. constructor. intros m Hm.
  destruct (H1 m Hm) as (x & Ex & Hx & Rx & Cx).
  destruct (H2 x Hx) as (y & Ey & Hy & Ry & Cy).
  exists y. rewrite Ex. simpl. rewrite Ey.
  refine (conj eq_refl (conj Hy (conj _ _))); congruence.
Qed.

(** A pixel loop over a clone is a stage. *)
Lemma map_pixels_loop_stage (f : Vec3b -> Vec3b) :
  (forall px, vec3b_ok px -> vec3b_ok (f px)) -> FrameStage (map_pixels_loop f).
Proof.
  intros Hf. constructor. intros m Hm. exists (map_pixels f m).
  rewrite map_pixels_loop_spec by exact Hm.
  refine (conj eq_refl (conj _ (conj eq_refl eq_refl))). apply map_pixels_wf; assumption.
Qed.

Lemma pixel_of_hsl_ok (c : HSLConv.HSL) : vec3b_ok (HSLConv.pixel_of_hsl c).
Proof.
  unfold HSLConv.pixel_of_hsl, HSLConv.hsl_to_rgb.
  destruct (HSLConv.hsl_channels _ _ _) as [[r g] b]. unfold vec3b_ok. simpl. auto with cc.
Qed.

#[export] Instance yellow_frame_stage (hue sat light : Q) :
  FrameStage (fun m => adjust_hsl_yellow_frame m hue sat light).
Proof. apply map_pixels_loop_stage. intros. apply pixel_of_hsl_ok. Qed.

#[export] Instance green_frame_stage (hue sat light : Q) :
  FrameStage (fun m => adjust_hsl_green_frame m hue sat light).
Proof. apply map_pixels_loop_stage. intros. apply pixel_of_hsl_ok. Qed.

#[export] Instance hsl2video_stage_ok (hue sat light : Q) :
  FrameStage (hsl2video_stage hue sat light).
Proof.
  exact (stage_seq _ _ (yellow_frame_stage hue sat light) (green_frame_stage hue sat light)).
Qed.

#[export] Instance hsl2video_main_stage_ok : FrameStage hsl2video_main_stage.
Proof. exact (stage_seq _ _ (yellow_frame_stage 0 (-40) 30) (green_frame_stage 20 40 (-5))). Qed.

#[export] Instance ccm_frame_load_ok (C : CMat) : FrameStage (ccm_frame_load C).
Proof.
  constructor. intros m Hm. unfold ccm_frame_load. rewrite LCC_apply_map by exact Hm.
  simpl. eexists. refine (conj eq_refl (conj _ (conj eq_refl eq_refl))). unfold convertTo.
  apply map_pixels_wf; [intros; apply convert_pixel_ok |].
  apply map_pixels_wf; [intros; apply ccm_pixel_ok | exact Hm].
Qed.

#[export] Instance processVideo_stage_ok (C : CMat) (w : Q) : FrameStage (processVideo_stage C w).
Proof.
  constructor. intros m Hm. eexists. refine (conj eq_refl (conj _ (conj eq_refl eq_refl))).
  apply map_pixels_wf; [intros; apply zoom_pixel_ok | exact Hm].
Qed.

#[export] Instance zoom_pixel_proper (C : CMat) : Proper (Qeq ==> eq ==> eq) (zoom_pixel C).
Proof.
  intros e e' He px px' <-. unfold zoom_pixel.
  f_equal; apply saturate_cast_uchar_proper; rewrite He; reflexivity.
Qed.

End PipelineFacts.

(** ** Theorems on the drivers *)

Module PipelineProps.
Import Image ImageFacts HSLAdjust CCMApply CCMApplyFacts Pipeline PipelineFacts.

Section Driver.
Context (stage : Mat -> option Mat) `{FrameStage stage}.

Lemma mapM_stage (frames : Video) :
  Forall mat_wf frames ->
  exists outs, mapM stage frames = Some outs /\
    Forall2 (fun f o => stage f = Some o /\ mat_wf o /\ rows o = rows f /\ cols o = cols f) frames outs.
Proof.
  induction 1 as [| f frames Hf _ (outs & E & Hall)]; [exists []; split; constructor |].
  destruct (stage_ok f Hf) as (o & Eo & Ho & Ro & Co).
  exists (o :: outs). simpl. rewrite Eo, E. split; [reflexivity |].
  constructor; [tauto | exact Hall].
Qed.


End Driver.

Definition frame_1x1 (px : Vec3b) : Mat := mkMat 1 1 [[px]].


(** C20: [processVideo] of applyvideo2ccm.cpp never applies the matrix:
    every frame of a video has the width [CAP_PROP_FRAME_WIDTH] the zoom
    factor is divided by, so the zoom factor is 1, the blend factor 0, and
    the writer receives the input frames unchanged, whatever the matrix. *)
Theorem processVideo_identity (C : CMat) (frame_width : nat) (frames : Video) :
  (0 < frame_width)%nat ->
  Forall (fun f => mat_wf f /\ cols f = frame_width) frames ->
  processVideo C frame_width frames = Some frames.
Proof.
  intros Hw Hframes. unfold processVideo. rewrite video_loop_no_break.
  rewrite (mapM_Some_map _ id); [rewrite map_id; reflexivity |].
  eapply Forall_impl; [exact Hframes |]. intros f [Hf Hc]. unfold processVideo_stage, id.
  apply (f_equal Some). unfold applyColorCorrection_zoom.
  transitivity (map_pixels (zoom_pixel C 0) f);
    [| apply map_pixels_id; [apply zoom_pixel_0 | exact Hf]].
  apply map_pixels_ext; [| exact Hf]. intros px _. apply zoom_pixel_proper; [| reflexivity].
  rewrite Hc.
  assert (E : inject_Z (Z.of_nat frame_width) / inject_Z (Z.of_nat frame_width) == 1).
  { field. unfold Qeq. simpl. lia. }
  rewrite E. exact enhancement_of_1.
Qed.

Lemma processVideo_identity_witness :
  processVideo [[2; 0; 0]; [0; 2; 0]; [0; 0; 2]] 1 [frame_1x1 (mkVec3b 10 20 30)]
  = Some [frame_1x1 (mkVec3b 10 20 30)].
Proof.
  apply processVideo_identity; [lia |].
  constructor; [split; [apply mat_wfb_spec; vm_compute |]; reflexivity | constructor].
Defined.

End PipelineProps.
