(* ===== verification/VideoIO.v ===== *)
(** * The parameters the video drivers open their writers with

    Every video driver reads the capture's properties with [cap.get]
    (doubles) and opens a [cv::VideoWriter] with a frame rate and a
    frame size.  [applyvideo2ccm.cpp] (lines 80-84) stores all three in
    [int]s, so the frame rate is truncated; [load_ccm2video.cpp] (lines
    62-67), [applyhsl2video.cpp] and [loadvideo.cpp] keep the rate in a
    [double] and cast only the size ([static_cast<int>]).  Module
    [VideoIO] models the properties ([CaptureProps]), the writer's
    parameters ([WriterParams]) and the two ways of deriving them; the
    playing time of [n] frames at a rate is [duration].  The conversion
    of a double to [int] is [Qtrunc] (towards zero). *)

From S2P Require Import Prelude.

Open Scope Q_scope.

Module VideoIO.

(** [cap.get(cv::CAP_PROP_FRAME_WIDTH)], [CAP_PROP_FRAME_HEIGHT],
    [CAP_PROP_FPS]. *)
Record CaptureProps := mkCapture { cap_width : Q; cap_height : Q; cap_fps : Q }.

(** The rate and size a [cv::VideoWriter] is opened with. *)
Record WriterParams := mkWriter { w_fps : Q; w_width : Z; w_height : Z }.

(** [int frame_width = cap.get(...); int frame_height = ...; int fps =
    cap.get(cv::CAP_PROP_FPS);] of [processVideo]. *)
Definition writer_params_int (cp : CaptureProps) : WriterParams :=
  mkWriter (inject_Z (Qtrunc (cap_fps cp))) (Qtrunc (cap_width cp)) (Qtrunc (cap_height cp)).

(** [int frame_width = static_cast<int>(...); ...; double fps =
    cap.get(cv::CAP_PROP_FPS);] of the other drivers. *)
Definition writer_params (cp : CaptureProps) : WriterParams :=
  mkWriter (cap_fps cp) (Qtrunc (cap_width cp)) (Qtrunc (cap_height cp)).

(** How long [n] frames play at [fps] frames per second. *)
Definition duration (n : nat) (fps : Q) : Q := inject_Z (Z.of_nat n) / fps.

End VideoIO.

Module VideoIOFacts.
Import VideoIO.

(** Fewer frames per second play the same frames for longer. *)
Lemma duration_longer (n : nat) (f1 f2 : Q) :
  (0 < n)%nat -> 0 < f2 -> f2 < f1 -> duration n f1 < duration n f2.
Proof.
  intros Hn H2 H12. unfold duration, Qdiv. apply Qmult_lt_l.
  - change 0 with (inject_Z 0). rewrite <- Zlt_Qlt. lia.
  - apply (Qinv_lt_contravar f2 f1); [exact H2 | lra | exact H12].
Qed.

(** The truncated rate: the whole part of a nonnegative rate. *)
Lemma writer_params_int_fps (cp : CaptureProps) :
  0 <= cap_fps cp -> w_fps (writer_params_int cp) = inject_Z (Qfloor (cap_fps cp)).
Proof. intros H. cbn. now rewrite Qtrunc_nonneg by exact H. Qed.

End VideoIOFacts.
