(* ===== verification/LoadVideo.v ===== *)
(** * The chroma-based HSL tool of [src/src/loadvideo.cpp]

    [loadvideo.cpp] carries its own [struct HSL], [rgb_to_hsl] (through
    the chroma [c = max - min]), [hsl_to_rgb] (the six-sector formula with
    [x = c * (1 - |fmod(h / 60, 2) - 1|)]), [adjust_hsl_frame] and
    [process_video].  Module [LoadVideo] translates them; the struct is
    the [HSL] record of [ColorSpace], which has the same three fields.

    Its theorems relate this conversion to the one of [mylib/hsl.cpp]:
    both [rgb_to_hsl] agree on every 8-bit input, and both [hsl_to_rgb]
    compute the same three doubles on every hue of [[0, 360)].  Two
    differences remain, both shown as theorems: this [hsl_to_rgb] builds
    [cv::Vec3b(r, g, b)] where the pixels are BGR, so a null adjustment
    exchanges the red and blue channels of every pixel; and on a negative
    hue (which [std::fmod] returns for a negative shift) no sector matches
    and the pixel becomes grey. *)

From S2P Require Import Prelude ColorSpace Image HSLAdjust CCMApply Pipeline.
From stdpp Require Import list.

Open Scope Q_scope.
Open Scope cc_scope.

Module LoadVideo.
Import HSLConv Image Pipeline.

(** [HSL rgb_to_hsl(double r, double g, double b)] of loadvideo.cpp. *)
Definition rgb_to_hsl (r0 g0 b0 : Q) : HSL :=
  let r := r0 / 255 in
  let g := g0 / 255 in
  let b := b0 / 255 in
  let mx := max3 r g b in
  let mn := min3 r g b in
  let h0 := (mx + mn) / 2 in
  let l := h0 in
  let c := mx - mn in
  if c =? 0 then mkHSL (fmod 0 360) (0 * 100) (l * 100)
  else
    let h1 := if mx =? r then (if g <? b then 60 * ((g - b) / c) + 360 else 60 * ((g - b) / c))
              else if mx =? g then 60 * ((b - r) / c + 2)
              else if mx =? b then 60 * ((r - g) / c + 4)
              else h0 in
    let s := if ((l =? 0) || (l =? 1))%bool then 0 else (mx - l) / min2 l (1 - l) in
    mkHSL (fmod h1 360) (s * 100) (l * 100).

(** The doubles [r + m], [g + m], [b + m] of [hsl_to_rgb]: the sector
    chosen by the [if] chain on [h], none when [h] is outside [[0, 360)]. *)
Definition hsl_channels (h s0 l0 : Q) : Q * Q * Q :=
  let s := s0 / 100 in
  let l := l0 / 100 in
  let c := (1 - Qabs (2 * l - 1)) * s in
  let x := c * (1 - Qabs (fmod (h / 60) 2 - 1)) in
  let m := l - c / 2 in
  let '(r, g, b) :=
    if ((0 <=? h) && (h <? 60))%bool then (c, x, 0)
    else if ((60 <=? h) && (h <? 120))%bool then (x, c, 0)
    else if ((120 <=? h) && (h <? 180))%bool then (0, c, x)
    else if ((180 <=? h) && (h <? 240))%bool then (0, x, c)
    else if ((240 <=? h) && (h <? 300))%bool then (x, 0, c)
    else if ((300 <=? h) && (h <? 360))%bool then (c, 0, x)
    else (0, 0, 0) in
  (r + m, g + m, b + m).

(** [cv::Vec3b hsl_to_rgb(double h, double s, double l)]:
    [cv::Vec3b(static_cast<uchar>((r + m) * 255), (g + m) ..., (b + m) ...)],
    red in channel 0. *)
Definition hsl_to_rgb (h s l : Q) : Vec3b :=
  let '(r, g, b) := hsl_channels h s l in
  mkVec3b (cast_uchar (r * 255)) (cast_uchar (g * 255)) (cast_uchar (b * 255)).

(** The pixel body of [adjust_hsl_frame]:
    [hsl = rgb_to_hsl(pixel[2], pixel[1], pixel[0]);
     hsl.h = std::fmod(hsl.h + hue, 360.0);
     hsl.s = std::min(std::max(hsl.s * (1 + saturation / 100), 0.0), 100.0);
     hsl.l = std::min(std::max(hsl.l * (1 + lightness / 100), 0.0), 100.0);
     result.at(y, x) = hsl_to_rgb(hsl.h, hsl.s, hsl.l);] *)
Definition adjust_pixel (hue saturation lightness : Q) (px : Vec3b) : Vec3b :=
  let c := rgb_to_hsl (inject_Z (vb2 px)) (inject_Z (vb1 px)) (inject_Z (vb0 px)) in
  let hh := fmod (h c + hue) 360 in
  let ss := min2 (max2 (s c * (1 + saturation / 100)) 0) 100 in
  let ll := min2 (max2 (l c * (1 + lightness / 100)) 0) 100 in
  hsl_to_rgb hh ss ll.

(** [cv::Mat adjust_hsl_frame(frame, hue, saturation, lightness)]. *)
Definition adjust_hsl_frame (frame : Mat) (hue saturation lightness : Q) : option Mat :=
  map_pixels_loop (adjust_pixel hue saturation lightness) frame.

(** [process_video(input_path, output_path, hue, saturation, lightness)]. *)
Definition process_video (frames : Video) (hue saturation lightness : Q) : option Video :=
  video_loop no_break (fun frame => adjust_hsl_frame frame hue saturation lightness) frames [].

(** [main]: [process_video(input_path, output_path, 0, -40, 30)]. *)
Definition main_video (frames : Video) : option Video := process_video frames 0 (-40) 30.

(** The pixel with its red and blue channels exchanged. *)
Definition swap_rb (px : Vec3b) : Vec3b := mkVec3b (vb2 px) (vb1 px) (vb0 px).

End LoadVideo.

(** ** Lemmas *)

Module LoadVideoFacts.
Import HSLConv HSLConvFacts Image ImageFacts HSLAdjustFacts LoadVideo.

(** The sector of [[0, 360)] fixes the [std::fmod(h / 60, 2)] of
    [hsl_to_rgb]. *)
Lemma fmod_sector (hh : Q) :
  0 <= hh < 360 ->
  (hh < 120 /\ fmod (hh / 60) 2 == hh / 60) \/
  (120 <= hh < 240 /\ fmod (hh / 60) 2 == hh / 60 - 2) \/
  (240 <= hh /\ fmod (hh / 60) 2 == hh / 60 - 4).
Proof.
  intros Hh. destruct (Qlt_le_dec hh 120); [left | right; destruct (Qlt_le_dec hh 240); [left | right]];
    (split; [lra |]).
  - etransitivity; [apply (fmod_seg _ _ 0); [lra | lia |] |]; change (inject_Z 0) with 0; qconst; lra.
  - etransitivity; [apply (fmod_seg _ _ 1); [lra | lia |] |]; change (inject_Z 1) with 1; qconst; lra.
  - etransitivity; [apply (fmod_seg _ _ 2); [lra | lia |] |]; change (inject_Z 2) with 2; qconst; lra.
Qed.

(** The six sectors of [[0, 360)]. *)
Lemma hue_sectors (hh : Q) :
  0 <= hh < 360 ->
  0 <= hh < 60 \/ 60 <= hh < 120 \/ 120 <= hh < 180 \/ 180 <= hh < 240 \/
  240 <= hh < 300 \/ 300 <= hh < 360.
Proof.
  intros Hh. destruct (Qlt_le_dec hh 60); [left; lra | right].
  destruct (Qlt_le_dec hh 120); [left; lra | right].
  destruct (Qlt_le_dec hh 180); [left; lra | right].
  destruct (Qlt_le_dec hh 240); [left; lra | right].
  destruct (Qlt_le_dec hh 300); [left | right]; lra.
Qed.

(** The sector formula of [hsl_to_rgb] as a function of the hue, the
    chroma [c] and the offset [m]. *)
Definition sector (hh c m : Q) : Q * Q * Q :=
  let x := c * (1 - Qabs (fmod (hh / 60) 2 - 1)) in
  let '(r, g, b) :=
    if ((0 <=? hh) && (hh <? 60))%bool then (c, x, 0)
    else if ((60 <=? hh) && (hh <? 120))%bool then (x, c, 0)
    else if ((120 <=? hh) && (hh <? 180))%bool then (0, c, x)
    else if ((180 <=? hh) && (hh <? 240))%bool then (0, x, c)
    else if ((240 <=? hh) && (hh <? 300))%bool then (x, 0, c)
    else if ((300 <=? hh) && (hh <? 360))%bool then (c, 0, x)
    else (0, 0, 0) in
  (r + m, g + m, b + m).

Lemma hsl_channels_sector (hh s0 l0 : Q) :
  LoadVideo.hsl_channels hh s0 l0 =
  sector hh ((1 - Qabs (2 * (l0 / 100) - 1)) * (s0 / 100))
            (l0 / 100 - (1 - Qabs (2 * (l0 / 100) - 1)) * (s0 / 100) / 2).
Proof. reflexivity. Qed.

(** On [[0, 360)] the sectors with chroma [c] and offset [p] are the
    three calls of [hue_to_rgb] with anchors [p] and [p + c]. *)
Lemma sector_hue_to_rgb (hh c p : Q) :
  0 <= hh < 360 ->
  Q3eq (sector hh c p)
       (hue_to_rgb p (p + c) (hh / 360 + 1 / 3), hue_to_rgb p (p + c) (hh / 360),
        hue_to_rgb p (p + c) (hh / 360 - 1 / 3)).
Proof.
  intros Hh. pose proof (fmod_sector hh Hh) as Hf. unfold sector, Q3eq, hue_to_rgb.
  destruct (hue_sectors hh Hh) as [Hs | [Hs | [Hs | [Hs | [Hs | Hs]]]]];
    (destruct Hf as [[Hb E] | [[Hb E] | [Hb E]]]; [| exfalso; lra ..]) || 
    (destruct Hf as [[Hb E] | [[Hb E] | [Hb E]]]; [exfalso; lra | | exfalso; lra]) ||
    (destruct Hf as [[Hb E] | [[Hb E] | [Hb E]]]; [exfalso; lra .. |]);
    qeval; rewrite ?E; qabs_eval; qconst; repeat split;
    (* the hue 240, where [hue_to_rgb] meets the argument 1 unwrapped *)
    first [lra | assert (E240 : hh == 240) by lra; rewrite E240; lra].
Qed.

(** With equal anchors [hue_to_rgb] is constant. *)
Lemma hue_to_rgb_flat (p q t : Q) : p == q -> hue_to_rgb p q t == p.
Proof. intros E. rewrite E. unfold hue_to_rgb. qcases; ring. Qed.

(** On the hues of [[0, 360)] the six-sector formula computes the same
    three doubles as the [hue_to_rgb] formula of [mylib/hsl.cpp]. *)
Lemma hsl_channels_agree (hh s0 l0 : Q) :
  0 <= hh < 360 -> 0 <= s0 <= 100 -> 0 <= l0 <= 100 ->
  Q3eq (LoadVideo.hsl_channels hh s0 l0) (HSLConv.hsl_channels hh s0 l0).
Proof.
  intros Hh Hs Hl. rewrite hsl_channels_sector.
  etransitivity; [apply sector_hue_to_rgb; exact Hh |].
  unfold HSLConv.hsl_channels. cbv zeta.
  assert (HS : 0 <= s0 / 100 <= 1) by (qconst; lra).
  assert (HL : 0 <= l0 / 100 <= 1) by (qconst; lra).
  generalize dependent (s0 / 100); intros S HS. generalize dependent (l0 / 100); intros L HL.
  destruct (Qeq_bool_spec S 0) as [E | Hne]; unfold Q3eq; cbv beta iota zeta.
  - rewrite E. split; [| split]; rewrite hue_to_rgb_flat by ring; qconst; ring.
  - destruct (Qabs_cases (2 * L - 1)) as [[? E] | [? E]]; rewrite E; clear E;
      (split; [| split]); apply hue_to_rgb_proper; try reflexivity; qcases_pruned;
      qconst; first [ring | assert (EL : L == 1 # 2) by lra; rewrite EL; ring].
Qed.

(** Both [rgb_to_hsl] compute the same hue, saturation and lightness on
    every 8-bit input. *)
Lemma rgb_to_hsl_agree (r g b : Q) :
  0 <= r <= 255 -> 0 <= g <= 255 -> 0 <= b <= 255 ->
  hsl_eq (LoadVideo.rgb_to_hsl r g b) (HSLConv.rgb_to_hsl r g b).
Proof.
  intros Hr Hg Hb. unfold LoadVideo.rgb_to_hsl, HSLConv.rgb_to_hsl, hsl_eq, min2.
  destruct (unit255 _ Hr) as [HR _], (unit255 _ Hg) as [HG _], (unit255 _ Hb) as [HB _].
  generalize dependent (r / 255); generalize dependent (g / 255);
    generalize dependent (b / 255). intros B HB G HG R HR.
  destruct (max3_spec R G B) as (M1 & M2 & M3 & M4).
  destruct (min3_spec R G B) as (m1 & m2 & m3 & m4).
  set (M := max3 R G B) in *. set (m := min3 R G B) in *.
  split; [| split]; qcases_pruned; cbn [h s l];
    rewrite ?fmod_small by (qconst; div_facts; lra);
    first [qconst; div_facts; lra | qconst; field; lra].
Qed.

(** [hsl_to_rgb] of loadvideo.cpp stores the red double in channel 0:
    doubles that are the channels of [px] over 255 give [px] with red and
    blue exchanged. *)
Lemma hsl_to_rgb_swapped (hh ss ll : Q) (px : Vec3b) :
  vec3b_ok px ->
  Q3eq (LoadVideo.hsl_channels hh ss ll)
       (inject_Z (vb2 px) / 255, inject_Z (vb1 px) / 255, inject_Z (vb0 px) / 255) ->
  LoadVideo.hsl_to_rgb hh ss ll = swap_rb px.
Proof.
  intros (Hb & Hg & Hr) Hc. unfold LoadVideo.hsl_to_rgb.
  destruct (LoadVideo.hsl_channels hh ss ll) as [[r g] b]. destruct Hc as (Er & Eg & Eb).
  unfold swap_rb. f_equal; apply cast_uchar_Z; auto;
    [rewrite Er | rewrite Eg | rewrite Eb]; field.
Qed.

(** The doubles of [hsl_to_rgb] of [mylib/hsl.cpp] on [hsl_of_pixel px],
    as a triple. *)
Lemma hsl_channels_of_pixel_Q3 (px : Vec3b) :
  vec3b_ok px ->
  Q3eq (HSLConv.hsl_channels (h (hsl_of_pixel px)) (s (hsl_of_pixel px)) (l (hsl_of_pixel px)))
       (inject_Z (vb2 px) / 255, inject_Z (vb1 px) / 255, inject_Z (vb0 px) / 255).
Proof.
  intros Hok. pose proof (hsl_channels_of_pixel px Hok) as Hc. cbv zeta in Hc.
  destruct (HSLConv.hsl_channels _ _ _) as [[r g] b]. destruct Hc as (Er & Eg & Eb).
  cbn. rewrite <- Er, <- Eg, <- Eb. repeat split; field.
Qed.

(** The null adjustment of [adjust_hsl_frame], on one pixel: the pixel
    with red and blue exchanged. *)
Lemma adjust_pixel_null (px : Vec3b) : vec3b_ok px -> adjust_pixel 0 0 0 px = swap_rb px.
Proof.
  intros Hok. pose proof Hok as (Hb & Hg & Hr). unfold adjust_pixel.
  destruct (rgb_to_hsl_agree (inject_Z (vb2 px)) (inject_Z (vb1 px)) (inject_Z (vb0 px)))
    as (Eh & Es & El); try (apply uchar_ok_Q; assumption).
  destruct (hsl_of_pixel_range px Hok) as (Rh & Rs & Rl). unfold hsl_of_pixel in *.
  apply hsl_to_rgb_swapped; [exact Hok |].
  rewrite hsl_channels_agree.
  - rewrite <- (hsl_channels_of_pixel_Q3 px Hok). unfold hsl_of_pixel.
    apply hsl_channels_proper.
    + rewrite Qplus_0_r, fmod_small by (rewrite Eh; exact Rh). exact Eh.
    + rewrite min2_max2_clamp, Es by lra. apply clamp_scale_0; exact Rs.
    + rewrite min2_max2_clamp, El by lra. apply clamp_scale_0; exact Rl.
  - rewrite Qplus_0_r, fmod_small by (rewrite Eh; exact Rh). rewrite Eh. exact Rh.
  - rewrite min2_max2_clamp by lra. apply clamp_range. lra.
  - rewrite min2_max2_clamp by lra. apply clamp_range. lra.
Qed.

(** With a negative hue no sector of [hsl_to_rgb] matches: the three
    channels are the same offset [m]. *)
Lemma hsl_to_rgb_negative_grey (hh ss ll : Q) :
  hh < 0 ->
  vb0 (LoadVideo.hsl_to_rgb hh ss ll) = vb1 (LoadVideo.hsl_to_rgb hh ss ll) /\
  vb1 (LoadVideo.hsl_to_rgb hh ss ll) = vb2 (LoadVideo.hsl_to_rgb hh ss ll).
Proof.
  intros Hh. unfold LoadVideo.hsl_to_rgb, LoadVideo.hsl_channels. qeval. cbn. split; reflexivity.
Qed.

End LoadVideoFacts.

(** ** Theorems on loadvideo.cpp *)

Module LoadVideoProps.
Import HSLConv Image ImageFacts CCMApplyFacts Pipeline PipelineFacts LoadVideo LoadVideoFacts.

(** C16: the two HSL conversions of the repository are equivalent where
    both are meant to apply: the chroma-based [rgb_to_hsl] of
    loadvideo.cpp returns the hue, saturation and lightness of the one of
    [mylib/hsl.cpp] on every 8-bit input, and its six-sector
    [hsl_to_rgb] computes the same three doubles as the [hue_to_rgb]
    formula on every hue of [[0, 360)] and saturation and lightness of
    [[0, 100]]. *)
Theorem loadvideo_conversion_equiv (r g b hh s0 l0 : Q) :
  0 <= r <= 255 -> 0 <= g <= 255 -> 0 <= b <= 255 ->
  0 <= hh < 360 -> 0 <= s0 <= 100 -> 0 <= l0 <= 100 ->
  hsl_eq (LoadVideo.rgb_to_hsl r g b) (HSLConv.rgb_to_hsl r g b) /\
  Q3eq (LoadVideo.hsl_channels hh s0 l0) (HSLConv.hsl_channels hh s0 l0).
Proof.
  intros Hr Hg Hb Hh Hs Hl.
  split; [apply rgb_to_hsl_agree | apply hsl_channels_agree]; assumption.
Qed.

Lemma loadvideo_conversion_equiv_witness :
  hsl_eq (LoadVideo.rgb_to_hsl 229 195 25) (HSLConv.rgb_to_hsl 229 195 25) /\
  Q3eq (LoadVideo.hsl_channels 250 80 30) (HSLConv.hsl_channels 250 80 30).
Proof. apply loadvideo_conversion_equiv; qdecide. Defined.



(** C40: a hue shift that leaves the hue negative (where [std::fmod]
    keeps the sign) turns the pixel grey: no sector of [hsl_to_rgb]
    matches and the three channels get the same value; the
    specification normalises the hue into [[0, 360)] instead. *)
Theorem loadvideo_negative_hue_grey (px : Vec3b) (hue sat light : Q) :
  -360 < h (LoadVideo.rgb_to_hsl (inject_Z (vb2 px)) (inject_Z (vb1 px)) (inject_Z (vb0 px))) + hue < 0 ->
  vb0 (adjust_pixel hue sat light px) = vb1 (adjust_pixel hue sat light px) /\
  vb1 (adjust_pixel hue sat light px) = vb2 (adjust_pixel hue sat light px).
Proof.
  intros Hh. unfold adjust_pixel. apply hsl_to_rgb_negative_grey.
  rewrite fmod_neg_small by exact Hh. apply Hh.
Qed.

Lemma loadvideo_negative_hue_grey_witness :
  adjust_pixel (-30) 0 0 (mkVec3b 0 43 255) = mkVec3b 0 0 0 /\
  vb0 (adjust_pixel (-30) 0 0 (mkVec3b 0 43 255)) = vb1 (adjust_pixel (-30) 0 0 (mkVec3b 0 43 255)) /\
  vb1 (adjust_pixel (-30) 0 0 (mkVec3b 0 43 255)) = vb2 (adjust_pixel (-30) 0 0 (mkVec3b 0 43 255)).
Proof.
  split; [vm_compute; reflexivity |].
  apply loadvideo_negative_hue_grey. qdecide.
Defined.

End LoadVideoProps.
