(* ===== verification/CCMFit.v ===== *)
(** * The least-squares fit of the colour-correction matrix ([LCC_CMC])

    Module [CCMFit] models the numeric part of [LCC_CMC] in
    [src/src/mylib/Linear_CCM.cpp] (lines 166-174):
    [O_T = OriginalColor.t(); temp = O_T * OriginalColor;
     ColorMatrix = temp.inv() * O_T * ReferenceColor;]
    with [OriginalColor] ([O], the 24 measured patch colours, one BGR row
    each) and [ReferenceColor] ([R], the 24 reference colours) as
    [CV_32FC1] matrices.  A [cv::Mat] of floats is an [FMat]: its row and
    column counts and its rows; [mat_t], [mat_mul] and [mat_inv] are
    [Mat::t], [operator*] and [Mat::inv] ([DECOMP_LU], which OpenCV
    computes for a 3x3 matrix by the adjugate over the determinant and
    answers with the zero matrix when the determinant is 0); a product
    whose inner dimensions differ, or an inverse of a non-3x3 matrix
    (which the code never asks for), is [None].

    Its theorems: when [det(O^T O) <> 0] the fit returns a 3x3 matrix
    that solves the normal equations [O^T O X = O^T R] (the least-squares
    solution), recovers [M] exactly when [R = O M], and then maps every
    measured patch to its reference through the application loop of
    [CCMApply]; when [det(O^T O) = 0] (patches that do not span three
    independent colours) it silently returns the zero matrix, where the
    specification raises [DegenerateFit], and the corrected image is
    black. *)

From S2P Require Import Prelude Image CCMApply.
From stdpp Require Import list.

Open Scope Q_scope.
Open Scope cc_scope.

Module CCMFit.
Import CCMApply.

(** A [cv::Mat] of type [CV_32FC1]. *)
Record FMat := mkFMat { frows : nat; fcols : nat; fdata : list (list Q) }.

(** [A.at<float>(i, j)], 0 outside the matrix. *)
Definition entry (A : FMat) (i j : nat) : Q := nth j (nth i (fdata A) []) 0.
Arguments entry A i%_nat j%_nat.

(** [sum_{k < n} f k], summed in index order. *)
Fixpoint sumq (n : nat) (f : nat -> Q) : Q :=
  match n with
  | O => 0
  | S n' => sumq n' f + f n'
  end.

(** A matrix built from its entries. *)
Definition build (r c : nat) (f : nat -> nat -> Q) : FMat :=
  mkFMat r c (map (fun i => map (fun j => f i j) (seq 0 c)) (seq 0 r)).
Arguments build r%_nat c%_nat f.

(** [A.t()]. *)
Definition mat_t (A : FMat) : FMat := build (fcols A) (frows A) (fun i j => entry A j i).

(** [A * B]: [CV_Assert(A.cols == B.rows)], then [sum_k A(i,k) B(k,j)]. *)
Definition mat_mul (A B : FMat) : option FMat :=
  if (fcols A =? frows B)%nat
  then Some (build (frows A) (fcols B) (fun i j => sumq (fcols A) (fun k => entry A i k * entry B k j)))
  else None.

(** OpenCV's [det3] of a 3x3 matrix given by its entries. *)
Definition det3 (A : FMat) : Q :=
  entry A 0 0 * (entry A 1 1 * entry A 2 2 - entry A 1 2 * entry A 2 1)
  - entry A 0 1 * (entry A 1 0 * entry A 2 2 - entry A 1 2 * entry A 2 0)
  + entry A 0 2 * (entry A 1 0 * entry A 2 1 - entry A 1 1 * entry A 2 0).

(** The entries [t[0..8]] of OpenCV's 3x3 inverse, before the product by
    [1 / det]: the adjugate. *)
Definition adj3 (A : FMat) (i j : nat) : Q :=
  match i, j with
  | 0%nat, 0%nat => entry A 1 1 * entry A 2 2 - entry A 1 2 * entry A 2 1
  | 0%nat, 1%nat => entry A 0 2 * entry A 2 1 - entry A 0 1 * entry A 2 2
  | 0%nat, 2%nat => entry A 0 1 * entry A 1 2 - entry A 0 2 * entry A 1 1
  | 1%nat, 0%nat => entry A 1 2 * entry A 2 0 - entry A 1 0 * entry A 2 2
  | 1%nat, 1%nat => entry A 0 0 * entry A 2 2 - entry A 0 2 * entry A 2 0
  | 1%nat, 2%nat => entry A 0 2 * entry A 1 0 - entry A 0 0 * entry A 1 2
  | 2%nat, 0%nat => entry A 1 0 * entry A 2 1 - entry A 1 1 * entry A 2 0
  | 2%nat, 1%nat => entry A 0 1 * entry A 2 0 - entry A 0 0 * entry A 2 1
  | 2%nat, 2%nat => entry A 0 0 * entry A 1 1 - entry A 0 1 * entry A 1 0
  | _, _ => 0
  end.

(** [A.inv()] of a 3x3 matrix: [d = det3(A)]; if [d != 0] the adjugate
    times [1 / d], otherwise [dst = Scalar(0)]. *)
Definition mat_inv (A : FMat) : option FMat :=
  if ((frows A =? 3) && (fcols A =? 3))%nat then
    let d := det3 A in
    if d =? 0 then Some (build 3 3 (fun _ _ => 0))
    else Some (build 3 3 (fun i j => adj3 A i j * (1 / d)))
  else None.

(** Lines 171-174 of [LCC_CMC]. *)
Definition LCC_fit (O R : FMat) : option FMat :=
  let O_T := mat_t O in
  temp ← mat_mul O_T O;
  inv ← mat_inv temp;
  a ← mat_mul inv O_T;
  mat_mul a R.

(** Well-formedness: [r] rows of [c] entries each. *)
Definition fmat_wf (A : FMat) : Prop :=
  length (fdata A) = frows A /\ Forall (fun row => length row = fcols A) (fdata A).

(** Two matrices of the same shape with equal entries (as rationals). *)
Definition fmat_eq (A B : FMat) : Prop :=
  frows A = frows B /\ fcols A = fcols B /\
  forall i j, (i < frows A)%nat -> (j < fcols A)%nat -> entry A i j == entry B i j.

(** [O^T O] and [O^T R] by their entries, summed over the rows of [O]. *)
Definition cross (O R : FMat) (i j : nat) : Q := sumq (frows O) (fun k => entry O k i * entry R k j).

Definition gram (O : FMat) : FMat := build 3 3 (cross O O).

(** The matrix as the [ColorMatrix] rows that [LCC] reads. *)
Definition to_cmat (A : FMat) : CMat := fdata A.

End CCMFit.

(** ** Lemmas on matrices *)

Module CCMFitFacts.
Import CCMApply CCMFit.

Lemma nth_map_seq {A} (f : nat -> A) (n i : nat) (d : A) :
  (i < n)%nat -> nth i (map f (seq 0 n)) d = f i.
Proof.
  intros H. rewrite (nth_indep _ d (f 0%nat)) by (rewrite length_map, length_seq; lia).
  rewrite map_nth, seq_nth by lia. reflexivity.
Qed.

Lemma entry_build (r c : nat) (f : nat -> nat -> Q) (i j : nat) :
  (i < r)%nat -> (j < c)%nat -> entry (build r c f) i j = f i j.
Proof.
  intros Hi Hj. unfold entry, build. cbn [fdata]. rewrite nth_map_seq by exact Hi.
  apply nth_map_seq. exact Hj.
Qed.

Lemma build_wf (r c : nat) (f : nat -> nat -> Q) : fmat_wf (build r c f).
Proof.
  split; cbn [fdata frows fcols build]; [rewrite length_map, length_seq; reflexivity |].
  apply List.Forall_forall. intros row Hrow. apply List.in_map_iff in Hrow as (i & <- & _).
  rewrite length_map, length_seq. reflexivity.
Qed.

Lemma build_ext (r c : nat) (f g : nat -> nat -> Q) :
  (forall i j, (i < r)%nat -> (j < c)%nat -> f i j = g i j) -> build r c f = build r c g.
Proof.
  intros H. unfold build. f_equal. apply map_ext_in. intros i Hi. apply map_ext_in.
  intros j Hj. apply List.in_seq in Hi, Hj. apply H; lia.
Qed.

(** ** Finite sums *)

Lemma sumq_ext_eq (n : nat) (f g : nat -> Q) :
  (forall k, (k < n)%nat -> f k = g k) -> sumq n f = sumq n g.
Proof.
  induction n as [| n IH]; intros H; simpl; [reflexivity |].
  rewrite IH by (intros; apply H; lia). rewrite (H n) by lia. reflexivity.
Qed.

Lemma sumq_ext (n : nat) (f g : nat -> Q) :
  (forall k, (k < n)%nat -> f k == g k) -> sumq n f == sumq n g.
Proof.
  induction n as [| n IH]; intros H; simpl; [reflexivity |].
  rewrite IH by (intros; apply H; lia). rewrite (H n) by lia. reflexivity.
Qed.

Lemma sumq_plus (n : nat) (f g : nat -> Q) :
  sumq n (fun k => f k + g k) == sumq n f + sumq n g.
Proof. induction n as [| n IH]; simpl; [ring |]. rewrite IH. ring. Qed.

Lemma sumq_mult_l (n : nat) (c : Q) (f : nat -> Q) :
  sumq n (fun k => c * f k) == c * sumq n f.
Proof. induction n as [| n IH]; simpl; [ring |]. rewrite IH. ring. Qed.

Lemma sumq_mult_r (n : nat) (c : Q) (f : nat -> Q) :
  sumq n (fun k => f k * c) == sumq n f * c.
Proof. induction n as [| n IH]; simpl; [ring |]. rewrite IH. ring. Qed.

Lemma sumq_zero (n : nat) : sumq n (fun _ => 0) == 0.
Proof. induction n as [| n IH]; simpl; [reflexivity |]. rewrite IH. ring. Qed.

Lemma sumq_swap (n m : nat) (f : nat -> nat -> Q) :
  sumq n (fun i => sumq m (fun j => f i j)) == sumq m (fun j => sumq n (fun i => f i j)).
Proof.
  induction n as [| n IH]; simpl.
  - symmetry. apply sumq_zero.
  - rewrite IH, <- sumq_plus. reflexivity.
Qed.

(** Reassociating a double sum: [sum_k (sum_l a_l b_kl) c_k =
    sum_l a_l (sum_k b_kl c_k)]. *)
Lemma sumq_assoc (n m : nat) (a : nat -> Q) (b : nat -> nat -> Q) (c : nat -> Q) :
  sumq n (fun k => sumq m (fun l => a l * b k l) * c k) ==
  sumq m (fun l => a l * sumq n (fun k => b k l * c k)).
Proof.
  rewrite (sumq_ext n _ (fun k => sumq m (fun l => a l * (b k l * c k)))).
  - rewrite sumq_swap. apply sumq_ext. intros l _. apply sumq_mult_l.
  - intros k _. rewrite <- sumq_mult_r. apply sumq_ext. intros; ring.
Qed.

Lemma sumq_reassoc (n p : nat) (a : nat -> Q) (b : nat -> nat -> Q) (c : nat -> Q) :
  sumq n (fun m => a m * sumq p (fun l => b m l * c l)) ==
  sumq p (fun l => sumq n (fun m => a m * b m l) * c l).
Proof.
  rewrite (sumq_ext n _ (fun m => sumq p (fun l => a m * b m l * c l))).
  - rewrite sumq_swap. apply sumq_ext. intros l _. apply sumq_mult_r.
  - intros m _. rewrite <- sumq_mult_l. apply sumq_ext. intros; ring.
Qed.

(** A sum against the Kronecker delta picks one term. *)
Lemma sumq_delta (n i : nat) (c : nat -> Q) :
  (i < n)%nat -> sumq n (fun l => (if (i =? l)%nat then 1 else 0) * c l) == c i.
Proof.
  induction n as [| n IH]; intros Hi; [lia |]. simpl.
  destruct (Nat.eq_dec i n) as [-> | Hne].
  - rewrite Nat.eqb_refl, (sumq_ext n _ (fun _ => 0)), sumq_zero; [ring |].
    intros k Hk. rewrite (proj2 (Nat.eqb_neq n k)) by lia. ring.
  - rewrite (proj2 (Nat.eqb_neq i n)) by exact Hne. rewrite IH by lia. ring.
Qed.

(** ** The operations of [cv::Mat] *)

Lemma mat_mul_spec (A B : FMat) :
  fcols A = frows B ->
  mat_mul A B =
  Some (build (frows A) (fcols B) (fun i j => sumq (fcols A) (fun k => entry A i k * entry B k j))).
Proof. intros H. unfold mat_mul. rewrite (proj2 (Nat.eqb_eq _ _) H). reflexivity. Qed.

Lemma entry_mat_t (A : FMat) (i j : nat) :
  (i < fcols A)%nat -> (j < frows A)%nat -> entry (mat_t A) i j = entry A j i.
Proof. intros Hi Hj. unfold mat_t. rewrite entry_build by assumption. reflexivity. Qed.

(** [O_T * OriginalColor] is the Gram matrix of the patches. *)
Lemma mat_t_gram (O : FMat) : fcols O = 3%nat -> mat_mul (mat_t O) O = Some (gram O).
Proof.
  intros H3. rewrite mat_mul_spec by reflexivity. unfold gram. f_equal.
  change (frows (mat_t O)) with (fcols O). change (fcols (mat_t O)) with (frows O). rewrite H3.
  apply build_ext. intros i j Hi Hj. unfold cross. apply sumq_ext_eq. intros k Hk.
  rewrite entry_mat_t by lia. reflexivity.
Qed.

Lemma mat_inv_spec (A : FMat) :
  frows A = 3%nat -> fcols A = 3%nat -> ~ det3 A == 0 ->
  mat_inv A = Some (build 3 3 (fun i j => adj3 A i j * (1 / det3 A))).
Proof. intros Hr Hc Hd. unfold mat_inv. rewrite Hr, Hc. cbn [Nat.eqb andb]. rewrite Qeq_bool_false by exact Hd. reflexivity. Qed.

Lemma mat_inv_singular (A : FMat) :
  frows A = 3%nat -> fcols A = 3%nat -> det3 A == 0 -> mat_inv A = Some (build 3 3 (fun _ _ => 0)).
Proof.
  intros Hr Hc Hd. unfold mat_inv. rewrite Hr, Hc. cbn [Nat.eqb andb].
  rewrite (proj2 (Qeq_bool_iff _ _) Hd). reflexivity.
Qed.

(** The adjugate over the determinant is a two-sided inverse. *)
Lemma adj3_inverse (A : FMat) (i l : nat) :
  ~ det3 A == 0 -> (i < 3)%nat -> (l < 3)%nat ->
  sumq 3 (fun m => entry A i m * (adj3 A m l * (1 / det3 A))) == (if (i =? l)%nat then 1 else 0) /\
  sumq 3 (fun m => adj3 A i m * (1 / det3 A) * entry A m l) == (if (i =? l)%nat then 1 else 0).
Proof.
  intros Hd Hi Hl. unfold det3 in *.
  destruct i as [| [| [| i]]]; try lia; destruct l as [| [| [| l]]]; try lia;
    cbn [sumq adj3 Nat.eqb]; split; field; exact Hd.
Qed.

Lemma mat_inv_gram (O : FMat) :
  exists Inv, mat_inv (gram O) = Some Inv /\ frows Inv = 3%nat /\ fcols Inv = 3%nat.
Proof. unfold mat_inv. cbn [gram build frows fcols Nat.eqb andb]. destruct (_ =? 0); eauto. Qed.

(** The inverse cancels [A] on the left and on the right. *)
Lemma inv_cancel_left (A : FMat) (y : nat -> Q) (i : nat) :
  ~ det3 A == 0 -> (i < 3)%nat ->
  sumq 3 (fun l => entry (build 3 3 (fun i j => adj3 A i j * (1 / det3 A))) i l *
                   sumq 3 (fun p => entry A l p * y p)) == y i.
Proof.
  intros Hd Hi. rewrite sumq_reassoc, <- (sumq_delta 3 i y Hi). apply sumq_ext. intros p Hp.
  apply Qmult_comp; [| reflexivity]. rewrite <- (proj2 (adj3_inverse A i p Hd Hi Hp)).
  apply sumq_ext. intros l Hl. rewrite entry_build by lia. reflexivity.
Qed.

Lemma inv_cancel_right (A : FMat) (x : nat -> Q) (i : nat) :
  ~ det3 A == 0 -> (i < 3)%nat ->
  sumq 3 (fun m => entry A i m *
                   sumq 3 (fun l => entry (build 3 3 (fun i j => adj3 A i j * (1 / det3 A))) m l * x l))
  == x i.
Proof.
  intros Hd Hi. rewrite sumq_reassoc, <- (sumq_delta 3 i x Hi). apply sumq_ext. intros l Hl.
  apply Qmult_comp; [| reflexivity]. rewrite <- (proj1 (adj3_inverse A i l Hd Hi Hl)).
  apply sumq_ext. intros m Hm. rewrite entry_build by lia. reflexivity.
Qed.

(** [O^T (O M)] is [(O^T O) M]. *)
Lemma cross_gram (O R M : FMat) (l j : nat) :
  (l < 3)%nat ->
  (forall k, (k < frows O)%nat -> entry R k j == sumq 3 (fun p => entry O k p * entry M p j)) ->
  cross O R l j == sumq 3 (fun p => entry (gram O) l p * entry M p j).
Proof.
  intros Hl HR. unfold cross.
  rewrite (sumq_ext _ _ (fun k => entry O k l * sumq 3 (fun p => entry O k p * entry M p j)))
    by (intros k Hk; rewrite HR by exact Hk; reflexivity).
  rewrite sumq_reassoc. apply sumq_ext. intros p Hp. unfold gram.
  rewrite entry_build by assumption. reflexivity.
Qed.

(** The fit computes [Inv (O^T R)] with [Inv] the inverse returned for
    [O^T O]. *)
Lemma LCC_fit_spec (O R : FMat) :
  fcols O = 3%nat -> frows R = frows O ->
  exists Inv F, mat_inv (gram O) = Some Inv /\ LCC_fit O R = Some F /\
    frows F = 3%nat /\ fcols F = fcols R /\ fmat_wf F /\
    forall i j, (i < 3)%nat -> (j < fcols R)%nat ->
      entry F i j == sumq 3 (fun l => entry Inv i l * cross O R l j).
Proof.
  intros H3 HR. destruct (mat_inv_gram O) as (Inv & EI & HIr & HIc).
  unfold LCC_fit. rewrite (mat_t_gram O H3). cbn [mbind option_bind]. rewrite EI.
  cbn [mbind option_bind]. rewrite mat_mul_spec by (rewrite HIc; symmetry; exact H3).
  cbn [mbind option_bind]. rewrite mat_mul_spec by (cbn [build fcols]; symmetry; exact HR).
  eexists Inv, _. split; [reflexivity |]. split; [reflexivity |].
  cbn [build frows fcols]. rewrite HIr. split; [reflexivity |]. split; [reflexivity |].
  split; [apply build_wf |]. intros i j Hi Hj.
  rewrite entry_build by assumption. unfold cross. rewrite <- sumq_assoc.
  apply sumq_ext. intros k Hk. rewrite entry_build by first [exact Hi | exact Hk]. rewrite HIc.
  apply Qmult_comp; [| reflexivity]. apply sumq_ext. intros l Hl.
  rewrite entry_mat_t by lia. reflexivity.
Qed.

(** With [O^T O] invertible the fit solves the normal equations. *)
Lemma LCC_fit_solves (O R : FMat) :
  fcols O = 3%nat -> frows R = frows O -> ~ det3 (gram O) == 0 ->
  exists F, LCC_fit O R = Some F /\ frows F = 3%nat /\ fcols F = fcols R /\
    forall i j, (i < 3)%nat -> (j < fcols R)%nat ->
      sumq 3 (fun m => entry (gram O) i m * entry F m j) == cross O R i j.
Proof.
  intros H3 HR Hd. destruct (LCC_fit_spec O R H3 HR) as (Inv & F & EI & EF & Fr & Fc & _ & HF).
  rewrite mat_inv_spec in EI by (reflexivity || exact Hd). injection EI as <-.
  exists F. refine (conj EF (conj Fr (conj Fc _))). intros i j Hi Hj.
  rewrite <- (inv_cancel_right (gram O) (fun l => cross O R l j) i Hd Hi).
  apply sumq_ext. intros m Hm. rewrite HF by assumption. reflexivity.
Qed.

End CCMFitFacts.

(** ** Theorems on the fit *)

Module CCMFitProps.
Import Image ImageFacts CCMApply CCMApplyFacts CCMFit CCMFitFacts.

(** Four patches, one per primary and a grey, and a matrix [M]. *)
Definition O4 : FMat :=
  mkFMat 4 3 [[120; 10; 5]; [8; 140; 12]; [6; 9; 160]; [90; 95; 100]].
Definition M_ex : FMat := mkFMat 3 3 [[1; 1 # 10; 0]; [0; 9 # 10; 1 # 5]; [1 # 20; 0; 1]].
Definition R_exact : FMat := build 4 3 (fun k j => sumq 3 (fun l => entry O4 k l * entry M_ex l j)).
Definition R4 : FMat := mkFMat 4 3 [[200; 20; 15]; [10; 180; 30]; [5; 25; 220]; [150; 150; 150]].
(** 24 patches of the same grey. *)
Definition O_grey : FMat := build 24 3 (fun _ _ => 100).
Definition R_grey : FMat := build 24 3 (fun k j => inject_Z (Z.of_nat (10 * k + j))).

(** C3: whenever [O^T O] is invertible, [LCC_CMC] returns a 3x3 matrix
    [X] that solves the normal equations [O^T O X = O^T R]: the
    least-squares solution of [O X ~ R], as the specification's
    [fit] requires. *)
Theorem LCC_fit_normal_equations (O R : FMat) :
  fcols O = 3%nat -> frows R = frows O -> ~ det3 (gram O) == 0 ->
  exists F, LCC_fit O R = Some F /\ frows F = 3%nat /\ fcols F = fcols R /\
    forall i j, (i < 3)%nat -> (j < fcols R)%nat ->
      sumq 3 (fun m => entry (gram O) i m * entry F m j) == cross O R i j.
Proof. exact (LCC_fit_solves O R). Qed.

Lemma LCC_fit_normal_equations_witness :
  exists F, LCC_fit O4 R4 = Some F /\ frows F = 3%nat /\ fcols F = fcols R4 /\
    forall i j, (i < 3)%nat -> (j < fcols R4)%nat ->
      sumq 3 (fun m => entry (gram O4) i m * entry F m j) == cross O4 R4 i j.
Proof. apply LCC_fit_normal_equations; [reflexivity | reflexivity | qdecide]. Defined.

(** C6: on exact data [R = O M] with [O^T O] invertible, the fit
    recovers [M] entry for entry. *)
Theorem LCC_fit_exact (O R M : FMat) :
  fcols O = 3%nat -> frows R = frows O -> frows M = 3%nat -> fcols M = fcols R ->
  ~ det3 (gram O) == 0 ->
  (forall k j, (k < frows O)%nat -> (j < fcols R)%nat ->
     entry R k j == sumq 3 (fun l => entry O k l * entry M l j)) ->
  exists F, LCC_fit O R = Some F /\ fmat_eq F M.
Proof.
  intros H3 HR HMr HMc Hd HOM.
  destruct (LCC_fit_spec O R H3 HR) as (Inv & F & EI & EF & Fr & Fc & _ & HF).
  rewrite mat_inv_spec in EI by (reflexivity || exact Hd). injection EI as <-.
  exists F. split; [exact EF |]. split; [congruence |]. split; [congruence |].
  intros i j Hi Hj. rewrite Fr in Hi. rewrite Fc in Hj. rewrite HF by assumption.
  rewrite <- (inv_cancel_left (gram O) (fun p => entry M p j) i Hd Hi).
  apply sumq_ext. intros l Hl. rewrite cross_gram by auto. reflexivity.
Qed.

Lemma LCC_fit_exact_witness : exists F, LCC_fit O4 R_exact = Some F /\ fmat_eq F M_ex.
Proof.
  apply LCC_fit_exact; [reflexivity | reflexivity | reflexivity | reflexivity | qdecide |].
  intros k j Hk Hj. vm_compute in Hk, Hj.
  destruct k as [| [| [| [| k]]]]; try lia; destruct j as [| [| [| j]]]; try lia;
    vm_compute; reflexivity.
Defined.

(** C23: the degenerate fit.  When [O^T O] is singular (the patches do
    not span three independent colours, e.g. 24 patches of one grey)
    [LCC_CMC] raises no error: OpenCV's [inv()] returns the zero matrix,
    the fitted CCM is zero, and applying it with [LCC] turns every pixel
    of every image black.  The specification fails with [DegenerateFit]
    instead. *)
Theorem LCC_fit_degenerate (O R : FMat) (img : Mat) :
  fcols O = 3%nat -> frows R = frows O -> fcols R = 3%nat -> det3 (gram O) == 0 -> mat_wf img ->
  exists F, LCC_fit O R = Some F /\
    (forall i j, (i < 3)%nat -> (j < 3)%nat -> entry F i j == 0) /\
    LCC_apply (to_cmat F) img = Some (map_pixels (fun _ => mkVec3b 0 0 0) img).
Proof.
  intros H3 HR HRc Hd Hwf.
  destruct (LCC_fit_spec O R H3 HR) as (Inv & F & EI & EF & Fr & Fc & _ & HF).
  rewrite mat_inv_singular in EI by (reflexivity || exact Hd). injection EI as <-.
  assert (H0 : forall i j, (i < 3)%nat -> (j < 3)%nat -> entry F i j == 0).
  { intros i j Hi Hj. rewrite HF by lia.
    rewrite (sumq_ext 3 _ (fun _ => 0)) by (intros l Hl; rewrite entry_build by lia; ring).
    apply sumq_zero. }
  exists F. refine (conj EF (conj H0 _)). rewrite LCC_apply_map by exact Hwf.
  apply (f_equal Some). apply map_pixels_ext; [| exact Hwf]. intros px _.
  unfold ccm_pixel, ccm_channel. change (cm (to_cmat F)) with (entry F).
  rewrite !H0 by lia. rewrite !Qmult_0_r, !Qplus_0_r. reflexivity.
Qed.

Lemma LCC_fit_degenerate_witness :
  exists F, LCC_fit O_grey R_grey = Some F /\
    (forall i j, (i < 3)%nat -> (j < 3)%nat -> entry F i j == 0) /\
    LCC_apply (to_cmat F) (mkMat 1 1 [[mkVec3b 10 200 30]]) =
    Some (map_pixels (fun _ => mkVec3b 0 0 0) (mkMat 1 1 [[mkVec3b 10 200 30]])).
Proof.
  apply LCC_fit_degenerate; [reflexivity | reflexivity | reflexivity | vm_compute; reflexivity |].
  apply mat_wfb_spec. vm_compute. reflexivity.
Defined.

(** C17: fit and application agree: on exact data with [O^T O]
    invertible, the matrix written by [LCC_CMC] and read back by [LCC]
    maps the measured colour of every patch, through the per-channel
    product of the application loop (before [saturate_cast]), to its
    reference colour. *)
Theorem LCC_fit_maps_patches (O R M : FMat) :
  fcols O = 3%nat -> frows R = frows O -> fcols R = 3%nat -> frows M = 3%nat -> fcols M = 3%nat ->
  ~ det3 (gram O) == 0 ->
  (forall k j, (k < frows O)%nat -> (j < 3)%nat ->
     entry R k j == sumq 3 (fun l => entry O k l * entry M l j)) ->
  exists F, LCC_fit O R = Some F /\
    forall k c, (k < frows O)%nat -> (c < 3)%nat ->
      ccm_channel (to_cmat F) c (entry O k 0) (entry O k 1) (entry O k 2) == entry R k c.
Proof.
  intros H3 HR HRc HMr HMc Hd HOM.
  destruct (LCC_fit_spec O R H3 HR) as (Inv & F & EI & EF & Fr & Fc & _ & HF).
  rewrite mat_inv_spec in EI by (reflexivity || exact Hd). injection EI as <-.
  exists F. split; [exact EF |]. intros k c Hk Hc.
  assert (HFM : forall i, (i < 3)%nat -> entry F i c == entry M i c).
  { intros i Hi. rewrite HF by lia.
    rewrite <- (inv_cancel_left (gram O) (fun p => entry M p c) i Hd Hi).
    apply sumq_ext. intros l Hl. rewrite cross_gram by (auto with arith || (intros; apply HOM; lia)).
    reflexivity. }
  rewrite HOM by assumption. unfold ccm_channel. change (cm (to_cmat F)) with (entry F).
  rewrite !HFM by lia. cbn [sumq]. ring.
Qed.

Lemma LCC_fit_maps_patches_witness :
  exists F, LCC_fit O4 R_exact = Some F /\
    forall k c, (k < frows O4)%nat -> (c < 3)%nat ->
      ccm_channel (to_cmat F) c (entry O4 k 0) (entry O4 k 1) (entry O4 k 2) == entry R_exact k c.
Proof.
  apply (LCC_fit_maps_patches O4 R_exact M_ex);
    [reflexivity | reflexivity | reflexivity | reflexivity | reflexivity | qdecide |].
  intros k j Hk Hj. vm_compute in Hk.
  destruct k as [| [| [| [| k]]]]; try lia; destruct j as [| [| [| j]]]; try lia;
    vm_compute; reflexivity.
Defined.

End CCMFitProps.
