(* ===== verification/ROI.v ===== *)
(** * The interactive sampling of the colour patches ([ROISelection])

    Module [ROI] models [ROImouseEvent] and [ROISelection] of
    [src/src/mylib/Linear_CCM.cpp] (lines 12-105), which fill
    [OriginalColor], the 24x3 [CV_32FC1] matrix of measured patch colours
    that [LCC_CMC] fits against the reference colours.

    State: the three corners [corners[0..2]] shared with the mouse
    callback through a pointer ([Corners]), [downFlag], [upFlag],
    [ROICount], whether the callback has been registered yet, and the 72
    floats of [OriginalColor] as the buffer they are in memory (row [k]
    at offsets [3k .. 3k+2]), because the loop writes through
    [float *OPtr = OriginalColor.ptr<float>(ROICount)].

    One iteration of [while (cv::waitKey(1) != 27 && ROICount < 24)] is
    a [Tick]: the mouse events that [waitKey] dispatches to the callback
    (none before the first [setMouseCallback]) and the key it returns.
    [roi_tick] runs one iteration, [roi_run] a sequence of them; the
    outcome is [Exited] (ESC or 24 patches), [Running] (the ticks ran out
    while the loop still runs) or [Failed] with the undefined or
    non-finite behaviour the code reaches: a write out of [OriginalColor]
    ([OPtr[3]] of the last row), a division by a zero [ROISize] (the
    mean of an empty crop is not finite), or a crop outside the image
    (an OpenCV assertion).  Drawing the rectangle and the windows is not
    modelled. *)

From S2P Require Import Prelude Image.
From stdpp Require Import list.

Open Scope Z_scope.

Module ROI.
Import Image.

(** The mouse events the callback tests; the others are [EVENT_OTHER]. *)
Inductive MouseEvent := EVENT_MOUSEMOVE | EVENT_LBUTTONDOWN | EVENT_LBUTTONUP | EVENT_OTHER.

(** [cv::EVENT_FLAG_LBUTTON]. *)
Definition EVENT_FLAG_LBUTTON : Z := 1.

(** [cv::Point]. *)
Record Point := mkPoint { ptx : Z; pty : Z }.

(** [corners[i].x = corners[i].y = -1]. *)
Definition unset : Point := mkPoint (-1) (-1).

Definition is_unset (p : Point) : bool := (ptx p =? -1) && (pty p =? -1).

(** [cv::Point *corners = new cv::Point[3]]. *)
Record Corners := mkCorners { c0 : Point; c1 : Point; c2 : Point }.

Definition corners_reset : Corners := mkCorners unset unset unset.

(** [void ROImouseEvent(int event, int x, int y, int flags, void *params)]. *)
Definition ROImouseEvent (event : MouseEvent) (x y flags : Z) (c : Corners) : Corners :=
  let c := if (match event with EVENT_LBUTTONDOWN => true | _ => false end && is_unset (c0 c))%bool
           then mkCorners (mkPoint x y) (c1 c) (c2 c) else c in
  let c := if flags =? EVENT_FLAG_LBUTTON then mkCorners (c0 c) (mkPoint x y) (c2 c) else c in
  if (match event with EVENT_LBUTTONUP => true | _ => false end && is_unset (c2 c))%bool
  then mkCorners (c0 c) (c1 c) (mkPoint x y) else c.

(** A mouse event with its position and flags. *)
Record Mouse := mkMouse { mevent : MouseEvent; mx : Z; my : Z; mflags : Z }.

(** One call of [cv::waitKey(1)]: the events it dispatches and the key. *)
Record Tick := mkTick { tevents : list Mouse; tkey : Z }.

(** The state of [ROISelection]. *)
Record RoiState := mkRoiState {
  corners : Corners;
  downFlag : bool;
  upFlag : bool;
  ROICount : Z;
  registered : bool;
  OriginalColor : list Q
}.

(** What the code runs into instead of finishing an iteration. *)
Inductive RoiError :=
  | OutOfBufferWrite (index : Z)   (* [OPtr[i]] outside the 72 floats *)
  | NonFiniteMean                  (* [cv::sum(crop) / 0] *)
  | CropOutsideImage.              (* [cv::Mat crop(img, ROI)] asserts *)

(** The outcome of the loop. *)
Inductive RoiOutcome :=
  | Exited (st : RoiState)
  | Running (st : RoiState)
  | Failed (e : RoiError).

(** [corners[0..2] = -1; cv::Mat OriginalColor(24, 3, CV_32FC1, 0)]. *)
Definition roi_init : RoiState :=
  mkRoiState corners_reset false false 0 false (repeat 0%Q 72).

(** The callback applied to the events [waitKey] dispatches. *)
Definition dispatch (evs : list Mouse) (c : Corners) : Corners :=
  fold_left (fun c m => ROImouseEvent (mevent m) (mx m) (my m) (mflags m) c) evs c.

(** [cv::sum(crop)] over the rectangle [x, x+w) x [y, y+h) of [img]:
    the three channel sums, [None] when a pixel is outside the image. *)
Fixpoint sum_row (img : Mat) (y x : nat) (n : nat) : option (Q * Q * Q) :=
  match n with
  | O => Some (0%Q, 0%Q, 0%Q)
  | S n' =>
      px ← at_ img y x;
      '(b, g, r) ← sum_row img y (S x) n';
      Some ((inject_Z (vb0 px) + b)%Q, (inject_Z (vb1 px) + g)%Q, (inject_Z (vb2 px) + r)%Q)
  end.

Fixpoint sum_rect (img : Mat) (y x : nat) (w h : nat) : option (Q * Q * Q) :=
  match h with
  | O => Some (0%Q, 0%Q, 0%Q)
  | S h' =>
      '(b0, g0, r0) ← sum_row img y x w;
      '(b1, g1, r1) ← sum_rect img (S y) x w h';
      Some ((b0 + b1)%Q, (g0 + g1)%Q, (r0 + r1)%Q)
  end.

(** [OPtr[i] = v] with [OPtr = OriginalColor.ptr<float>(ROICount)]. *)
Definition write_float (buf : list Q) (i : Z) (v : Q) : RoiError + list Q :=
  if (0 <=? i) && (i <? Z.of_nat (length buf)) then inr (<[Z.to_nat i := v]> buf)
  else inl (OutOfBufferWrite i).

(** The body of the [if (downFlag && upFlag)] branch when the ROI is
    accepted: the crop, its mean, the four writes through [OPtr] and
    [ROICount++]. *)
Definition record_roi (img : Mat) (st : RoiState) (x y w h : Z) : RoiError + RoiState :=
  if negb ((0 <=? x) && (0 <=? w) && (x + w <=? Z.of_nat (cols img)) &&
           (0 <=? y) && (0 <=? h) && (y + h <=? Z.of_nat (rows img)))%bool
  then inl CropOutsideImage
  else
    let ROISize := w * h in
    match sum_rect img (Z.to_nat y) (Z.to_nat x) (Z.to_nat w) (Z.to_nat h) with
    | None => inl CropOutsideImage
    | Some (sb, sg, sr) =>
        if ROISize =? 0 then inl NonFiniteMean
        else
          let CropSum0 := (sb / inject_Z ROISize)%Q in
          let CropSum1 := (sg / inject_Z ROISize)%Q in
          let CropSum2 := (sr / inject_Z ROISize)%Q in
          let CropSum3 := 0%Q in
          let base := 3 * ROICount st in
          match write_float (OriginalColor st) base CropSum0 with
          | inl e => inl e
          | inr b1 =>
          match write_float b1 (base + 1) CropSum1 with
          | inl e => inl e
          | inr b2 =>
          match write_float b2 (base + 2) CropSum2 with
          | inl e => inl e
          | inr b3 =>
          match write_float b3 (base + 3) CropSum3 with
          | inl e => inl e
          | inr b4 =>
              inr (mkRoiState (corners st) (downFlag st) (upFlag st) (ROICount st + 1)
                              (registered st) b4)
          end end end end
  end.

(** The loop body after [setMouseCallback]. *)
Definition roi_body (img : Mat) (st : RoiState) : RoiError + RoiState :=
  let c := corners st in
  let down := (downFlag st || negb ((ptx (c0 c) =? -1) || (pty (c0 c) =? -1)))%bool in
  let up := (upFlag st || negb ((ptx (c2 c) =? -1) || (pty (c2 c) =? -1)))%bool in
  let st := mkRoiState c down up (ROICount st) true (OriginalColor st) in
  if (down && up)%bool then
    let w := Z.abs (ptx (c0 c) - ptx (c2 c)) in
    let h := Z.abs (pty (c0 c) - pty (c2 c)) in
    let res := if (w <? 5) && (h <? 5) then inr st
               else record_roi img st (if ptx (c0 c) <? ptx (c2 c) then ptx (c0 c) else ptx (c2 c))
                                      (if pty (c0 c) <? pty (c2 c) then pty (c0 c) else pty (c2 c)) w h in
    match res with
    | inl e => inl e
    | inr st' => inr (mkRoiState corners_reset false false (ROICount st') true (OriginalColor st'))
    end
  else inr st.

(** One iteration of [while (cv::waitKey(1) != 27 && ROICount < 24)]. *)
Definition roi_tick (img : Mat) (st : RoiState) (t : Tick) : RoiOutcome :=
  let c := if registered st then dispatch (tevents t) (corners st) else corners st in
  let st := mkRoiState c (downFlag st) (upFlag st) (ROICount st) (registered st) (OriginalColor st) in
  if tkey t =? 27 then Exited st
  else if negb (ROICount st <? 24) then Exited st
  else match roi_body img st with
       | inl e => Failed e
       | inr st' => Running st'
       end.

(** The loop over a sequence of [waitKey] calls. *)
Fixpoint roi_run (img : Mat) (st : RoiState) (ticks : list Tick) : RoiOutcome :=
  match ticks with
  | [] => Running st
  | t :: rest =>
      match roi_tick img st t with
      | Running st' => roi_run img st' rest
      | o => o
      end
  end.

(** [ROISelection(img, OriginalColor)] on the user's input. *)
Definition ROISelection (img : Mat) (ticks : list Tick) : RoiOutcome := roi_run img roi_init ticks.

(** The states the loop reaches from its initial state, iteration by
    iteration. *)
Inductive roi_reach (img : Mat) : RoiState -> Prop :=
  | reach_init : roi_reach img roi_init
  | reach_step st t st' : roi_reach img st -> roi_tick img st t = Running st' -> roi_reach img st'.

End ROI.

(** ** Lemmas *)

Module ROIFacts.
Import Image ROI.

Lemma write_float_inr (buf b : list Q) (i : Z) (v : Q) :
  write_float buf i v = inr b ->
  0 <= i < Z.of_nat (length buf) /\ b = <[Z.to_nat i := v]> buf.
Proof.
  unfold write_float. destruct (Z.leb_spec 0 i) as [H0 | H0], (Z.ltb_spec i (Z.of_nat (length buf))) as [H1 | H1];
    cbn [andb]; intros E; inversion E; subst; split; auto; lia.
Qed.

Lemma write_float_length (buf b : list Q) (i : Z) (v : Q) :
  write_float buf i v = inr b -> length b = length buf.
Proof. intros H. apply write_float_inr in H as [_ ->]. apply length_insert. Qed.

(** An accepted ROI that is recorded advances [ROICount] by one and
    keeps the buffer's length; its last write ([OPtr[3]]) was in the
    buffer. *)
Lemma record_roi_inr (img : Mat) (st st' : RoiState) (x y w h : Z) :
  record_roi img st x y w h = inr st' ->
  ROICount st' = ROICount st + 1 /\ length (OriginalColor st') = length (OriginalColor st) /\
  3 * ROICount st + 3 < Z.of_nat (length (OriginalColor st)).
Proof.
  unfold record_roi. destruct (negb _); [discriminate |].
  destruct (sum_rect _ _ _ _ _) as [[[sb sg] sr] |]; [| discriminate].
  destruct (_ =? 0); [discriminate |].
  destruct (write_float _ _ _) as [| b1] eqn:E1; [discriminate |].
  destruct (write_float b1 _ _) as [| b2] eqn:E2; [discriminate |].
  destruct (write_float b2 _ _) as [| b3] eqn:E3; [discriminate |].
  destruct (write_float b3 _ _) as [| b4] eqn:E4; [discriminate |].
  intros Hst. injection Hst as <-. cbn [ROICount OriginalColor].
  pose proof (write_float_length _ _ _ _ E1) as L1. pose proof (write_float_length _ _ _ _ E2) as L2.
  pose proof (write_float_length _ _ _ _ E3) as L3. pose proof (write_float_length _ _ _ _ E4) as L4.
  apply write_float_inr in E4 as [Hi _].
  split; [lia |]. split; [rewrite L4, L3, L2, L1; reflexivity |].
  rewrite <- L1, <- L2, <- L3. lia.
Qed.

Lemma roi_body_inr (img : Mat) (st st' : RoiState) :
  roi_body img st = inr st' ->
  length (OriginalColor st') = length (OriginalColor st) /\
  (ROICount st' = ROICount st \/
   (ROICount st' = ROICount st + 1 /\ 3 * ROICount st + 3 < Z.of_nat (length (OriginalColor st)))).
Proof.
  unfold roi_body. cbv zeta. destruct (_ && _)%bool eqn:Hdu.
  - destruct ((_ <? 5) && (_ <? 5))%bool.
    + intros H. injection H as <-. cbn. auto.
    + destruct (record_roi _ _ _ _ _ _) as [| s1] eqn:Er; [discriminate |].
      intros H. injection H as <-. cbn.
      apply record_roi_inr in Er as (Ec & El & Eb). cbn in Ec, El, Eb. auto.
  - intros H. injection H as <-. cbn. auto.
Qed.

(** What every iteration preserves: at most 23 patches recorded, the
    buffer of 72 floats. *)
Definition roi_inv (st : RoiState) : Prop :=
  0 <= ROICount st <= 23 /\ length (OriginalColor st) = 72%nat.

Lemma roi_tick_inv (img : Mat) (st st' : RoiState) (t : Tick) :
  roi_inv st -> roi_tick img st t = Running st' -> roi_inv st'.
Proof.
  intros [Hc Hl]. unfold roi_tick. cbv zeta.
  destruct (tkey t =? 27); [discriminate |]. destruct (negb _); [discriminate |].
  destruct (roi_body _ _) as [| s1] eqn:Eb; [discriminate |]. intros H. injection H as <-.
  apply roi_body_inr in Eb as (El & [Ec | (Ec & Hb)]); cbn in *; split; try lia.
Qed.

Lemma roi_reach_inv (img : Mat) (st : RoiState) : roi_reach img st -> roi_inv st.
Proof.
  induction 1 as [| st t st' _ IH Et].
  - split; [cbn; lia | reflexivity].
  - exact (roi_tick_inv img st st' t IH Et).
Qed.

Lemma roi_run_reach (img : Mat) (ticks : list Tick) (st : RoiState) :
  roi_reach img st ->
  match roi_run img st ticks with
  | Running st' => roi_reach img st'
  | Exited st' => exists s, roi_reach img s /\ ROICount st' = ROICount s /\
                            OriginalColor st' = OriginalColor s
  | Failed _ => True
  end.
Proof.
  revert st. induction ticks as [| t rest IH]; intros st Hst; cbn [roi_run]; [exact Hst |].
  destruct (roi_tick img st t) as [s1 | s1 | e] eqn:Et.
  - exists st. split; [exact Hst |]. unfold roi_tick in Et. cbv zeta in Et.
    destruct (tkey t =? 27); [injection Et as <-; auto |].
    destruct (negb _); [injection Et as <-; auto |]. destruct (roi_body _ _); discriminate.
  - apply IH. exact (reach_step img st t s1 Hst Et).
  - exact I.
Qed.

(** Inside a well-formed image the crop sums exist. *)
Lemma sum_row_some (img : Mat) (y x n : nat) :
  mat_wf img -> (y < rows img)%nat -> (x + n <= cols img)%nat ->
  exists s, sum_row img y x n = Some s.
Proof.
  intros [Hlen Hrows] Hy. revert x. induction n as [| n IH]; intros x Hx; [eexists; reflexivity |].
  destruct (lookup_lt_is_Some_2 (data img) y ltac:(lia)) as [row Hrow].
  pose proof (proj1 (Forall_lookup _ _) Hrows y row Hrow) as [Hc _].
  destruct (lookup_lt_is_Some_2 row x ltac:(lia)) as [px Hpx].
  destruct (IH (S x) ltac:(lia)) as [[[b g] r] E].
  cbn [sum_row]. unfold at_. rewrite Hrow. cbn [mbind option_bind]. rewrite Hpx.
  cbn [mbind option_bind]. rewrite E. eexists. reflexivity.
Qed.

Lemma sum_rect_some (img : Mat) (y x w h : nat) :
  mat_wf img -> (y + h <= rows img)%nat -> (x + w <= cols img)%nat ->
  exists s, sum_rect img y x w h = Some s.
Proof.
  intros Hwf. revert y. induction h as [| h IH]; intros y Hy Hx; [eexists; reflexivity |].
  destruct (sum_row_some img y x w Hwf ltac:(lia) Hx) as [[[b0 g0] r0] E0].
  destruct (IH (S y) ltac:(lia) Hx) as [[[b1 g1] r1] E1].
  cbn [sum_rect]. rewrite E0. cbn [mbind option_bind]. rewrite E1. eexists. reflexivity.
Qed.

Lemma write_float_ok (buf : list Q) (i : Z) (v : Q) :
  0 <= i < Z.of_nat (length buf) -> write_float buf i v = inr (<[Z.to_nat i := v]> buf).
Proof.
  intros [H0 H1]. unfold write_float. rewrite (proj2 (Z.leb_le _ _) H0), (proj2 (Z.ltb_lt _ _) H1).
  reflexivity.
Qed.

Lemma write_float_out (buf : list Q) (i : Z) (v : Q) :
  Z.of_nat (length buf) <= i -> write_float buf i v = inl (OutOfBufferWrite i).
Proof.
  intros H. unfold write_float. rewrite (proj2 (Z.ltb_ge _ _) H), andb_false_r. reflexivity.
Qed.

(** An accepted crop inside the image with a non-zero area passes the
    assertion and the division. *)
Lemma record_roi_crop (img : Mat) (st : RoiState) (x y w h : Z) :
  mat_wf img -> 0 <= x -> 0 <= y -> 0 < w -> 0 < h ->
  x + w <= Z.of_nat (cols img) -> y + h <= Z.of_nat (rows img) ->
  exists sb sg sr,
    sum_rect img (Z.to_nat y) (Z.to_nat x) (Z.to_nat w) (Z.to_nat h) = Some (sb, sg, sr) /\
    record_roi img st x y w h =
    (let base := 3 * ROICount st in
     match write_float (OriginalColor st) base (sb / inject_Z (w * h))%Q with
     | inl e => inl e
     | inr b1 =>
     match write_float b1 (base + 1) (sg / inject_Z (w * h))%Q with
     | inl e => inl e
     | inr b2 =>
     match write_float b2 (base + 2) (sr / inject_Z (w * h))%Q with
     | inl e => inl e
     | inr b3 =>
     match write_float b3 (base + 3) 0%Q with
     | inl e => inl e
     | inr b4 => inr (mkRoiState (corners st) (downFlag st) (upFlag st) (ROICount st + 1)
                                 (registered st) b4)
     end end end end).
Proof.
  intros Hwf Hx Hy Hw Hh Hxw Hyh.
  destruct (sum_rect_some img (Z.to_nat y) (Z.to_nat x) (Z.to_nat w) (Z.to_nat h) Hwf ltac:(lia) ltac:(lia))
    as [[[sb sg] sr] E].
  exists sb, sg, sr. split; [exact E |]. unfold record_roi.
  replace (negb _) with false
    by (symmetry; apply negb_false_iff; rewrite !andb_true_iff, !Z.leb_le; lia).
  rewrite E. rewrite (proj2 (Z.eqb_neq (w * h) 0)) by lia. reflexivity.
Qed.

(** The floats of [OriginalColor] from [n] on are all 0. *)
Definition tail_zero (n : Z) (buf : list Q) : Prop :=
  forall i : nat, n <= Z.of_nat i -> nth i buf 0%Q = 0%Q.

Lemma write_float_nth (buf b : list Q) (i : Z) (v : Q) (k : nat) :
  write_float buf i v = inr b -> nth k b 0%Q = if Z.of_nat k =? i then v else nth k buf 0%Q.
Proof.
  intros E. apply write_float_inr in E as [Hi ->]. rewrite !nth_lookup.
  destruct (Z.eqb_spec (Z.of_nat k) i) as [Hk | Hk].
  - replace k with (Z.to_nat i) by lia. rewrite list_lookup_insert_eq by lia. reflexivity.
  - rewrite list_lookup_insert_ne by lia. reflexivity.
Qed.

(** A recorded patch writes floats [3k .. 3k+3] only, the last one 0:
    the floats from [3 (k+1)] on stay 0. *)
Lemma record_roi_tail (img : Mat) (st st' : RoiState) (x y w h : Z) :
  record_roi img st x y w h = inr st' ->
  tail_zero (3 * ROICount st) (OriginalColor st) -> tail_zero (3 * ROICount st') (OriginalColor st').
Proof.
  intros E Ht. pose proof (record_roi_inr img st st' x y w h E) as [Hc _]. revert E.
  unfold record_roi. destruct (negb _); [discriminate |].
  destruct (sum_rect _ _ _ _ _) as [[[sb sg] sr] |]; [| discriminate].
  destruct (_ =? 0); [discriminate |].
  destruct (write_float _ _ _) as [| b1] eqn:E1; [discriminate |].
  destruct (write_float b1 _ _) as [| b2] eqn:E2; [discriminate |].
  destruct (write_float b2 _ _) as [| b3] eqn:E3; [discriminate |].
  destruct (write_float b3 _ _) as [| b4] eqn:E4; [discriminate |].
  intros Hst. injection Hst as <-. cbn [OriginalColor]. intros i Hi. rewrite Hc in Hi.
  rewrite (write_float_nth _ _ _ _ _ E4), (write_float_nth _ _ _ _ _ E3),
          (write_float_nth _ _ _ _ _ E2), (write_float_nth _ _ _ _ _ E1).
  destruct (Z.eqb_spec (Z.of_nat i) (3 * ROICount st + 3)); [reflexivity|].
  rewrite !(proj2 (Z.eqb_neq _ _)) by lia. apply Ht. lia.
Qed.

Lemma roi_tick_tail (img : Mat) (st st' : RoiState) (t : Tick) :
  tail_zero (3 * ROICount st) (OriginalColor st) -> roi_tick img st t = Running st' ->
  tail_zero (3 * ROICount st') (OriginalColor st').
Proof.
  intros Ht. unfold roi_tick. cbv zeta.
  destruct (tkey t =? 27); [discriminate |]. destruct (negb _); [discriminate |].
  destruct (roi_body _ _) as [| s1] eqn:Eb; [discriminate |]. intros H. injection H as <-.
  revert Eb. unfold roi_body. cbv zeta. cbn [corners ROICount OriginalColor].
  destruct (_ && _)%bool; [| intros H; injection H as <-; exact Ht].
  destruct ((_ <? 5) && (_ <? 5))%bool; [intros H; injection H as <-; exact Ht |].
  destruct (record_roi _ _ _ _ _ _) as [| s2] eqn:Er; [discriminate |].
  intros H. injection H as <-. cbn [ROICount OriginalColor].
  exact (record_roi_tail _ _ _ _ _ _ _ Er Ht).
Qed.

Lemma roi_reach_tail (img : Mat) (st : RoiState) :
  roi_reach img st -> tail_zero (3 * ROICount st) (OriginalColor st).
Proof.
  induction 1 as [| st t st' _ IH Et].
  - intros i _. unfold roi_init. cbn [OriginalColor]. apply nth_repeat.
  - exact (roi_tick_tail img st st' t IH Et).
Qed.

(** When [ROISelection] exits, the last row of [OriginalColor] (floats
    69, 70, 71) is still 0: the 24th patch is never measured. *)
Lemma roi_exit_last_row_zero (img : Mat) (ticks : list Tick) (st : RoiState) :
  ROISelection img ticks = Exited st -> forall j : nat, (j < 3)%nat -> nth (69 + j) (OriginalColor st) 0%Q = 0%Q.
Proof.
  intros E j Hj. pose proof (roi_run_reach img ticks roi_init (reach_init img)) as Hr.
  unfold ROISelection in E. rewrite E in Hr. destruct Hr as (s & Hs & Hc & Ho).
  pose proof (roi_reach_inv img s Hs) as [Hcount _]. rewrite Ho.
  apply (roi_reach_tail img s Hs). lia.
Qed.

End ROIFacts.

(** ** Theorems on the patch sampling *)

Module ROIProps.
Import Image ImageFacts ROI ROIFacts.

(** A 10x10 grey image, and the state before the last patch. *)
Definition grey10 : Mat := mkMat 10 10 (repeat (repeat (mkVec3b 90 100 110) 10) 10).

Definition st23 : RoiState :=
  mkRoiState corners_reset false false 23 true (repeat 0%Q 72).

(** One drag of the left button from [(x, y)] to [(x + 5, y + 5)] within
    one [waitKey], no key pressed. *)
Definition drag (x y : Z) : Tick :=
  mkTick [mkMouse EVENT_LBUTTONDOWN x y EVENT_FLAG_LBUTTON;
          mkMouse EVENT_MOUSEMOVE (x + 5) (y + 5) EVENT_FLAG_LBUTTON;
          mkMouse EVENT_LBUTTONUP (x + 5) (y + 5) 0] (-1).

(** The first [waitKey] (before [setMouseCallback]) then 24 drags. *)
Definition session24 : list Tick := mkTick [] (-1) :: repeat (drag 2 2) 24.

(** C24: the loop never records 24 patches: in every state it runs or
    exits with, [ROICount] is at most 23 and [OriginalColor] still has its
    72 floats, so the exit test [ROICount < 24] never fires (the 24th
    patch fails, see the next theorem). *)
Theorem roi_at_most_23 (img : Mat) (ticks : list Tick) :
  match ROISelection img ticks with
  | Running st | Exited st => 0 <= ROICount st <= 23 /\ length (OriginalColor st) = 72%nat
  | Failed _ => True
  end.
Proof.
  pose proof (roi_run_reach img ticks roi_init (reach_init img)) as H. unfold ROISelection.
  destruct (roi_run img roi_init ticks) as [st | st | e]; [| exact (roi_reach_inv img st H) | exact I].
  destruct H as (s & Hs & Ec & Eo). rewrite Ec, Eo. exact (roi_reach_inv img s Hs).
Qed.

(** C30: recording the 24th patch writes out of [OriginalColor]: with
    [ROICount = 23] the writes [OPtr[0..2]] land in the last row and
    [OPtr[3] = CropSum[3]] at float 72, one past the 24x3 matrix. *)
Theorem roi_24th_patch_overflows (img : Mat) (st : RoiState) (x y w h : Z) :
  ROICount st = 23 -> length (OriginalColor st) = 72%nat -> mat_wf img ->
  0 <= x -> 0 <= y -> 0 < w -> 0 < h ->
  x + w <= Z.of_nat (cols img) -> y + h <= Z.of_nat (rows img) ->
  record_roi img st x y w h = inl (OutOfBufferWrite 72).
Proof.
  intros Hc Hl Hwf Hx Hy Hw Hh Hxw Hyh.
  destruct (record_roi_crop img st x y w h Hwf Hx Hy Hw Hh Hxw Hyh) as (sb & sg & sr & _ & ->).
  cbv zeta. rewrite Hc. rewrite !write_float_ok by (rewrite ?length_insert; lia).
  rewrite write_float_out by (rewrite !length_insert; lia). reflexivity.
Qed.

Lemma roi_24th_patch_overflows_witness :
  record_roi grey10 st23 2 3 5 4 = inl (OutOfBufferWrite 72).
Proof.
  apply roi_24th_patch_overflows; try reflexivity; try (simpl; lia).
  apply mat_wfb_spec. vm_compute. reflexivity.
Defined.

(** A user who drags the 24 patches one after the other, on a
    10x10 image, does not get a filled [OriginalColor]: the loop fails
    on the 24th patch with the write of float 72. *)
Example roi_24_drags_fail : ROISelection grey10 session24 = Failed (OutOfBufferWrite 72).
Proof. vm_compute. reflexivity. Qed.

(** C29: every accepted patch but the last is recorded as the mean
    colour of its crop: [ROICount] goes from [k] to [k + 1], floats
    [3k .. 3k+2] of [OriginalColor] (row [k]) get the mean blue, green and
    red of the crop, float [3k + 3] (the first float of row [k + 1]) gets
    [CropSum[3] = 0], and no other float changes. *)
Theorem roi_records_mean (img : Mat) (st : RoiState) (x y w h : Z) :
  0 <= ROICount st <= 22 -> length (OriginalColor st) = 72%nat -> mat_wf img ->
  0 <= x -> 0 <= y -> 0 < w -> 0 < h ->
  x + w <= Z.of_nat (cols img) -> y + h <= Z.of_nat (rows img) ->
  exists sb sg sr st',
    sum_rect img (Z.to_nat y) (Z.to_nat x) (Z.to_nat w) (Z.to_nat h) = Some (sb, sg, sr) /\
    record_roi img st x y w h = inr st' /\ ROICount st' = ROICount st + 1 /\
    OriginalColor st' !! Z.to_nat (3 * ROICount st) = Some (sb / inject_Z (w * h))%Q /\
    OriginalColor st' !! Z.to_nat (3 * ROICount st + 1) = Some (sg / inject_Z (w * h))%Q /\
    OriginalColor st' !! Z.to_nat (3 * ROICount st + 2) = Some (sr / inject_Z (w * h))%Q /\
    OriginalColor st' !! Z.to_nat (3 * ROICount st + 3) = Some 0%Q /\
    forall i, (i < Z.to_nat (3 * ROICount st) \/ Z.to_nat (3 * ROICount st + 3) < i)%nat ->
      OriginalColor st' !! i = OriginalColor st !! i.
Proof.
  intros Hc Hl Hwf Hx Hy Hw Hh Hxw Hyh.
  destruct (record_roi_crop img st x y w h Hwf Hx Hy Hw Hh Hxw Hyh) as (sb & sg & sr & Es & ->).
  cbv zeta. rewrite !write_float_ok by (rewrite ?length_insert; lia).
  eexists sb, sg, sr, _. split; [exact Es |]. split; [reflexivity |]. split; [reflexivity |].
  cbn [OriginalColor].
  assert (Hlt : forall k, (k <= 3)%nat -> (Z.to_nat (3 * ROICount st) + k < length (OriginalColor st))%nat)
    by (intros; lia).
  replace (Z.to_nat (3 * ROICount st + 1)) with (Z.to_nat (3 * ROICount st) + 1)%nat by lia.
  replace (Z.to_nat (3 * ROICount st + 2)) with (Z.to_nat (3 * ROICount st) + 2)%nat by lia.
  replace (Z.to_nat (3 * ROICount st + 3)) with (Z.to_nat (3 * ROICount st) + 3)%nat by lia.
  set (b := Z.to_nat (3 * ROICount st)) in *.
  repeat split.
  - rewrite !list_lookup_insert_ne by lia. apply list_lookup_insert_eq. specialize (Hlt 0%nat). lia.
  - rewrite !list_lookup_insert_ne by lia. apply list_lookup_insert_eq.
    rewrite length_insert. specialize (Hlt 1%nat). lia.
  - rewrite list_lookup_insert_ne by lia. apply list_lookup_insert_eq.
    rewrite !length_insert. specialize (Hlt 2%nat). lia.
  - apply list_lookup_insert_eq. rewrite !length_insert. specialize (Hlt 3%nat). lia.
  - intros i Hi. rewrite !list_lookup_insert_ne by lia. reflexivity.
Qed.

Lemma roi_records_mean_witness :
  exists sb sg sr st',
    sum_rect grey10 2 1 5 4 = Some (sb, sg, sr) /\
    record_roi grey10 (mkRoiState corners_reset false false 4 true (repeat 0%Q 72)) 1 2 5 4 = inr st' /\
    ROICount st' = 5 /\
    OriginalColor st' !! 12%nat = Some (sb / inject_Z (5 * 4))%Q /\
    OriginalColor st' !! 13%nat = Some (sg / inject_Z (5 * 4))%Q /\
    OriginalColor st' !! 14%nat = Some (sr / inject_Z (5 * 4))%Q /\
    OriginalColor st' !! 15%nat = Some 0%Q /\
    forall i, (i < 12 \/ 15 < i)%nat ->
      OriginalColor st' !! i = OriginalColor (mkRoiState corners_reset false false 4 true (repeat 0%Q 72)) !! i.
Proof.
  apply (roi_records_mean grey10 (mkRoiState corners_reset false false 4 true (repeat 0%Q 72)) 1 2 5 4);
    try reflexivity; try (simpl; lia).
  apply mat_wfb_spec. vm_compute. reflexivity.
Defined.



End ROIProps.
