(* ===== verification/ROILive.v ===== *)
(** * Progress of the patch selection

    Module [ROILive] studies what the user of [ROISelection]
    ([src/src/mylib/Linear_CCM.cpp], lines 12-105, modelled in [ROI]) can
    still reach from a state of the loop: a liveness property (from every
    reachable state whose corners the loop can read, some continuation of
    the session records patches up to the 23rd and leaves with ESC) and
    the state in which no continuation records anything again.

    The loop and the callback disagree on when a corner is set: the
    callback ([ROImouseEvent], lines 16 and 30) overwrites a corner only
    while both of its coordinates are [-1]; the loop (lines 52-53) counts
    it as set only when neither is [-1].  A corner with one coordinate
    [-1] is neither: it is never overwritten and never raises its flag.
    [corner_set] is the loop's test, [is_unset] the callback's;
    [corner_ok] says a corner is one or the other.

    The continuation is built from four kinds of [waitKey] calls: a call
    without events ([idle_tick]), a click released where it was pressed
    at a corner already set ([cancel_tick], which the loop discards as a
    ROI smaller than 5x5), a 5x5 drag from the top-left pixel
    ([drag_tick]) and ESC ([esc_tick]). *)

From S2P Require Import Prelude Image ROI.
From stdpp Require Import list.

Open Scope Z_scope.

Module ROILive.
Import Image ROI.

(** [corners[k].x != -1 && corners[k].y != -1] (lines 52-53), as
    [roi_body] writes it. *)
Definition corner_set (p : Point) : bool := negb ((ptx p =? -1) || (pty p =? -1)).

(** A corner the loop and the callback agree on. *)
Definition corner_ok (p : Point) : bool := is_unset p || corner_set p.

(** A [waitKey(1)] without events and no key. *)
Definition idle_tick : Tick := mkTick [] (-1).

(** [waitKey(27)]. *)
Definition esc_tick : Tick := mkTick [] 27.

(** A click released at the point it was pressed. *)
Definition click (p : Point) : Tick :=
  mkTick [mkMouse EVENT_LBUTTONDOWN (ptx p) (pty p) 0; mkMouse EVENT_LBUTTONUP (ptx p) (pty p) 0] (-1).

(** The click at the corner already set (the origin when none is). *)
Definition cancel_tick (c : Corners) : Tick :=
  click (if corner_set (c0 c) then c0 c else if corner_set (c2 c) then c2 c else mkPoint 0 0).

(** A drag from [(0, 0)] to [(5, 5)] within one [waitKey]. *)
Definition drag_tick : Tick :=
  mkTick [mkMouse EVENT_LBUTTONDOWN 0 0 EVENT_FLAG_LBUTTON;
          mkMouse EVENT_MOUSEMOVE 5 5 EVENT_FLAG_LBUTTON;
          mkMouse EVENT_LBUTTONUP 5 5 0] (-1).

(** What every state the loop runs with satisfies, besides [roi_inv]:
    a raised flag has its corner set, and the two corners are never both
    set (the iteration that sees both resets them). *)
Definition flags_inv (st : RoiState) : Prop :=
  (downFlag st = true -> corner_set (c0 (corners st)) = true) /\
  (upFlag st = true -> corner_set (c2 (corners st)) = true) /\
  (corner_set (c0 (corners st)) && corner_set (c2 (corners st)))%bool = false.

End ROILive.

(** ** One iteration *)

Module ROILiveFacts.
Import Image ROI ROIFacts ROILive.

Lemma corner_set_unset (p : Point) : corner_set p = true -> is_unset p = false.
Proof.
  unfold corner_set, is_unset. destruct (ptx p =? -1), (pty p =? -1); cbn; congruence.
Qed.

(** The callback never moves a corner that is not [(-1, -1)]. *)
Lemma mouse_keeps_c0 (e : MouseEvent) (x y f : Z) (c : Corners) :
  is_unset (c0 c) = false -> c0 (ROImouseEvent e x y f c) = c0 c.
Proof.
  intros H. unfold ROImouseEvent. rewrite H, andb_false_r. cbn [c0].
  destruct (f =? EVENT_FLAG_LBUTTON); cbn [c0]; destruct (_ && _)%bool; reflexivity.
Qed.

Lemma mouse_keeps_c2 (e : MouseEvent) (x y f : Z) (c : Corners) :
  is_unset (c2 c) = false -> c2 (ROImouseEvent e x y f c) = c2 c.
Proof.
  intros H. unfold ROImouseEvent.
  set (c' := if (_ && is_unset (c0 c))%bool then _ else c).
  assert (E : c2 c' = c2 c) by (unfold c'; destruct (_ && _)%bool; reflexivity).
  set (c'' := if f =? EVENT_FLAG_LBUTTON then _ else c').
  assert (E' : c2 c'' = c2 c) by (unfold c''; destruct (f =? EVENT_FLAG_LBUTTON); exact E).
  rewrite E', H, andb_false_r. exact E'.
Qed.

Lemma dispatch_keeps_c0 (evs : list Mouse) (c : Corners) :
  is_unset (c0 c) = false -> c0 (dispatch evs c) = c0 c.
Proof.
  unfold dispatch. revert c. induction evs as [|m evs IH]; intros c H; [reflexivity|]. cbn [fold_left].
  rewrite IH; [apply mouse_keeps_c0, H | rewrite mouse_keeps_c0; exact H].
Qed.

Lemma dispatch_keeps_c2 (evs : list Mouse) (c : Corners) :
  is_unset (c2 c) = false -> c2 (dispatch evs c) = c2 c.
Proof.
  unfold dispatch. revert c. induction evs as [|m evs IH]; intros c H; [reflexivity|]. cbn [fold_left].
  rewrite IH; [apply mouse_keeps_c2, H | rewrite mouse_keeps_c2; exact H].
Qed.

(** An iteration that goes on: the key was not ESC, fewer than 24
    patches, and the body ran on the corners after the events. *)
Lemma roi_tick_running (img : Mat) (st st' : RoiState) (t : Tick) :
  roi_tick img st t = Running st' ->
  let c := if registered st then dispatch (tevents t) (corners st) else corners st in
  roi_body img (mkRoiState c (downFlag st) (upFlag st) (ROICount st) (registered st) (OriginalColor st)) = inr st'.
Proof.
  unfold roi_tick. cbv zeta. destruct (tkey t =? 27); [discriminate|].
  destruct (negb _); [discriminate|]. destruct (roi_body _ _); congruence.
Qed.

(** The body either resets the corners and the flags, or keeps the
    corners and raises the flags of the set corners, not both. *)
Lemma roi_body_cases (img : Mat) (st st' : RoiState) :
  roi_body img st = inr st' ->
  (corners st' = corners_reset /\ downFlag st' = false /\ upFlag st' = false) \/
  (corners st' = corners st /\ downFlag st' = (downFlag st || corner_set (c0 (corners st)))%bool /\
   upFlag st' = (upFlag st || corner_set (c2 (corners st)))%bool /\ (downFlag st' && upFlag st')%bool = false).
Proof.
  unfold roi_body. cbv zeta. destruct (_ && _)%bool eqn:E.
  - destruct ((_ <? 5) && (_ <? 5))%bool; [intros [= <-]; left; auto |].
    destruct (record_roi _ _ _ _ _ _); [discriminate | intros [= <-]; left; auto].
  - intros [= <-]. right. cbn. auto.
Qed.

Lemma flags_inv_tick (img : Mat) (st st' : RoiState) (t : Tick) :
  flags_inv st -> roi_tick img st t = Running st' -> flags_inv st'.
Proof.
  intros (Hd & Hu & _) Ht. apply roi_tick_running in Ht. cbv zeta in Ht.
  set (c := if registered st then _ else _) in Ht.
  assert (Hd' : downFlag st = true -> corner_set (c0 c) = true).
  { intros H. specialize (Hd H). unfold c. destruct (registered st); [| exact Hd].
    rewrite dispatch_keeps_c0 by (apply corner_set_unset, Hd). exact Hd. }
  assert (Hu' : upFlag st = true -> corner_set (c2 c) = true).
  { intros H. specialize (Hu H). unfold c. destruct (registered st); [| exact Hu].
    rewrite dispatch_keeps_c2 by (apply corner_set_unset, Hu). exact Hu. }
  apply roi_body_cases in Ht as [(Ec & Ed & Eu) | (Ec & Ed & Eu & Edu)]; unfold flags_inv; rewrite Ec.
  - rewrite Ed, Eu. cbn. repeat split; discriminate.
  - cbn [corners] in Ed, Eu |- *. rewrite Ed, Eu in *. clear Ec Ed Eu.
    destruct (downFlag st), (upFlag st), (corner_set (c0 c)), (corner_set (c2 c)); cbn in *;
      repeat split; auto; discriminate.
Qed.

Lemma flags_inv_reach (img : Mat) (st : RoiState) : roi_reach img st -> flags_inv st.
Proof.
  induction 1 as [| st t st' _ IH Et]; [cbn; repeat split; discriminate |].
  exact (flags_inv_tick img st st' t IH Et).
Qed.

(** ** The continuation, tick by tick *)

Lemma flag_or (b s : bool) : (b = true -> s = true) -> (b || s)%bool = s.
Proof. destruct b, s; cbn; auto. intros H. symmetry. apply H. reflexivity. Qed.

(** An iteration with another key than ESC and fewer than 24 patches
    runs the body. *)
Lemma roi_tick_go (img : Mat) (st : RoiState) (t : Tick) :
  tkey t <> 27 -> ROICount st < 24 ->
  roi_tick img st t =
  match roi_body img (mkRoiState (if registered st then dispatch (tevents t) (corners st) else corners st)
                        (downFlag st) (upFlag st) (ROICount st) (registered st) (OriginalColor st)) with
  | inl e => Failed e
  | inr s => Running s
  end.
Proof.
  intros Hk Hc. unfold roi_tick. cbv zeta. cbn [ROICount]. rewrite (proj2 (Z.eqb_neq _ _) Hk).
  rewrite (proj2 (Z.ltb_lt _ _) Hc). reflexivity.
Qed.

Lemma roi_run_app (img : Mat) (st : RoiState) (l1 l2 : list Tick) :
  roi_run img st (l1 ++ l2) = match roi_run img st l1 with Running s => roi_run img s l2 | o => o end.
Proof.
  revert st. induction l1 as [| t l1 IH]; intros st; [reflexivity |]. cbn [app roi_run].
  destruct (roi_tick img st t); [reflexivity | apply IH | reflexivity].
Qed.

(** The first iteration without events: the callback is registered and
    the flags follow the corners. *)
Lemma idle_step (img : Mat) (st : RoiState) :
  roi_inv st -> flags_inv st ->
  roi_tick img st idle_tick =
  Running (mkRoiState (corners st) (corner_set (c0 (corners st))) (corner_set (c2 (corners st)))
                      (ROICount st) true (OriginalColor st)).
Proof.
  intros [Hc _] (Hd & Hu & Hb). rewrite roi_tick_go by (cbn; lia).
  replace (if registered st then dispatch (tevents idle_tick) (corners st) else corners st) with (corners st)
    by (destruct (registered st); reflexivity).
  unfold roi_body. cbv zeta. cbn [corners downFlag upFlag ROICount OriginalColor].
  fold (corner_set (c0 (corners st))) (corner_set (c2 (corners st))).
  rewrite (flag_or _ _ Hd), (flag_or _ _ Hu), Hb. reflexivity.
Qed.

(** A click at [p] sets the corners that are still [(-1, -1)] to [p]. *)
Lemma dispatch_click (p : Point) (c : Corners) :
  dispatch (tevents (click p)) c =
  mkCorners (if is_unset (c0 c) then p else c0 c) (c1 c) (if is_unset (c2 c) then p else c2 c).
Proof.
  destruct p as [px py], c as [a b d]. unfold dispatch, click, ROImouseEvent, EVENT_FLAG_LBUTTON. cbn.
  destruct (is_unset a) eqn:Ea, (is_unset d) eqn:Ed; cbn; rewrite ?Ea, ?Ed; reflexivity.
Qed.

(** Both corners at the same set point: the ROI is smaller than 5x5
    and the corners and flags are reset. *)
Lemma roi_body_same_corner (img : Mat) (q b : Point) (d u : bool) (k : Z) (r : bool) (buf : list Q) :
  corner_set q = true ->
  roi_body img (mkRoiState (mkCorners q b q) d u k r buf) = inr (mkRoiState corners_reset false false k true buf).
Proof.
  intros Hq. unfold roi_body. cbv zeta. cbn [corners downFlag upFlag c0 c2 ROICount OriginalColor].
  fold (corner_set q). rewrite Hq, !orb_true_r, !Z.sub_diag. reflexivity.
Qed.

(** The cancelling click, once the flags follow the corners. *)
Lemma cancel_step (img : Mat) (c : Corners) (k : Z) (buf : list Q) :
  corner_ok (c0 c) = true -> corner_ok (c2 c) = true -> (corner_set (c0 c) && corner_set (c2 c))%bool = false ->
  k < 24 ->
  roi_tick img (mkRoiState c (corner_set (c0 c)) (corner_set (c2 c)) k true buf) (cancel_tick c) =
  Running (mkRoiState corners_reset false false k true buf).
Proof.
  intros H0 H2 Hb Hk. rewrite roi_tick_go by (cbn; lia). cbn [registered corners].
  unfold cancel_tick. rewrite dispatch_click. unfold corner_ok in H0, H2.
  destruct (corner_set (c0 c)) eqn:S0, (corner_set (c2 c)) eqn:S2; try discriminate;
    rewrite ?orb_false_r in H0; rewrite ?orb_false_r in H2; cbn [downFlag upFlag ROICount OriginalColor];
    rewrite ?(corner_set_unset _ S0), ?(corner_set_unset _ S2), ?H0, ?H2; cbv beta iota;
    rewrite roi_body_same_corner by (first [exact S0 | exact S2 | reflexivity]); reflexivity.
Qed.

(** A 5x5 drag from the origin records a patch and resets the corners,
    as long as fewer than 23 patches are recorded. *)
Lemma drag_step (img : Mat) (k : Z) (buf : list Q) :
  mat_wf img -> (5 <= rows img)%nat -> (5 <= cols img)%nat -> 0 <= k <= 22 -> length buf = 72%nat ->
  exists buf', roi_tick img (mkRoiState corners_reset false false k true buf) drag_tick =
               Running (mkRoiState corners_reset false false (k + 1) true buf') /\ length buf' = 72%nat.
Proof.
  intros Hwf Hr Hc Hk Hl. rewrite roi_tick_go by (cbn; lia). cbn [registered corners].
  replace (dispatch (tevents drag_tick) corners_reset) with (mkCorners (mkPoint 0 0) (mkPoint 5 5) (mkPoint 5 5))
    by reflexivity.
  cbn [downFlag upFlag ROICount OriginalColor registered].
  set (c := mkCorners (mkPoint 0 0) (mkPoint 5 5) (mkPoint 5 5)).
  change (roi_body img (mkRoiState c false false k true buf)) with
    (match record_roi img (mkRoiState c true true k true buf) 0 0 5 5 with
     | inl e => inl e
     | inr st' => inr (mkRoiState corners_reset false false (ROICount st') true (OriginalColor st'))
     end).
  destruct (record_roi_crop img (mkRoiState c true true k true buf) 0 0 5 5 Hwf) as (sb & sg & sr & _ & ->); try lia.
  cbv zeta. cbn [ROICount OriginalColor].
  rewrite !write_float_ok by (rewrite ?length_insert; lia).
  eexists. split; [reflexivity | cbn [OriginalColor]; rewrite !length_insert; exact Hl].
Qed.

Lemma drags (img : Mat) (n : nat) (k : Z) (buf : list Q) :
  mat_wf img -> (5 <= rows img)%nat -> (5 <= cols img)%nat -> 0 <= k -> k + Z.of_nat n <= 23 -> length buf = 72%nat ->
  exists buf', roi_run img (mkRoiState corners_reset false false k true buf) (repeat drag_tick n) =
               Running (mkRoiState corners_reset false false (k + Z.of_nat n) true buf') /\ length buf' = 72%nat.
Proof.
  intros Hwf Hr Hc. revert k buf. induction n as [| n IH]; intros k buf Hk Hn Hl.
  - exists buf. rewrite Z.add_0_r. auto.
  - destruct (drag_step img k buf Hwf Hr Hc ltac:(lia) Hl) as (b1 & E1 & L1). cbn [repeat roi_run]. rewrite E1.
    destruct (IH (k + 1) b1 ltac:(lia) ltac:(lia) L1) as (b2 & E2 & L2). exists b2.
    rewrite E2. split; [do 2 f_equal; lia | exact L2].
Qed.

(** ESC ends the loop with the patches recorded so far. *)
Lemma esc_step (img : Mat) (st : RoiState) :
  exists st', roi_tick img st esc_tick = Exited st' /\ ROICount st' = ROICount st /\ OriginalColor st' = OriginalColor st.
Proof. eexists. split; [reflexivity | split; reflexivity]. Qed.

(** ** The stalled state *)

(** With [corners[2] = (-1, y)], [y <> -1], and [upFlag] down, an
    iteration keeps that corner and the flag, and records nothing. *)
Lemma stall_tick (img : Mat) (st : RoiState) (y : Z) (t : Tick) :
  c2 (corners st) = mkPoint (-1) y -> y <> -1 -> upFlag st = false ->
  match roi_tick img st t with
  | Running s => c2 (corners s) = mkPoint (-1) y /\ upFlag s = false /\
                 ROICount s = ROICount st /\ OriginalColor s = OriginalColor st
  | Exited s => ROICount s = ROICount st /\ OriginalColor s = OriginalColor st
  | Failed _ => False
  end.
Proof.
  intros H2 Hy Hu. unfold roi_tick. cbv zeta.
  destruct (tkey t =? 27); [cbn; auto |]. cbn [ROICount]. destruct (negb _); [cbn; auto |].
  set (c := if registered st then _ else _).
  assert (Hc2 : c2 c = mkPoint (-1) y).
  { unfold c. destruct (registered st); [| exact H2].
    rewrite dispatch_keeps_c2; [exact H2 |]. rewrite H2. unfold is_unset. cbn.
    now rewrite (proj2 (Z.eqb_neq y (-1)) Hy). }
  unfold roi_body. cbv zeta. cbn [corners upFlag downFlag ROICount OriginalColor]. rewrite Hu, Hc2. cbn [ptx pty].
  rewrite Z.eqb_refl. cbn [orb negb]. rewrite andb_false_r. cbn. auto.
Qed.

End ROILiveFacts.

(** ** What the user can still reach *)

Module ROILiveProps.
Import Image ImageFacts ROI ROIFacts ROILive ROILiveFacts.

(** C25: Liveness of the patch selection: from every state the loop
    reaches, if both corners are either [(-1, -1)] or have no [-1]
    coordinate, and the image is at least 5x5, some continuation of the
    session (a call without events, a cancelling click, 5x5 drags, ESC)
    makes [ROISelection] exit with 23 patches recorded and the 72 floats
    of [OriginalColor]. *)
Theorem roi_can_finish (img : Mat) (st : RoiState) :
  mat_wf img -> (5 <= rows img)%nat -> (5 <= cols img)%nat -> roi_reach img st ->
  corner_ok (c0 (corners st)) = true -> corner_ok (c2 (corners st)) = true ->
  exists ticks st', roi_run img st ticks = Exited st' /\ ROICount st' = 23 /\ length (OriginalColor st') = 72%nat.
Proof.
  intros Hwf Hr Hc Hreach H0 H2.
  pose proof (roi_reach_inv img st Hreach) as [Hk Hl].
  pose proof (flags_inv_reach img st Hreach) as Hf. pose proof Hf as (_ & _ & Hb).
  exists (idle_tick :: cancel_tick (corners st) :: repeat drag_tick (Z.to_nat (23 - ROICount st)) ++ [esc_tick]).
  cbn [roi_run]. rewrite (idle_step img st (conj Hk Hl) Hf).
  rewrite (cancel_step img (corners st) (ROICount st) (OriginalColor st) H0 H2 Hb ltac:(lia)).
  rewrite roi_run_app.
  destruct (drags img (Z.to_nat (23 - ROICount st)) (ROICount st) (OriginalColor st) Hwf Hr Hc ltac:(lia) ltac:(lia) Hl)
    as (b & -> & Lb).
  cbn [roi_run]. destruct (esc_step img (mkRoiState corners_reset false false (ROICount st + Z.of_nat (Z.to_nat (23 - ROICount st))) true b))
    as (st' & -> & Ec & Eo).
  exists st'. cbn [ROICount OriginalColor] in Ec, Eo. rewrite Ec, Eo. split; [reflexivity | split; [rewrite Z2Nat.id by lia; lia | exact Lb]].
Qed.

(** C26: A release just left of the window stalls the selection: once
    [corners[2]] is [(-1, y)] with [y <> -1] and [upFlag] is down, the
    callback never overwrites the corner (it is not [(-1, -1)]) and the
    loop never counts it as set (it has a [-1]), so whatever the user
    does no patch is recorded again; the loop never fails and only ESC
    ends it, with the patches recorded before. *)
Theorem roi_release_left_stalls (img : Mat) (st : RoiState) (y : Z) (ticks : list Tick) :
  c2 (corners st) = mkPoint (-1) y -> y <> -1 -> upFlag st = false ->
  match roi_run img st ticks with
  | Running s | Exited s => ROICount s = ROICount st /\ OriginalColor s = OriginalColor st
  | Failed _ => False
  end.
Proof.
  revert st. induction ticks as [| t ticks IH]; intros st H2 Hy Hu; [cbn; auto |]. cbn [roi_run].
  pose proof (stall_tick img st y t H2 Hy Hu) as Ht.
  destruct (roi_tick img st t) as [s | s | e]; [exact Ht | | contradiction].
  destruct Ht as (Hs2 & Hsu & Ec & Eo). specialize (IH s Hs2 Hy Hsu).
  destruct (roi_run img s ticks); rewrite <- ?Ec, <- ?Eo; exact IH.
Qed.

Definition grey10 : Mat := ROIProps.grey10.

Lemma roi_can_finish_witness :
  exists ticks st', roi_run grey10 roi_init ticks = Exited st' /\ ROICount st' = 23 /\ length (OriginalColor st') = 72%nat.
Proof.
  apply (roi_can_finish grey10 roi_init).
  - apply mat_wfb_spec. vm_compute. reflexivity.
  - cbn. lia.
  - cbn. lia.
  - apply reach_init.
  - reflexivity.
  - reflexivity.
Defined.

(** The first iteration registers the callback; in the second the button
    is released at [(-1, 4)] without having been pressed in the window. *)
Definition release_left : Tick := mkTick [mkMouse EVENT_LBUTTONUP (-1) 4 0] (-1).

Definition st_stalled : RoiState :=
  mkRoiState (mkCorners unset unset (mkPoint (-1) 4)) false false 0 true (repeat 0%Q 72).

Lemma st_stalled_reached : roi_run grey10 roi_init [idle_tick; release_left] = Running st_stalled.
Proof. vm_compute. reflexivity. Qed.

Lemma roi_release_left_stalls_witness :
  match roi_run grey10 st_stalled (repeat drag_tick 24 ++ [esc_tick]) with
  | Running s | Exited s => ROICount s = ROICount st_stalled /\ OriginalColor s = OriginalColor st_stalled
  | Failed _ => False
  end.
Proof. apply (roi_release_left_stalls grey10 st_stalled 4); [reflexivity | lia | reflexivity]. Defined.

End ROILiveProps.
