(* ===== verification/CSV.v ===== *)
(** * The CSV files of the colour-correction matrix

    Module [CSV] models the text side of the CCM: the reading loop that
    [LCC] ([mylib/Linear_CCM.cpp] lines 216-231) shares with
    [readColorCorrectionMatrix] of [process_image.cpp] and
    [applyvideo2ccm.cpp] and with the [main]s of [load_ccm2video.cpp] and
    [test.cpp]; the reading of [ref/ReferenceColor.csv] in [LCC_CMC]
    (lines 137-164), which converts one more field after the last comma;
    and the writing of [ref/LCC_CMC.csv] (lines 178-190).

    [std::getline] is [getlines]; [textline.find_first_of(',', pos)] and
    [textline.substr(prev_pos, pos - prev_pos)] are [String.index] and
    [substring]; the loop is [comma_loop] (fuel: one more than the length
    of the line, and each iteration moves [pos] forward).  The
    destination matrices are the float buffers they are in memory (9
    floats for [ColorMatrix], 72 for [ReferenceColor]) since the loops
    write through [float *CMCPtr = ColorMatrix.ptr<float>(i)] with an
    unchecked [j++].

    [std::stof] and [operator<<] on a float are the class [FloatText]:
    the development proves its theorems for every instance, and
    [DecimalText] is an instance ([stof] on decimal text with an optional
    sign, fraction and exponent; printing with six decimals) with which
    the concrete cases are evaluated. *)

From S2P Require Import Prelude Image CCMApply.
From Stdlib Require Import String Ascii DecimalString DecimalN.
From stdpp Require Import list.

Open Scope Q_scope.

Module CSV.
Import CCMApply.

(** [std::stof] and [std::ostream << float], with what the readers and
    the writer rely on: the printed text reads back as the printed
    (rounded) value; it contains no comma and no line break; the empty
    string is no number ([std::invalid_argument]). *)
Class FloatText := {
  stof : string -> option Q;
  print_float : Q -> string;
  fround : Q -> Q;
  stof_print : forall q, stof (print_float q) = Some (fround q);
  print_no_comma : forall q, String.index 0 (String "," EmptyString) (print_float q) = None;
  print_no_newline : forall q, String.index 0 (String "010" EmptyString) (print_float q) = None;
  stof_empty : stof EmptyString = None
}.

(** The line break. *)
Definition nl : ascii := "010".

(** [while (getline(CMC, textline))]: the lines of the text; a final
    line without a line break is still read, an empty text has none. *)
Fixpoint getlines_from (s : string) (cur : string) (started : bool) : list string :=
  match s with
  | EmptyString => if started then [cur] else []
  | String c s' =>
      if Ascii.eqb c nl then cur :: getlines_from s' EmptyString false
      else getlines_from s' (String.append cur (String c EmptyString)) true
  end.

Definition getlines (s : string) : list string := getlines_from s EmptyString false.

(** [while ((pos = textline.find_first_of(',', pos)) != npos)
     { field = textline.substr(prev_pos, pos - prev_pos); prev_pos = ++pos; }]:
    the fields before each comma and the final [prev_pos]. *)
Fixpoint comma_loop (fuel : nat) (line : string) (pos prev_pos : nat) : option (list string * nat) :=
  match fuel with
  | O => None
  | S fuel' =>
      match String.index pos (String "," EmptyString) line with
      | None => Some ([], prev_pos)
      | Some p =>
          '(fields, last) ← comma_loop fuel' line (S p) (S p);
          Some (substring prev_pos (p - prev_pos) line :: fields, last)
      end
  end.

Definition comma_fields (line : string) : option (list string * nat) :=
  comma_loop (S (String.length line)) line 0 0.

(** What stops a reader. *)
Inductive CsvError :=
  | StofThrows (field : string)        (* [std::invalid_argument] *)
  | WriteOutOfMatrix (index : nat)      (* [CMCPtr[j++]] past the matrix *)
  | LoopFuel.

Section Readers.
Context `{FloatText}.

(** [ptr[k] = v] in a buffer of floats. *)
Definition write_at (buf : list Q) (k : nat) (v : Q) : CsvError + list Q :=
  if decide (k < length buf)%nat then inr (<[k := v]> buf) else inl (WriteOutOfMatrix k).

(** [CMCPtr[j++] = std::stof(field)] for the fields of one line, row [i]
    of a matrix with [ncols] columns. *)
Fixpoint store_fields (buf : list Q) (ncols i j : nat) (fields : list string) : CsvError + list Q :=
  match fields with
  | [] => inr buf
  | f :: rest =>
      match stof f with
      | None => inl (StofThrows f)
      | Some v =>
          match write_at buf (ncols * i + j) v with
          | inl e => inl e
          | inr buf' => store_fields buf' ncols i (S j) rest
          end
      end
  end.

(** One line of the CCM reader: the fields before each comma. *)
Definition read_ccm_line (buf : list Q) (i : nat) (line : string) : CsvError + list Q :=
  match comma_fields line with
  | None => inl LoopFuel
  | Some (fields, _) => store_fields buf 3 i 0 fields
  end.

Fixpoint read_ccm_lines (buf : list Q) (i : nat) (lines : list string) : CsvError + list Q :=
  match lines with
  | [] => inr buf
  | l :: rest =>
      match read_ccm_line buf i l with
      | inl e => inl e
      | inr buf' => read_ccm_lines buf' (S i) rest
      end
  end.

(** The 9 floats of a [3 x 3] matrix as its rows. *)
Definition rows3 (buf : list Q) : CMat :=
  [firstn 3 buf; firstn 3 (skipn 3 buf); firstn 3 (skipn 6 buf)].

(** [cv::Mat readColorCorrectionMatrix(filename)] on the file's text:
    [ColorMatrix(3, 3, CV_32FC1, cv::Scalar(0))] filled line by line. *)
Definition readColorCorrectionMatrix (text : string) : CsvError + CMat :=
  match read_ccm_lines (replicate 9 0) 0 (getlines text) with
  | inl e => inl e
  | inr buf => inr (rows3 buf)
  end.

(** One line of [ReferenceColor.csv] in [LCC_CMC]: the fields before
    each comma, then [RefP[j++] = std::stof(textline.substr(prev_pos,
    pos - prev_pos))] with [pos == npos], the rest of the line. *)
Definition read_reference_line (buf : list Q) (i : nat) (line : string) : CsvError + list Q :=
  match comma_fields line with
  | None => inl LoopFuel
  | Some (fields, prev_pos) =>
      store_fields buf 3 i 0 (fields ++ [substring prev_pos (String.length line - prev_pos) line])
  end.

Fixpoint read_reference_lines (buf : list Q) (i : nat) (lines : list string) : CsvError + list Q :=
  match lines with
  | [] => inr buf
  | l :: rest =>
      match read_reference_line buf i l with
      | inl e => inl e
      | inr buf' => read_reference_lines buf' (S i) rest
      end
  end.

(** [cv::Mat ReferenceColor(24, 3, CV_32FC1, cv::Scalar(0))] read from
    the text of [ref/ReferenceColor.csv]. *)
Definition read_reference (text : string) : CsvError + list Q :=
  read_reference_lines (replicate 72 0) 0 (getlines text).

(** Lines 181-188 of [LCC_CMC]:
    [for i < 3 { for j < 3 { outfile << ColorMatrix.at<float>(i, j) << ","; }
     outfile << "\n"; }] on the rows of the matrix. *)
Definition write_row (row : list Q) : string :=
  fold_right (fun v acc => String.append (print_float v) (String "," acc)) EmptyString row.

(** Each line followed by a line break. *)
Definition csv_lines (lines : list string) : string :=
  fold_right (fun l acc => String.append l (String nl acc)) EmptyString lines.

Definition write_ccm (C : CMat) : string :=
  csv_lines (map (fun row => write_row (firstn 3 row)) (firstn 3 C)).

(** Values separated by commas, without a comma after the last one:
    the text the hand-written CSV files hold. *)
Fixpoint sep_row (row : list Q) : string :=
  match row with
  | [] => EmptyString
  | [v] => print_float v
  | v :: rest => String.append (print_float v) (String "," (sep_row rest))
  end.

(** A [3 x 3] matrix. *)
Definition shape3 (C : CMat) : Prop := length C = 3%nat /\ Forall (fun r => length r = 3%nat) C.

End Readers.

(** ** A decimal [stof] and printer

    The text before the first [c] and the text after it, if any. *)
Fixpoint split_char (c : ascii) (s : string) : string * option string :=
  match s with
  | EmptyString => (EmptyString, None)
  | String a s' =>
      if Ascii.eqb a c then (EmptyString, Some s')
      else let (x, y) := split_char c s' in (String a x, y)
  end.

(** [-]digits[.digits][e[-]digits]; the value is normalised by [Qred]. *)
Definition dec_stof (s : string) : option Q :=
  let '(neg, body) :=
    match s with
    | String a r => if Ascii.eqb a "-" then (true, r) else (false, s)
    | EmptyString => (false, s)
    end in
  let (mant, ex) := split_char "e" body in
  let (ip, fp) := split_char "." mant in
  i ← NilZero.uint_of_string ip;
  f ← match fp with
      | None => Some (0%N, 0%nat)
      | Some t => u ← NilZero.uint_of_string t; Some (N.of_uint u, String.length t)
      end;
  e ← match ex with
      | None => Some 0%Z
      | Some t => option_map Z.of_int (NilZero.int_of_string t)
      end;
  Some (Qred ((if neg then -1 else 1)
              * (inject_Z (Z.of_N (N.of_uint i))
                 + inject_Z (Z.of_N f.1) / inject_Z (10 ^ Z.of_nat f.2))
              * Qpower 10 e)).

(** The value printed: [q] rounded to the nearest multiple of [10^-6]. *)
Definition micro (q : Q) : Z := Qfloor (q * 1000000 + (1 # 2)).

Definition dec_fround (q : Q) : Q := Qred (inject_Z (micro q) / 1000000).

(** [z] as [-]digits, then [e-6]. *)
Definition dec_print (q : Q) : string :=
  let z := micro q in
  let digits := String.append (NilZero.string_of_uint (N.to_uint (Z.abs_N z)))
                              (String "e" (String "-" (String "6" EmptyString))) in
  if (z <? 0)%Z then String "-" digits else digits.

End CSV.

Module CSVFacts.
Import CCMApply CSV.

Lemma split_char_app c s t :
  split_char c s = (s, None) -> split_char c (String.append s (String c t)) = (s, Some t).
Proof.
  induction s as [|a s IH]; simpl.
  - now rewrite Ascii.eqb_refl.
  - destruct (Ascii.eqb a c); [discriminate|].
    destruct (split_char c s) as [x y] eqn:E. intros [= -> ->].
    now rewrite IH.
Qed.

(** The decimal digits. *)
Definition digit_chars : list ascii := ["0"; "1"; "2"; "3"; "4"; "5"; "6"; "7"; "8"; "9"]%char.

(** [s] holds no [c]. *)
Definition no_char (c : ascii) (s : string) : Prop := split_char c s = (s, None).

Lemma no_char_digits c d :
  (forall a, In a digit_chars -> Ascii.eqb a c = false) ->
  no_char c (NilEmpty.string_of_uint d).
Proof.
  intros Hc. unfold no_char.
  induction d; cbn [NilEmpty.string_of_uint split_char]; rewrite ?Hc by (simpl; tauto);
    try rewrite IHd; reflexivity.
Qed.

Lemma no_char_digits0 c d :
  (forall a, In a digit_chars -> Ascii.eqb a c = false) ->
  no_char c (NilZero.string_of_uint d).
Proof.
  intros Hc. destruct d; try (apply no_char_digits; exact Hc).
  unfold no_char; cbn [NilZero.string_of_uint split_char]. rewrite Hc by (simpl; tauto). reflexivity.
Qed.

Lemma no_char_append c s t : no_char c s -> no_char c t -> no_char c (String.append s t).
Proof.
  unfold no_char. induction s as [|a s IH]; simpl; [tauto|].
  destruct (Ascii.eqb a c); [discriminate|].
  destruct (split_char c s) eqn:E. intros [= -> ->] Ht. now rewrite IH.
Qed.

Lemma index_no_char c s : no_char c s -> String.index 0 (String c EmptyString) s = None.
Proof.
  unfold no_char. induction s as [|a s IH]; simpl; [reflexivity|].
  destruct (Ascii.eqb a c) eqn:Hac; [discriminate|].
  destruct (split_char c s) eqn:E. intros [= -> ->].
  destruct (ascii_dec c a) as [->|_]; [now rewrite Ascii.eqb_refl in Hac|].
  now rewrite IH by reflexivity.
Qed.

Lemma index_none_no_char c s : String.index 0 (String c EmptyString) s = None -> no_char c s.
Proof.
  unfold no_char. induction s as [|a s IH]; simpl; [reflexivity|].
  destruct (ascii_dec c a) as [->|Hne]; [now destruct s|].
  destruct (String.index 0 (String c EmptyString) s); [discriminate|].
  intros _. rewrite IH by reflexivity.
  destruct (Ascii.eqb_spec a c); [congruence|reflexivity].
Qed.

Lemma append_assoc_str s t u : String.append (String.append s t) u = String.append s (String.append t u).
Proof. induction s; simpl; congruence. Qed.

Lemma append_empty_str s : String.append s EmptyString = s.
Proof. induction s; simpl; congruence. Qed.

Lemma length_append_str s t : String.length (String.append s t) = (String.length s + String.length t)%nat.
Proof. induction s; simpl; congruence. Qed.

Lemma index_shift P n c s :
  String.index (String.length P + n) c (String.append P s) =
  option_map (Nat.add (String.length P)) (String.index n c s).
Proof.
  induction P as [|a P IH]; simpl.
  - now destruct (String.index n c s).
  - rewrite IH. now destruct (String.index n c s).
Qed.

Lemma index_first c X Y :
  no_char c X -> String.index 0 (String c EmptyString) (String.append X (String c Y)) = Some (String.length X).
Proof.
  unfold no_char. induction X as [|a X IH]; simpl.
  - intros _. destruct (ascii_dec c c); [now destruct Y|congruence].
  - destruct (Ascii.eqb a c) eqn:Hac; [discriminate|].
    destruct (split_char c X) eqn:E. intros [= -> ->].
    destruct (ascii_dec c a) as [->|_]; [now rewrite Ascii.eqb_refl in Hac|].
    now rewrite IH by reflexivity.
Qed.

Lemma substring_prefix P X s :
  substring (String.length P) (String.length X) (String.append P (String.append X s)) = X.
Proof. induction P; simpl; [induction X; simpl; [now destruct s | congruence] | assumption]. Qed.

(** [find_first_of(c, n)] finds a position at or after [n], inside the
    line. *)
Lemma index_bounds n c s m :
  String.index n (String c EmptyString) s = Some m -> (n <= m /\ m < String.length s)%nat.
Proof.
  revert n m; induction s as [|a s IH]; intros [|n] m; simpl.
  - discriminate.
  - discriminate.
  - destruct (ascii_dec c a); [destruct s; intros [= <-]; lia|].
    destruct (String.index 0 (String c EmptyString) s) as [k|] eqn:E; [|discriminate].
    intros [= <-]. apply IH in E. lia.
  - destruct (String.index n (String c EmptyString) s) as [k|] eqn:E; [|discriminate].
    intros [= <-]. apply IH in E. lia.
Qed.

(** The comma loop returns when its fuel exceeds what is left of the
    line after [pos]: each turn moves [pos] past a comma. *)
Lemma comma_loop_total fuel line pos prev :
  (String.length line - pos < fuel)%nat -> exists fields last, comma_loop fuel line pos prev = Some (fields, last).
Proof.
  revert pos prev; induction fuel as [|fuel IH]; intros pos prev Hf; [lia|]. cbn [comma_loop].
  destruct (String.index pos (String "," EmptyString) line) as [p|] eqn:E; [|eauto].
  apply index_bounds in E. destruct (IH (S p) (S p)) as (fs & l & ->); [lia|].
  cbn [mbind option_bind]. eauto.
Qed.

Lemma index_shift0 P c s :
  String.index (String.length P) c (String.append P s) =
  option_map (Nat.add (String.length P)) (String.index 0 c s).
Proof. rewrite <- index_shift. now rewrite Nat.add_0_r. Qed.

(** Discharges [forall a, In a digit_chars -> Ascii.eqb a c = false]
    for a concrete [c]. *)
Ltac not_digit := intros ? Hin; repeat destruct Hin as [<-|Hin]; [reflexivity ..| destruct Hin].

Lemma uint_of_string_digits d :
  exists d', NilZero.uint_of_string (NilZero.string_of_uint d) = Some d' /\ N.of_uint d' = N.of_uint d.
Proof.
  destruct (NilZero.usu_gen d) as [E|E]; rewrite E; eexists; split; eauto.
  destruct d; try reflexivity; rewrite NilZero.usu in E by discriminate; congruence.
Qed.

Lemma digits_head d :
  exists a r, NilZero.string_of_uint d = String a r /\ Ascii.eqb a "-" = false.
Proof. destruct d; simpl; eauto. Qed.

Lemma dec_stof_body (neg : bool) d :
  dec_stof ((if neg then String "-" else fun s : string => s)
              (String.append (NilZero.string_of_uint d) (String "e" (String "-" (String "6" EmptyString)))))
  = Some (Qred ((if neg then -1 else 1) * (inject_Z (Z.of_N (N.of_uint d)) + inject_Z 0 / inject_Z 1)
                * Qpower 10 (-6))).
Proof.
  destruct (digits_head d) as (a & r & Hd & Ha).
  assert (He : no_char "e" (NilZero.string_of_uint d)) by (apply no_char_digits0; not_digit).
  assert (Hp : no_char "." (NilZero.string_of_uint d)) by (apply no_char_digits0; not_digit).
  unfold no_char in He, Hp.
  destruct (uint_of_string_digits d) as (d' & Hu & Hv).
  unfold dec_stof.
  assert (Hb : forall s, (if neg then String "-" else fun s : string => s) s =
                         if neg then String "-" s else s) by (destruct neg; reflexivity).
  rewrite Hb; clear Hb.
  set (T := String "e" (String "-" (String "6" EmptyString))).
  destruct neg;
  [ rewrite Ascii.eqb_refl; cbv beta iota | rewrite Hd; cbn [String.append]; rewrite Ha;
      replace (String a (String.append r T)) with (String.append (NilZero.string_of_uint d) T)
        by (now rewrite Hd)];
  unfold T; rewrite (split_char_app _ _ _ He), Hp; cbn [mbind option_bind]; rewrite Hu;
  cbn; rewrite Hv; reflexivity.
Qed.

Lemma dec_stof_print q : dec_stof (dec_print q) = Some (dec_fround q).
Proof.
  unfold dec_print, dec_fround.
  set (z := micro q).
  assert (Hs : forall tl, (if (z <? 0)%Z then String "-" tl else tl) =
                          (if (z <? 0)%Z then String "-" else fun s : string => s) tl)
    by (destruct (z <? 0)%Z; reflexivity).
  rewrite Hs, dec_stof_body, DecimalN.Unsigned.of_to. f_equal.
  apply Qred_complete.
  destruct (Z.ltb_spec z 0); unfold Qeq; simpl; lia.
Qed.

Lemma no_char_dec_print c q :
  (forall a, In a ("-" :: "e" :: digit_chars)%char -> Ascii.eqb a c = false) ->
  no_char c (dec_print q).
Proof.
  intros Hc.
  assert (Hx : no_char c (String.append (NilZero.string_of_uint (N.to_uint (Z.abs_N (micro q))))
                                      (String "e" (String "-" (String "6" EmptyString))))).
  { apply no_char_append.
    - apply no_char_digits0. intros a Ha. apply Hc. simpl in *; tauto.
    - unfold no_char; cbn [split_char]. rewrite !Hc by (simpl; tauto). reflexivity. }
  unfold dec_print. destruct (micro q <? 0)%Z; [|exact Hx].
  unfold no_char in *; cbn [split_char]. rewrite Hc by (simpl; tauto). now rewrite Hx.
Qed.

(** Printing in six decimals with [stof] on decimal text is an
    instance of [FloatText]. *)
#[export] Instance DecimalText : FloatText := {|
  stof := dec_stof;
  print_float := dec_print;
  fround := dec_fround;
  stof_print := dec_stof_print;
  print_no_comma q := index_no_char _ _ (no_char_dec_print ","%char q ltac:(not_digit));
  print_no_newline q := index_no_char _ _ (no_char_dec_print nl q ltac:(not_digit));
  stof_empty := eq_refl
|}.

Section Generic.
Context `{FloatText}.

Lemma print_no_char_comma q : no_char "," (print_float q).
Proof. apply index_none_no_char, print_no_comma. Qed.

Lemma print_no_char_nl q : no_char nl (print_float q).
Proof. apply index_none_no_char, print_no_newline. Qed.

Lemma write_row_cons v row :
  write_row (v :: row) = String.append (print_float v) (String "," (write_row row)).
Proof. reflexivity. Qed.

Lemma write_row_no_nl row : no_char nl (write_row row).
Proof.
  induction row as [|v row IH]; [reflexivity|]. rewrite write_row_cons.
  apply no_char_append; [apply print_no_char_nl|].
  unfold no_char in *; cbn [split_char]. now rewrite IH.
Qed.

(** The comma loop on a line that starts with what the writer produces
    for [row] and goes on with a text [T] without comma, from any
    offset [P]: one field per value, and [prev_pos] ends where [T]
    starts. *)
Lemma comma_loop_row fuel P row T :
  no_char "," T -> (length row < fuel)%nat ->
  comma_loop fuel (String.append P (String.append (write_row row) T)) (String.length P) (String.length P)
  = Some (map print_float row, (String.length P + String.length (write_row row))%nat).
Proof.
  intros HT. revert fuel P; induction row as [|v row IH]; intros [|fuel] P Hf; simpl in Hf; try lia.
  - cbn [comma_loop]. cbn [write_row fold_right String.append]. rewrite index_shift0, index_no_char by exact HT.
    cbn. now rewrite Nat.add_0_r.
  - cbn [comma_loop]. rewrite write_row_cons, append_assoc_str. cbn [String.append].
    rewrite index_shift0, index_first by apply print_no_char_comma.
    cbn [option_map].
    set (P' := String.append P (String.append (print_float v) (String "," EmptyString))).
    assert (HP : String.append P (String.append (print_float v) (String "," (String.append (write_row row) T)))
                 = String.append P' (String.append (write_row row) T))
      by (unfold P'; rewrite !append_assoc_str; reflexivity).
    assert (HL : S (String.length P + String.length (print_float v)) = String.length P')
      by (unfold P'; rewrite !length_append_str; simpl; lia).
    rewrite HP, HL, IH by lia. cbn [mbind option_bind].
    rewrite <- HP, Nat.add_sub_swap, Nat.sub_diag, Nat.add_0_l by lia.
    rewrite substring_prefix, length_append_str. unfold P'.
    rewrite !length_append_str. simpl. do 2 f_equal. lia.
Qed.

Lemma length_row_le row : (length row <= String.length (write_row row))%nat.
Proof. induction row; [simpl; lia|]. rewrite write_row_cons, length_append_str. simpl; lia. Qed.

Lemma comma_fields_row row T :
  no_char "," T ->
  comma_fields (String.append (write_row row) T)
  = Some (map print_float row, String.length (write_row row)).
Proof.
  intros HT. unfold comma_fields. apply (comma_loop_row _ EmptyString row T HT).
  rewrite length_append_str. pose proof (length_row_le row). lia.
Qed.

Lemma getlines_from_line s t cur b :
  no_char nl s ->
  getlines_from (String.append s (String nl t)) cur b = String.append cur s :: getlines_from t EmptyString false.
Proof.
  unfold no_char. revert cur b; induction s as [|a s IH]; intros cur b; simpl.
  - intros _. now rewrite append_empty_str.
  - destruct (Ascii.eqb a nl) eqn:Ha; [discriminate|].
    destruct (split_char nl s) eqn:E. intros [= -> ->].
    rewrite IH by reflexivity. now rewrite append_assoc_str.
Qed.

Lemma getlines_csv_lines lines :
  Forall (no_char nl) lines -> getlines (csv_lines lines) = lines.
Proof.
  unfold getlines. induction 1 as [|l lines Hl _ IH]; [reflexivity|].
  cbn [csv_lines fold_right]. rewrite getlines_from_line by exact Hl. simpl. now f_equal.
Qed.

(** [CMCPtr[j++] = stof(field)] over the printed values of a row, at
    flat offset [length A], in a buffer [A ++ B] with room for them. *)
Lemma store_fields_row A B i j row :
  length A = (3 * i + j)%nat -> (length row <= length B)%nat ->
  store_fields (A ++ B) 3 i j (map print_float row)
  = inr (A ++ map fround row ++ drop (length row) B).
Proof.
  revert A B j; induction row as [|v row IH]; intros A B j HA HB; [reflexivity|].
  destruct B as [|b B]; simpl in HB; [lia|].
  cbn [map store_fields]. rewrite stof_print. unfold write_at.
  rewrite decide_True by (rewrite length_app; simpl; lia).
  rewrite <- HA, insert_app_r_alt, Nat.sub_diag by lia. cbn.
  replace (A ++ fround v :: B) with ((A ++ [fround v]) ++ B) by (now rewrite <- app_assoc).
  rewrite IH by (rewrite ?length_app; simpl; lia). now rewrite <- app_assoc.
Qed.

Lemma read_ccm_line_row A B i row T :
  length A = (3 * i)%nat -> no_char "," T -> (length row <= length B)%nat ->
  read_ccm_line (A ++ B) i (String.append (write_row row) T)
  = inr (A ++ map fround row ++ drop (length row) B).
Proof.
  intros HA HT HB. unfold read_ccm_line. rewrite comma_fields_row by exact HT.
  apply store_fields_row; lia.
Qed.

(** The CCM reader on lines [write_row (pre r) ++ tl r], each giving [k]
    values, into a zero-initialised buffer: the [k] values of each line,
    the rest of its row left at zero. *)
Lemma read_ccm_lines_rows (k : nat) (pre : list Q -> list Q) (tl : list Q -> string) A n i rows :
  length A = (3 * i)%nat -> (k <= 3)%nat -> (3 * length rows <= n)%nat ->
  Forall (fun r => length (pre r) = k /\ no_char "," (tl r)) rows ->
  read_ccm_lines (A ++ replicate n 0) i (map (fun r => String.append (write_row (pre r)) (tl r)) rows)
  = inr (A ++ concat (map (fun r => map fround (pre r) ++ replicate (3 - k) 0) rows)
           ++ replicate (n - 3 * length rows) 0).
Proof.
  intros HA Hk Hn Hrows. revert A n i HA Hn.
  induction Hrows as [|r rows [Hlen HT] _ IH]; intros A n i HA Hn; simpl in Hn |- *.
  - now rewrite Nat.sub_0_r.
  - rewrite read_ccm_line_row by first [exact HT | rewrite ?length_replicate; lia].
    rewrite Hlen, drop_replicate.
    replace (n - k)%nat with ((3 - k) + (n - 3))%nat by lia. rewrite replicate_add.
    rewrite !app_assoc, IH by (rewrite ?length_app, ?length_map, ?length_replicate; lia).
    rewrite <- !app_assoc. now replace (n - 3 - 3 * length rows)%nat with (n - 3 * S (length rows))%nat by lia.
Qed.

Lemma store_fields_app buf ncols i j xs ys :
  store_fields buf ncols i j (xs ++ ys)
  = match store_fields buf ncols i j xs with
    | inl e => inl e
    | inr buf' => store_fields buf' ncols i (j + length xs) ys
    end.
Proof.
  revert buf j; induction xs as [|x xs IH]; intros buf j; simpl; [now rewrite Nat.add_0_r|].
  destruct (stof x); [|reflexivity]. destruct (write_at buf (ncols * i + j) q); [reflexivity|].
  rewrite IH. now rewrite Nat.add_succ_r.
Qed.

Lemma substring_suffix W T :
  substring (String.length W) (String.length (String.append W T) - String.length W)
            (String.append W T) = T.
Proof.
  rewrite length_append_str, Nat.add_sub_swap, Nat.sub_diag, Nat.add_0_l by lia.
  pose proof (substring_prefix W T EmptyString) as E. now rewrite append_empty_str in E.
Qed.

(** One line of [ReferenceColor.csv]: the values before the last comma
    are stored, then [stof] of the rest of the line. *)
Lemma read_reference_line_row A B i row T :
  length A = (3 * i)%nat -> no_char "," T -> (length row <= length B)%nat ->
  read_reference_line (A ++ B) i (String.append (write_row row) T)
  = store_fields (A ++ map fround row ++ drop (length row) B) 3 i (length row) [T].
Proof.
  intros HA HT HB. unfold read_reference_line. rewrite comma_fields_row by exact HT.
  rewrite store_fields_app, store_fields_row by lia.
  now rewrite length_map, substring_suffix.
Qed.

(** [sep_row] on a row of three values: the writer's text for the
    first two, then the third. *)
Lemma sep_row3 r :
  length r = 3%nat -> sep_row r = String.append (write_row (take 2 r)) (print_float (nth 2 r 0)).
Proof.
  intros Hr. do 4 (destruct r as [|? r]; simpl in Hr; try lia).
  cbn [sep_row take nth]. rewrite !write_row_cons. cbn [write_row fold_right].
  rewrite !append_assoc_str. cbn [String.append]. now rewrite !append_assoc_str.
Qed.

Lemma shape3_cases C :
  shape3 C -> exists a b c d e f g h i, C = [[a; b; c]; [d; e; f]; [g; h; i]].
Proof.
  intros [HC Hr]. do 4 (destruct C as [|?row C]; simpl in HC; try lia).
  rewrite !Forall_cons_iff in Hr. destruct Hr as (L1 & L2 & L3 & _).
  do 4 (destruct row as [|? row]; simpl in L1; try lia).
  do 4 (destruct row0 as [|? row0]; simpl in L2; try lia).
  do 4 (destruct row1 as [|? row1]; simpl in L3; try lia).
  eauto 10.
Qed.

Lemma read_ccm_lines_app buf i xs ys :
  read_ccm_lines buf i (xs ++ ys)
  = match read_ccm_lines buf i xs with
    | inl e => inl e
    | inr buf' => read_ccm_lines buf' (i + length xs) ys
    end.
Proof.
  revert buf i; induction xs as [|x xs IH]; intros buf i; simpl; [now rewrite Nat.add_0_r|].
  destruct (read_ccm_line buf i x); [reflexivity|]. rewrite IH. now rewrite Nat.add_succ_r.
Qed.

Lemma map_row3 {B} (f : Q -> B) (r : list Q) :
  length r = 3%nat -> map f r = map f (take 2 r) ++ [f (nth 2 r 0)].
Proof. intros Hr. do 4 (destruct r as [|? r]; simpl in Hr; try lia). reflexivity. Qed.

(** The reference reader on lines [a,b,c] (no comma after the last
    value): all three values of every line, in order. *)
Lemma read_reference_lines_rows A B i rows :
  length A = (3 * i)%nat -> (3 * length rows <= length B)%nat ->
  Forall (fun r => length r = 3%nat) rows ->
  read_reference_lines (A ++ B) i
    (map (fun r => String.append (write_row (firstn 2 r)) (print_float (nth 2 r 0))) rows)
  = inr (A ++ concat (map (map fround) rows) ++ drop (3 * length rows) B).
Proof.
  intros HA HB Hrows. revert A B i HA HB.
  induction Hrows as [|r rows Hr _ IH]; intros A B i HA HB; simpl in HB |- *; [reflexivity|].
  rewrite read_reference_line_row by first [apply print_no_char_comma | rewrite ?length_take, ?Hr; lia].
  rewrite length_firstn, Hr. cbn [Nat.min].
  rewrite app_assoc, (store_fields_row _ _ _ _ [nth 2 r 0]) by (rewrite ?length_app, ?length_map, ?length_take, ?Hr, ?length_drop; simpl; lia).
  rewrite drop_drop, app_assoc, IH by (rewrite ?length_app, ?length_map, ?length_take, ?Hr, ?length_drop; simpl; lia).
  rewrite <- !app_assoc, drop_drop. cbn [map app].
  rewrite (map_row3 _ r Hr), <- !app_assoc. cbn [app length].
  repeat f_equal. lia.
Qed.

(** The lines [LCC_CMC] writes for a [3 x 3] matrix. *)
Lemma getlines_written C :
  shape3 C -> getlines (write_ccm C) = map (fun r => write_row (take 3 r)) C.
Proof.
  intros [HC _]. unfold write_ccm. rewrite take_ge by lia.
  apply getlines_csv_lines, Forall_map, Forall_forall. intros. apply write_row_no_nl.
Qed.

(** Those lines, read back into the zero-initialised [ColorMatrix]: its
    nine floats, as printed and parsed. *)
Lemma read_ccm_lines_written C :
  shape3 C ->
  read_ccm_lines (replicate 9 0) 0 (map (fun r => write_row (take 3 r)) C)
  = inr (concat (map (map fround) C)).
Proof.
  intros HS. pose proof HS as [HC Hrows]. rewrite Forall_forall in Hrows.
  rewrite (map_ext_in _ (fun r => String.append (write_row (take 3 r)) EmptyString))
    by (intros; now rewrite append_empty_str).
  change (replicate 9 0) with ([] ++ replicate 9 0).
  rewrite (read_ccm_lines_rows 3 (take 3) (fun _ => EmptyString))
    by first [reflexivity | lia
             | apply Forall_forall; intros r Hr; split; [rewrite length_take, Hrows by exact Hr; lia | reflexivity]].
  destruct (shape3_cases C HS) as (?&?&?&?&?&?&?&?&?&->). reflexivity.
Qed.

Lemma csv_lines_app xs ys :
  String.append (csv_lines xs) (csv_lines ys) = csv_lines (xs ++ ys).
Proof.
  induction xs as [|x xs IH]; [reflexivity|]. simpl.
  rewrite append_assoc_str. simpl. do 2 f_equal. exact IH.
Qed.

End Generic.

(** Replaces a [3 x 3] matrix by its nine entries. *)
Ltac shape3_subst HS := destruct (shape3_cases _ HS) as (?&?&?&?&?&?&?&?&?&->).

Section Roundtrip.
Context `{FloatText}.

(** The matrix file [LCC_CMC] writes reads back as the printed and
    parsed matrix. *)
Lemma ccm_text_roundtrip C :
  shape3 C -> readColorCorrectionMatrix (write_ccm C) = inr (map (map fround) C).
Proof.
  intros HS. unfold readColorCorrectionMatrix.
  rewrite getlines_written, read_ccm_lines_written by exact HS.
  shape3_subst HS. reflexivity.
Qed.

(** The reference reader on 24 lines of three comma-separated values. *)
Lemma reference_text_rows rows :
  length rows = 24%nat -> Forall (fun r => length r = 3%nat) rows ->
  read_reference (csv_lines (map sep_row rows)) = inr (concat (map (map fround) rows)).
Proof.
  intros Hn Hrows. pose proof Hrows as Hr'. rewrite Forall_forall in Hr'.
  unfold read_reference.
  rewrite (map_ext_in _ (fun r => String.append (write_row (take 2 r)) (print_float (nth 2 r 0))))
    by (intros r Hr; apply sep_row3, Hr', list_elem_of_In, Hr).
  rewrite getlines_csv_lines
    by (apply Forall_map, Forall_forall; intros; apply no_char_append; [apply write_row_no_nl | apply print_no_char_nl]).
  change (replicate 72 0) with ([] ++ replicate 72 0).
  rewrite read_reference_lines_rows by (rewrite ?length_replicate; lia || assumption || reflexivity).
  rewrite Hn, drop_replicate. cbn [app replicate Nat.sub Nat.mul Nat.add]. now rewrite app_nil_r.
Qed.

End Roundtrip.

End CSVFacts.

Module CSVProps.
Import CCMApply CSV CSVFacts.

(** The identity CCM, and a colour chart of 24 patches. *)
Definition I3 : CMat := [[1; 0; 0]; [0; 1; 0]; [0; 0; 1]].

Definition chart24 : list (list Q) := repeat [1#2; 1#4; 1#8] 24.

Section Claims.
Context `{FloatText}.

(** C8: round trip of the CCM file: the text [LCC_CMC] writes to
    [ref/LCC_CMC.csv] for a [3 x 3] matrix, read back by [LCC]'s loop
    (and [readColorCorrectionMatrix]), gives the matrix with each entry
    as printed and parsed ([fround]). *)
Theorem ccm_csv_roundtrip C :
  shape3 C -> readColorCorrectionMatrix (write_ccm C) = inr (map (map fround) C).
Proof. exact (ccm_text_roundtrip C). Qed.

(** C10: the comma loop of the readers terminates on every line: with
    the fuel [comma_fields] gives it (one more than the length of the
    line) it always returns the fields and the final [prev_pos], so no
    reader stops with [LoopFuel]. *)
Theorem comma_fields_terminates line :
  exists fields prev_pos, comma_fields line = Some (fields, prev_pos).
Proof. apply comma_loop_total. lia. Qed.

(** C33: the CCM readers drop the last value of a line that does not
    end with a comma: a [3 x 3] matrix written as values separated by
    commas (the CSV the spec describes, trailing comma optional) is
    read with its third column zero. *)
Theorem ccm_reader_drops_last_value C :
  shape3 C ->
  readColorCorrectionMatrix (csv_lines (map sep_row C))
  = inr (map (fun r => [fround (nth 0 r 0); fround (nth 1 r 0); 0]) C).
Proof.
  intros HS. pose proof HS as [HC Hrows]. rewrite Forall_forall in Hrows.
  unfold readColorCorrectionMatrix.
  rewrite (map_ext_in _ (fun r => String.append (write_row (take 2 r)) (print_float (nth 2 r 0))))
    by (intros r Hr; apply sep_row3, Hrows, list_elem_of_In, Hr).
  rewrite getlines_csv_lines
    by (apply Forall_map, Forall_forall; intros; apply no_char_append; [apply write_row_no_nl | apply print_no_char_nl]).
  change (replicate 9 0) with ([] ++ replicate 9 0).
  rewrite (read_ccm_lines_rows 2 (take 2) (fun r => print_float (nth 2 r 0)))
    by first [reflexivity | lia
             | apply Forall_forall; intros r Hr; split;
               [rewrite length_take, Hrows by exact Hr; lia | apply print_no_char_comma]].
  shape3_subst HS. reflexivity.
Qed.

(** C9: [LCC_CMC] reads the 24 reference colours of a
    [ReferenceColor.csv] whose lines are three values separated by
    commas: the 72 floats of [ReferenceColor], row after row. *)
Theorem reference_reads_rows rows :
  length rows = 24%nat -> Forall (fun r => length r = 3%nat) rows ->
  read_reference (csv_lines (map sep_row rows)) = inr (concat (map (map fround) rows)).
Proof. exact (reference_text_rows rows). Qed.

(** C34: the reference reader throws on a line that ends with a comma
    (the format [LCC_CMC] itself writes): after the last comma it calls
    [std::stof] on the empty rest of the line. *)
Theorem reference_trailing_comma_throws row rest :
  (length row <= 3)%nat ->
  read_reference (String.append (write_row row) (String nl rest)) = inl (StofThrows EmptyString).
Proof.
  intros Hrow. unfold read_reference, getlines.
  rewrite getlines_from_line by apply write_row_no_nl. cbn [String.append read_reference_lines].
  rewrite <- (append_empty_str (write_row row)) at 1.
  change (replicate 72 0) with ([] ++ replicate 72 0).
  rewrite read_reference_line_row by (rewrite ?length_replicate; lia || reflexivity).
  cbn [store_fields]. now rewrite stof_empty.
Qed.

(** C35: a CCM file with a fourth line makes the reader write past the
    nine floats of [ColorMatrix]: [ColorMatrix.ptr<float>(3)[0]] is
    float 9 of a [3 x 3] matrix. *)
Theorem ccm_fourth_line_overflows C r :
  shape3 C -> r <> [] ->
  readColorCorrectionMatrix (String.append (write_ccm C) (csv_lines [write_row r]))
  = inl (WriteOutOfMatrix 9).
Proof.
  intros HS Hr. unfold readColorCorrectionMatrix. pose proof HS as [HC _].
  unfold write_ccm at 1. rewrite csv_lines_app, getlines_csv_lines.
  2: { apply Forall_app; split; [|repeat constructor; apply write_row_no_nl].
       apply Forall_map, Forall_forall. intros. apply write_row_no_nl. }
  rewrite take_ge, read_ccm_lines_app, read_ccm_lines_written by (lia || exact HS).
  destruct r as [|v r]; [congruence|]. cbn [read_ccm_lines].
  unfold read_ccm_line. rewrite <- (append_empty_str (write_row (v :: r))).
  rewrite comma_fields_row by reflexivity. cbn [map store_fields]. rewrite stof_print.
  unfold write_at. rewrite length_map, HC. shape3_subst HS. reflexivity.
Qed.

End Claims.

Lemma ccm_csv_roundtrip_witness :
  shape3 I3 /\ readColorCorrectionMatrix (write_ccm I3) = inr I3.
Proof.
  assert (HS : shape3 I3) by (split; [reflexivity | repeat constructor]).
  split; [exact HS|]. rewrite (ccm_csv_roundtrip I3 HS). vm_compute. reflexivity.
Defined.

Lemma ccm_reader_drops_last_value_witness :
  shape3 I3 /\ readColorCorrectionMatrix (csv_lines (map sep_row I3)) = inr [[1; 0; 0]; [0; 1; 0]; [0; 0; 0]].
Proof.
  assert (HS : shape3 I3) by (split; [reflexivity | repeat constructor]).
  split; [exact HS|]. rewrite (ccm_reader_drops_last_value I3 HS). vm_compute. reflexivity.
Defined.

Lemma reference_reads_rows_witness :
  length chart24 = 24%nat /\ Forall (fun r => length r = 3%nat) chart24 /\
  read_reference (csv_lines (map sep_row chart24)) = inr (concat chart24).
Proof.
  assert (H24 : length chart24 = 24%nat) by reflexivity.
  assert (H3 : Forall (fun r => length r = 3%nat) chart24) by (repeat constructor).
  split; [exact H24 | split; [exact H3|]].
  rewrite (reference_reads_rows chart24 H24 H3). vm_compute. reflexivity.
Defined.

Lemma reference_trailing_comma_throws_witness :
  (length [1; 0; 0] <= 3)%nat /\
  read_reference (String.append (write_row [1; 0; 0]) (String nl EmptyString)) = inl (StofThrows EmptyString).
Proof.
  split; [simpl; lia|]. apply reference_trailing_comma_throws. simpl; lia.
Defined.

Lemma ccm_fourth_line_overflows_witness :
  shape3 I3 /\ [1; 1; 1] <> [] /\
  readColorCorrectionMatrix (String.append (write_ccm I3) (csv_lines [write_row [1; 1; 1]]))
  = inl (WriteOutOfMatrix 9).
Proof.
  assert (HS : shape3 I3) by (split; [reflexivity | repeat constructor]).
  split; [exact HS | split; [discriminate|]].
  apply ccm_fourth_line_overflows; [exact HS | discriminate].
Defined.

End CSVProps.
