(* ===== verification/AutoAdjust.v ===== *)
(** * The automatic HSL adjustment of [auto_add_image.cpp]

    Module [AutoAdjust] models [calculateHSLStats] (the double loop that
    pushes the [h], [s], [l] of every pixel onto three vectors, and the
    [calculateMeanStdDev] lambda), [determineHSLAdjustments] (the
    saturation and lightness adjustments, truncated by [int(...)] and
    clamped by [std::min]/[std::max]), [autoAdjustHSL] and [main].

    A mean is a double that may be NaN: [sum / values.size()] on an empty
    vector is [0.0 / 0], and every comparison with NaN is false; [Dbl]
    has the finite values (exact rationals, as everywhere in the
    development) and [NaN].  [stdDev] is [sqrt] of the second component
    [calculateMeanStdDev] returns; the square root is not modelled, and
    [determineHSLAdjustments] never reads [stdDevHSL].

    [autoAdjustHSL] returns [adjust_hsl(img, hAdjust, sAdjust, lAdjust,
    output_path)], a function the file neither declares nor includes;
    Section [Auto] takes the callee as a variable, and [intended_adjust]
    instantiates it with the adjuster of [process_image.cpp]
    ([HSLAdjust.adjust_hsl], the same per-pixel body). *)

From S2P Require Import Prelude ColorSpace Image HSLAdjust Pipeline.
From stdpp Require Import list.

Open Scope Q_scope.

Module AutoAdjust.
Import Image HSLConv HSLAdjust.

(** A double as the code can produce it: finite, or NaN. *)
Inductive Dbl := Fin (q : Q) | NaN.

(** The three vectors [hValues], [sValues], [lValues]. *)
Record Values := mkValues { hValues : list Q; sValues : list Q; lValues : list Q }.

(** [Vec3b pixel = img.at<Vec3b>(y, x);
     HSL hsl = rgb_to_hsl(pixel[2], pixel[1], pixel[0]);
     hValues.push_back(hsl.h); sValues.push_back(hsl.s); lValues.push_back(hsl.l);] *)
Definition push_pixel (acc : Values) (px : Vec3b) : Values :=
  let c := hsl_of_pixel px in
  mkValues (hValues acc ++ [h c]) (sValues acc ++ [s c]) (lValues acc ++ [l c]).

(** [for (int x = x0; x < x0 + n; x++)] *)
Fixpoint collect_cols (img : Mat) (y x n : nat) (acc : Values) : option Values :=
  match n with
  | O => Some acc
  | S n' =>
      px ← at_ img y x;
      collect_cols img y (S x) n' (push_pixel acc px)
  end.

(** [for (int y = y0; y < y0 + n; y++) for (int x = 0; x < img.cols; x++)] *)
Fixpoint collect_rows (img : Mat) (y n : nat) (acc : Values) : option Values :=
  match n with
  | O => Some acc
  | S n' =>
      acc' ← collect_cols img y 0 (cols img) acc;
      collect_rows img (S y) n' acc'
  end.

(** [std::accumulate(values.begin(), values.end(), 0.0)]. *)
Definition accumulate (values : list Q) : Q := fold_left Qplus values 0.

(** [std::inner_product(values.begin(), values.end(), values.begin(), 0.0)]. *)
Definition inner_product (values : list Q) : Q := fold_left (fun acc v => acc + v * v) values 0.

(** The [calculateMeanStdDev] lambda: the mean, and the value under the
    square root of the standard deviation; both NaN on an empty vector
    ([0.0 / 0]). *)
Definition calculateMeanStdDev (values : list Q) : Dbl * Dbl :=
  match length values with
  | O => (NaN, NaN)
  | n =>
      let mean := accumulate values / inject_Z (Z.of_nat n) in
      (Fin mean, Fin (inner_product values / inject_Z (Z.of_nat n) - mean * mean))
  end.

(** [calculateHSLStats(img, meanHSL, stdDevHSL)]: [meanHSL] and
    [stdDevHSL], each [{h, s, l}]. *)
Definition calculateHSLStats (img : Mat) : option (list Dbl * list Dbl) :=
  vals ← collect_rows img 0 (rows img) (mkValues [] [] []);
  let '(hMean, hStdDev) := calculateMeanStdDev (hValues vals) in
  let '(sMean, sStdDev) := calculateMeanStdDev (sValues vals) in
  let '(lMean, lStdDev) := calculateMeanStdDev (lValues vals) in
  Some ([hMean; sMean; lMean], [hStdDev; sStdDev; lStdDev]).

(** Lines 50-56: [meanHSL[1] < 30 ? min(50, int((30 - m) / 2))
    : meanHSL[1] > 70 ? max(-50, int((70 - m) / 2)) : 0]. *)
Definition s_adjust (m : Dbl) : Z :=
  match m with
  | Fin q =>
      if (q <? 30)%cc then Z.min 50 (Qtrunc ((30 - q) / 2))
      else if (70 <? q)%cc then Z.max (-50) (Qtrunc ((70 - q) / 2))
      else 0
  | NaN => 0
  end.

(** Lines 59-65: the same with 40, 60 and the bound 30. *)
Definition l_adjust (m : Dbl) : Z :=
  match m with
  | Fin q =>
      if (q <? 40)%cc then Z.min 30 (Qtrunc ((40 - q) / 2))
      else if (60 <? q)%cc then Z.max (-30) (Qtrunc ((60 - q) / 2))
      else 0
  | NaN => 0
  end.

(** [determineHSLAdjustments(meanHSL, stdDevHSL, hAdjust, sAdjust,
    lAdjust)]: the three out-parameters.  [meanHSL] always has three
    entries ([calculateHSLStats] assigns [{hMean, sMean, lMean}]). *)
Definition determineHSLAdjustments (meanHSL stdDevHSL : list Dbl) : Z * Z * Z :=
  (0%Z, s_adjust (nth 1 meanHSL NaN), l_adjust (nth 2 meanHSL NaN)).

Section Auto.
(** The [adjust_hsl(img, h, s, l, output_path)] [autoAdjustHSL] calls. *)
Variable adjust_hsl5 : Mat -> Z -> Z -> Z -> option Mat.

(** [Mat autoAdjustHSL(img, output_path)]. *)
Definition autoAdjustHSL (img : Mat) : option Mat :=
  '(meanHSL, stdDevHSL) ← calculateHSLStats img;
  let '(hAdjust, sAdjust, lAdjust) := determineHSLAdjustments meanHSL stdDevHSL in
  adjust_hsl5 img hAdjust sAdjust lAdjust.

End Auto.

(** The callee as the rest of the repository writes it: [adjust_hsl] of
    [process_image.cpp] on the image, the [int]s converted to doubles. *)
Definition intended_adjust (img : Mat) (hA sA lA : Z) : option Mat :=
  adjust_hsl img (inject_Z hA) (inject_Z sA) (inject_Z lA).

(** [main] on the image [imread] returned: the exit code, and the image
    [autoAdjustHSL] returns. *)
Definition auto_main (img : Mat) : Z * option Mat :=
  if mat_empty img then ((-1)%Z, None)
  else (0%Z, autoAdjustHSL intended_adjust img).

End AutoAdjust.

Module AutoAdjustFacts.
Import Image ImageFacts HSLConv HSLAdjust HSLAdjustFacts AutoAdjust.

(** The pixels of an image, in the order of the double loop. *)
Definition pixels (img : Mat) : list Vec3b := concat (data img).

Lemma push_pixels_fold (ps : list Vec3b) (acc : Values) :
  fold_left push_pixel ps acc =
  mkValues (hValues acc ++ map (fun px => h (hsl_of_pixel px)) ps)
           (sValues acc ++ map (fun px => s (hsl_of_pixel px)) ps)
           (lValues acc ++ map (fun px => l (hsl_of_pixel px)) ps).
Proof.
  revert acc; induction ps as [|px ps IH]; intros [hv sv lv]; simpl.
  - now rewrite !app_nil_r.
  - rewrite IH. simpl. now rewrite <- !app_assoc.
Qed.

Lemma collect_cols_spec (img : Mat) (y x n : nat) (row : list Vec3b) (acc : Values) :
  data img !! y = Some row -> (x + n = length row)%nat ->
  collect_cols img y x n acc = Some (fold_left push_pixel (drop x row) acc).
Proof.
  intros Hy. revert x acc; induction n as [|n IH]; intros x acc Hn; simpl.
  - now rewrite drop_ge by lia.
  - destruct (lookup_lt_is_Some_2 row x ltac:(lia)) as [px Hpx].
    unfold at_. rewrite Hy. simpl. rewrite Hpx. simpl.
    rewrite IH by lia. now rewrite (drop_S row px x Hpx).
Qed.

Lemma collect_rows_spec (img : Mat) (y n : nat) (acc : Values) :
  mat_wf img -> (y + n = rows img)%nat ->
  collect_rows img y n acc = Some (fold_left push_pixel (concat (drop y (data img))) acc).
Proof.
  intros [Hlen Hrows]. revert y acc; induction n as [|n IH]; intros y acc Hn; simpl.
  - now rewrite drop_ge by lia.
  - destruct (lookup_lt_is_Some_2 (data img) y ltac:(lia)) as [row Hy].
    pose proof (proj1 (Forall_lookup _ _) Hrows y row Hy) as [Hc _].
    rewrite (collect_cols_spec img y 0 (cols img) row) by (assumption || lia). simpl.
    rewrite IH by lia. rewrite (drop_S _ row y Hy). simpl. now rewrite fold_left_app.
Qed.

(** The double loop of [calculateHSLStats] pushes the HSL of every
    pixel, in order. *)
Lemma collect_values (img : Mat) :
  mat_wf img ->
  collect_rows img 0 (rows img) (mkValues [] [] [])
  = Some (mkValues (map (fun px => h (hsl_of_pixel px)) (pixels img))
                   (map (fun px => s (hsl_of_pixel px)) (pixels img))
                   (map (fun px => l (hsl_of_pixel px)) (pixels img))).
Proof. intros Hwf. rewrite collect_rows_spec by (assumption || lia). now rewrite push_pixels_fold. Qed.

Lemma accumulate_bounds (lo hi : Q) (vs : list Q) (a : Q) :
  Forall (fun v => lo <= v <= hi) vs ->
  a + lo * inject_Z (Z.of_nat (length vs)) <= fold_left Qplus vs a
  <= a + hi * inject_Z (Z.of_nat (length vs)).
Proof.
  intros Hvs. revert a; induction Hvs as [|v vs Hv _ IH]; intros a; simpl.
  - change (inject_Z (Z.of_nat 0)) with 0. lra.
  - specialize (IH (a + v)). rewrite Nat2Z.inj_succ, <- Z.add_1_r, inject_Z_plus, !Qmult_plus_distr_r.
    change (inject_Z 1) with 1. rewrite !Qmult_1_r. lra.
Qed.

(** The mean of a nonempty vector of values in [[lo, hi]] is in
    [[lo, hi]]. *)
Lemma mean_bounds (lo hi : Q) (vs : list Q) :
  vs <> [] -> Forall (fun v => lo <= v <= hi) vs ->
  exists m sd, calculateMeanStdDev vs = (Fin m, sd) /\ lo <= m <= hi.
Proof.
  intros Hne Hvs. unfold calculateMeanStdDev.
  destruct (length vs) as [|n] eqn:E; [destruct vs; simpl in E; congruence|].
  do 2 eexists; split; [reflexivity|].
  pose proof (accumulate_bounds lo hi vs 0 Hvs) as [Hl Hh]. rewrite E in Hl, Hh.
  assert (Hn : 0 < inject_Z (Z.of_nat (S n))) by (unfold Qlt; simpl; lia).
  unfold accumulate. split.
  - apply Qle_shift_div_l; [exact Hn | lra].
  - apply Qle_shift_div_r; [exact Hn | lra].
Qed.

Lemma mean_bounds_lt (lo hi : Q) (vs : list Q) :
  vs <> [] -> Forall (fun v => lo <= v < hi) vs ->
  exists m sd, calculateMeanStdDev vs = (Fin m, sd) /\ lo <= m < hi.
Proof.
  intros Hne Hvs.
  assert (Hw : Forall (fun v => lo <= v <= hi) vs) by (eapply Forall_impl; [exact Hvs | intros ? [? ?]; split; lra]).
  destruct (mean_bounds lo hi vs Hne Hw) as (m & sd & Hc & Hm). exists m, sd. split; [exact Hc|].
  split; [apply Hm|]. unfold calculateMeanStdDev in Hc.
  destruct vs as [|v vs]; [congruence|]. apply Forall_cons in Hvs as [Hv Hvs'].
  apply Forall_cons in Hw as [_ Hw']. cbn [length] in Hc. injection Hc as <- _.
  pose proof (accumulate_bounds lo hi vs (0 + v) Hw') as [_ Hh].
  assert (Hn : 0 < inject_Z (Z.of_nat (S (length vs)))) by (unfold Qlt; simpl; lia).
  apply Qlt_shift_div_r; [exact Hn|]. unfold accumulate. cbn [fold_left].
  rewrite Nat2Z.inj_succ, <- Z.add_1_r, inject_Z_plus, Qmult_plus_distr_r.
  change (inject_Z 1) with 1. rewrite Qmult_1_r. lra.
Qed.

(** Splits on the two tests of an adjustment rule and bounds the
    truncated half-distance. *)
Ltac adjust_rule k :=
  match goal with
  | |- context [(?q <? ?c)%cc] =>
      destruct (Qlt_le_dec q c) as [?H|?H];
      [rewrite Qlt_bool_true by assumption | rewrite Qlt_bool_false by assumption]
  end;
  [| match goal with
     | |- context [(?c <? ?q)%cc] =>
         destruct (Qlt_le_dec c q) as [?H|?H];
         [rewrite Qlt_bool_true by assumption | rewrite Qlt_bool_false by assumption]
     end];
  [ match goal with |- context [Qtrunc ?x] => pose proof (Qtrunc_bounds x k) end ..| ];
  change (inject_Z k) with (Qmake k 1) in *; qconst;
  repeat match goal with H : ?P -> _ |- _ => specialize (H ltac:(split; lra)) end; lia.

Lemma s_adjust_bounds (q : Q) : 0 <= q <= 100 -> (-15 <= s_adjust (Fin q) <= 15)%Z.
Proof. intros Hq. unfold s_adjust. adjust_rule 15%Z. Qed.

Lemma l_adjust_bounds (q : Q) : 0 <= q <= 100 -> (-20 <= l_adjust (Fin q) <= 20)%Z.
Proof. intros Hq. unfold l_adjust. adjust_rule 20%Z. Qed.

Lemma pixels_ok (img : Mat) : mat_wf img -> Forall vec3b_ok (pixels img).
Proof.
  intros [_ Hrows]. apply Forall_concat. eapply Forall_impl; [exact Hrows|]. intros row [_ H]. exact H.
Qed.

Lemma map_range (P : Vec3b -> Prop) (R : Q -> Prop) (f : Vec3b -> Q) (ps : list Vec3b) :
  Forall P ps -> (forall px, P px -> R (f px)) -> Forall R (map f ps).
Proof. intros Hps Hf. apply Forall_map. eapply Forall_impl; [exact Hps | exact Hf]. Qed.

(** The statistics of a well-formed image with at least one pixel:
    three finite means, hue in [[0, 360)], saturation and lightness in
    [[0, 100]]. *)
Lemma stats_nonempty (img : Mat) :
  mat_wf img -> pixels img <> [] ->
  exists mh ms ml sds, calculateHSLStats img = Some ([Fin mh; Fin ms; Fin ml], sds) /\
    0 <= mh < 360 /\ 0 <= ms <= 100 /\ 0 <= ml <= 100.
Proof.
  intros Hwf Hne. pose proof (pixels_ok img Hwf) as Hok.
  assert (Hr := fun px H => hsl_of_pixel_range px H).
  unfold calculateHSLStats. rewrite collect_values by exact Hwf. cbn [mbind option_bind hValues sValues lValues].
  destruct (mean_bounds_lt 0 360 (map (fun px => h (hsl_of_pixel px)) (pixels img)))
    as (mh & sdh & -> & Hmh).
  { destruct (pixels img); [congruence | discriminate]. }
  { apply (map_range vec3b_ok); [exact Hok|]. intros px Hpx. apply (Hr px Hpx). }
  destruct (mean_bounds 0 100 (map (fun px => s (hsl_of_pixel px)) (pixels img)))
    as (ms & sds & -> & Hms).
  { destruct (pixels img); [congruence | discriminate]. }
  { apply (map_range vec3b_ok); [exact Hok|]. intros px Hpx. apply (Hr px Hpx). }
  destruct (mean_bounds 0 100 (map (fun px => l (hsl_of_pixel px)) (pixels img)))
    as (ml & sdl & -> & Hml).
  { destruct (pixels img); [congruence | discriminate]. }
  { apply (map_range vec3b_ok); [exact Hok|]. intros px Hpx. apply (Hr px Hpx). }
  do 4 eexists. split; [reflexivity|]. tauto.
Qed.

Lemma stats_some (img : Mat) : mat_wf img -> exists means sds, calculateHSLStats img = Some (means, sds).
Proof.
  intros Hwf. unfold calculateHSLStats. rewrite collect_values by exact Hwf. cbn [mbind option_bind].
  repeat destruct (calculateMeanStdDev _). eauto.
Qed.

(** The shape both rules of [determineHSLAdjustments] share: below [lo]
    half the distance to [lo], truncated and capped by [caph]; above
    [hi] the same towards [hi], capped by [capl]. *)
Definition rule (lo hi : Q) (capl caph : Z) (q : Q) : Z :=
  if (q <? lo)%cc then Z.min caph (Qtrunc ((lo - q) / 2))
  else if (hi <? q)%cc then Z.max capl (Qtrunc ((hi - q) / 2))
  else 0.

Lemma s_adjust_rule (q : Q) : s_adjust (Fin q) = rule 30 70 (-50) 50 q.
Proof. reflexivity. Qed.

Lemma l_adjust_rule (q : Q) : l_adjust (Fin q) = rule 40 60 (-30) 30 q.
Proof. reflexivity. Qed.

(** A rule moves towards [[lo, hi]], leaves it alone, and does nothing
    within 2 of it (the truncation of a half-distance below 1). *)
Lemma rule_direction (lo hi : Q) (capl caph : Z) (q : Q) :
  (capl <= 0 <= caph)%Z -> lo <= hi ->
  (q < lo -> (0 <= rule lo hi capl caph q)%Z) /\ (hi < q -> (rule lo hi capl caph q <= 0)%Z) /\
  (lo <= q <= hi -> rule lo hi capl caph q = 0%Z) /\
  (lo - 2 < q < lo \/ hi < q < hi + 2 -> rule lo hi capl caph q = 0%Z).
Proof.
  intros Hcap Hlh. unfold rule.
  destruct (Qlt_le_dec q lo) as [H1|H1]; [rewrite Qlt_bool_true by exact H1 | rewrite Qlt_bool_false by exact H1];
  [| destruct (Qlt_le_dec hi q) as [H2|H2]; [rewrite Qlt_bool_true by exact H2 | rewrite Qlt_bool_false by exact H2]].
  - pose proof (proj1 (Qtrunc_sign ((lo - q) / 2))) as Hs.
    assert (Hp : 0 <= (lo - q) / 2) by (qconst; lra). specialize (Hs Hp).
    split; [lia|]. split; [intros; exfalso; lra|]. split; [intros; exfalso; lra|].
    intros [[Ha _]|[Ha _]]; [|exfalso; lra].
    rewrite Qtrunc_small by (qconst; split; lra). lia.
  - pose proof (proj2 (Qtrunc_sign ((hi - q) / 2))) as Hs.
    assert (Hp : (hi - q) / 2 <= 0) by (qconst; lra). specialize (Hs Hp).
    split; [intros; exfalso; lra|]. split; [lia|]. split; [intros; exfalso; lra|].
    intros [[_ Ha]|[_ Ha]]; [exfalso; lra|].
    rewrite Qtrunc_small by (qconst; split; lra). lia.
  - repeat split; intros; lia.
Qed.

(** Without pixels every mean is [0.0 / 0]. *)
Lemma stats_empty (img : Mat) :
  mat_wf img -> pixels img = [] ->
  calculateHSLStats img = Some ([NaN; NaN; NaN], [NaN; NaN; NaN]).
Proof.
  intros Hwf He. unfold calculateHSLStats. rewrite collect_values by exact Hwf. now rewrite He.
Qed.

End AutoAdjustFacts.

Module AutoAdjustProps.
Import Image ImageFacts HSLConv HSLAdjust Pipeline PipelineFacts AutoAdjust AutoAdjustFacts.

(** A dark grey image and a well-lit colour image. *)
Definition dark_grey : Mat := mkMat 2 2 [[mkVec3b 20 20 20; mkVec3b 20 20 20]; [mkVec3b 20 20 20; mkVec3b 20 20 20]].

Definition no_pixel : Mat := mkMat 0 4 [].

(** C37: on every well-formed image, [determineHSLAdjustments] applied
    to the means [calculateHSLStats] computes gives no hue adjustment, a
    saturation adjustment in [[-15, 15]] and a lightness adjustment in
    [[-20, 20]]: the [std::min(50, ...)], [std::max(-50, ...)],
    [std::min(30, ...)] and [std::max(-30, ...)] never change a value. *)
Theorem auto_adjust_bounds (img : Mat) :
  mat_wf img ->
  exists means sds, calculateHSLStats img = Some (means, sds) /\
    let '(hA, sA, lA) := determineHSLAdjustments means sds in
    hA = 0%Z /\ (-15 <= sA <= 15)%Z /\ (-20 <= lA <= 20)%Z.
Proof.
  intros Hwf. destruct (pixels img) eqn:Hp.
  - rewrite (stats_empty img Hwf Hp). do 2 eexists. split; [reflexivity|]. simpl. lia.
  - destruct (stats_nonempty img Hwf ltac:(congruence)) as (mh & ms & ml & sds & -> & _ & Hs & Hl).
    do 2 eexists. split; [reflexivity|]. cbn [determineHSLAdjustments nth].
    split; [reflexivity|]. split; [apply s_adjust_bounds | apply l_adjust_bounds]; assumption.
Qed.

Lemma auto_adjust_bounds_witness :
  mat_wf dark_grey /\
  calculateHSLStats dark_grey <> None /\
  (exists means sds, calculateHSLStats dark_grey = Some (means, sds) /\
     let '(hA, sA, lA) := determineHSLAdjustments means sds in
     hA = 0%Z /\ (-15 <= sA <= 15)%Z /\ (-20 <= lA <= 20)%Z).
Proof.
  assert (Hwf : mat_wf dark_grey) by (apply mat_wfb_spec; vm_compute; reflexivity).
  split; [exact Hwf | split; [vm_compute; discriminate | exact (auto_adjust_bounds dark_grey Hwf)]].
Defined.

(** On an image without pixels the means are [0.0 / 0] (NaN),
    every comparison of [determineHSLAdjustments] is false, and
    [autoAdjustHSL] calls its adjuster with [(0, 0, 0)]. *)
Theorem auto_no_pixel_nan (img : Mat) :
  mat_wf img -> pixels img = [] ->
  calculateHSLStats img = Some ([NaN; NaN; NaN], [NaN; NaN; NaN]) /\
  forall adjust, autoAdjustHSL adjust img = adjust img 0%Z 0%Z 0%Z.
Proof.
  intros Hwf He. pose proof (stats_empty img Hwf He) as Hs. split; [exact Hs|].
  intros adjust. unfold autoAdjustHSL. now rewrite Hs.
Qed.

Lemma auto_no_pixel_nan_witness :
  mat_wf no_pixel /\ pixels no_pixel = [] /\
  calculateHSLStats no_pixel = Some ([NaN; NaN; NaN], [NaN; NaN; NaN]) /\
  autoAdjustHSL intended_adjust no_pixel = None.
Proof.
  assert (Hwf : mat_wf no_pixel) by (apply mat_wfb_spec; vm_compute; reflexivity).
  assert (He : pixels no_pixel = []) by reflexivity.
  destruct (auto_no_pixel_nan no_pixel Hwf He) as [Hs Ha].
  split; [exact Hwf | split; [exact He | split; [exact Hs|]]]. rewrite Ha. reflexivity.
Defined.



(** C38: the adjustments move towards the middle band: a mean
    saturation below 30 gives [sAdjust >= 0], above 70 [sAdjust <= 0],
    in [[30, 70]] zero; lightness likewise around [[40, 60]]; and a
    mean less than 2 outside a band gives no adjustment at all, since
    [int] truncates the half-distance to 0. *)
Theorem auto_adjust_direction (q : Q) :
  (q < 30 -> (0 <= s_adjust (Fin q))%Z) /\ (70 < q -> (s_adjust (Fin q) <= 0)%Z) /\
  (30 <= q <= 70 -> s_adjust (Fin q) = 0%Z) /\
  (28 < q < 30 \/ 70 < q < 72 -> s_adjust (Fin q) = 0%Z) /\
  (q < 40 -> (0 <= l_adjust (Fin q))%Z) /\ (60 < q -> (l_adjust (Fin q) <= 0)%Z) /\
  (40 <= q <= 60 -> l_adjust (Fin q) = 0%Z) /\
  (38 < q < 40 \/ 60 < q < 62 -> l_adjust (Fin q) = 0%Z).
Proof.
  rewrite s_adjust_rule, l_adjust_rule.
  destruct (rule_direction 30 70 (-50) 50 q) as (S1 & S2 & S3 & S4); [lia | lra |].
  destruct (rule_direction 40 60 (-30) 30 q) as (L1 & L2 & L3 & L4); [lia | lra |].
  replace (30 - 2) with 28 in S4 by reflexivity. replace (70 + 2) with 72 in S4 by reflexivity.
  replace (40 - 2) with 38 in L4 by reflexivity. replace (60 + 2) with 62 in L4 by reflexivity.
  tauto.
Qed.

Lemma auto_adjust_direction_witness :
  (28 < 29 < 30 \/ 70 < 29 < 72) /\ s_adjust (Fin 29) = 0%Z /\ l_adjust (Fin 10) = 15%Z.
Proof.
  assert (H : 28 < 29 < 30 \/ 70 < 29 < 72) by (left; split; reflexivity).
  split; [exact H | split; [|vm_compute; reflexivity]].
  exact (proj1 (proj2 (proj2 (proj2 (auto_adjust_direction 29)))) H).
Defined.

End AutoAdjustProps.
