(* ===== verification/Calibration.v ===== *)
(** * The calibration as a whole: [LCC_CMC] and [LCC]

    [LCC_CMC] ([mylib/Linear_CCM.cpp] lines 132-196) reads the reference
    colours, lets the user select the patches ([ROISelection]), fits the
    CCM and writes it to [ref/LCC_CMC.csv]; [LCC] (lines 198-260) reads
    that file back and applies the matrix to an image.  Module
    [Calibration] composes the models of these parts: [CSV.read_reference],
    [ROI.ROISelection], [CCMFit.LCC_fit], [CSV.write_ccm],
    [CSV.readColorCorrectionMatrix] (whose text [LCC] repeats) and
    [CCMApply.LCC_apply].  The file is its text; the session of the user
    is the list of [waitKey] ticks of the ROI model. *)

From S2P Require Import Prelude Image CCMApply CCMFit ROI CSV.
From Stdlib Require Import String.
From stdpp Require Import list.

Open Scope Q_scope.

Module Calibration.
Import Image CCMApply CCMFit ROI CSV.

(** A [24 x 3] [CV_32FC1] matrix over its 72 floats, row after row. *)
Definition mat24 (buf : list Q) : FMat := build 24 3 (fun k j => nth (3 * k + j)%nat buf 0).

(** Why [LCC_CMC] stops without writing the CCM. *)
Inductive CalError :=
  | ReferenceUnreadable (e : CsvError)   (* [std::stof] throws, or a write past [ReferenceColor] *)
  | SelectionFailed (e : RoiError)       (* [ROISelection] runs into an error *)
  | SelectionUnfinished                  (* the session ends while the loop still runs *)
  | FitShape.                            (* [operator*] on mismatched sizes *)

Section WithText.
Context `{FloatText}.

(** [void LCC_CMC(cv::Mat &img)]: the text written to
    [ref/LCC_CMC.csv]. *)
Definition LCC_CMC (img : Mat) (ticks : list Tick) (ref_text : string) : CalError + string :=
  match read_reference ref_text with
  | inl e => inl (ReferenceUnreadable e)
  | inr ReferenceColor =>
      match ROISelection img ticks with
      | Failed e => inl (SelectionFailed e)
      | Running _ => inl SelectionUnfinished
      | Exited st =>
          match LCC_fit (mat24 (OriginalColor st)) (mat24 ReferenceColor) with
          | None => inl FitShape
          | Some ColorMatrix => inr (write_ccm (to_cmat ColorMatrix))
          end
      end
  end.

(** [void LCC(cv::Mat &img, cv::Mat &Dst)]: the matrix read from the
    text of [ref/LCC_CMC.csv] (the reading loop is the text of
    [readColorCorrectionMatrix]), then the byte loop. *)
Definition LCC (ccm_text : string) (img : Mat) : CsvError + option Mat :=
  match readColorCorrectionMatrix ccm_text with
  | inl e => inl e
  | inr ColorMatrix => inr (LCC_apply ColorMatrix img)
  end.

End WithText.

End Calibration.

Module CalibrationFacts.
Import Image CCMApply CCMFit CCMFitFacts ROI ROIFacts CSV CSVFacts Calibration.

Lemma entry_mat24 (buf : list Q) (k j : nat) :
  (k < 24)%nat -> (j < 3)%nat -> entry (mat24 buf) k j = nth (3 * k + j) buf 0.
Proof. intros Hk Hj. unfold mat24. now rewrite entry_build. Qed.

(** Float [3k + j] of rows of three values is value [j] of row [k]. *)
Lemma nth_concat3 (rows : list (list Q)) (k j : nat) (d : Q) :
  Forall (fun r => length r = 3%nat) rows -> (j < 3)%nat ->
  nth (3 * k + j) (concat rows) d = nth j (nth k rows []) d.
Proof.
  intros Hrows Hj. revert k; induction Hrows as [|r rows Hr _ IH]; intros k.
  - destruct k; simpl; now destruct j.
  - cbn [concat]. destruct k as [|k].
    + rewrite app_nth1 by lia. reflexivity.
    + rewrite app_nth2 by lia. rewrite Hr. replace (3 * S k + j - 3)%nat with (3 * k + j)%nat by lia.
      apply IH.
Qed.

Lemma nth_map_rows (f : Q -> Q) (rows : list (list Q)) (k : nat) :
  nth k (map (map f) rows) [] = map f (nth k rows []).
Proof. revert k; induction rows as [|r rows IH]; intros [|k]; simpl; auto. Qed.

(** A row of [O] that is zero takes the matching row of [R] out of the
    fit: two reference matrices that differ only there give the same
    CCM, entry for entry. *)
Lemma fit_ignores_zero_row (O R R' : FMat) (z : nat) :
  fcols O = 3%nat -> frows R = frows O -> frows R' = frows O -> fcols R' = fcols R ->
  (forall l, (l < 3)%nat -> entry O z l == 0) ->
  (forall k j, (k < frows O)%nat -> k <> z -> (j < fcols R)%nat -> entry R k j == entry R' k j) ->
  exists X X', LCC_fit O R = Some X /\ LCC_fit O R' = Some X' /\ fmat_eq X X'.
Proof.
  intros H3 HR HR' Hc Hz Heq.
  destruct (LCC_fit_spec O R H3 HR) as (Inv & X & EI & EX & Xr & Xc & _ & HX).
  destruct (LCC_fit_spec O R' H3 HR') as (Inv' & X' & EI' & EX' & Xr' & Xc' & _ & HX').
  rewrite EI in EI'. injection EI' as <-.
  exists X, X'. split; [exact EX|]. split; [exact EX'|]. split; [congruence|]. split; [congruence|].
  intros i j Hi Hj. rewrite Xr in Hi. rewrite Xc in Hj.
  rewrite HX, HX' by congruence. apply sumq_ext. intros l Hl. apply Qmult_comp; [reflexivity|].
  unfold cross. apply sumq_ext. intros k Hk.
  destruct (Nat.eq_dec k z) as [->|Hne].
  - rewrite (Hz l Hl). ring.
  - rewrite (Heq k j Hk Hne Hj). reflexivity.
Qed.

End CalibrationFacts.

Module CalibrationProps.
Import Image CCMApply CCMFit CCMFitFacts ROI ROIFacts CSV CSVFacts Calibration CalibrationFacts ROIProps CSVProps.

(** An 18 x 6 image of three colour blocks, a session that drags one
    patch in each block and presses ESC, the state it exits with, and a
    reference chart that differs from [chart24] in its last line. *)
Definition block (b g r : Z) : list Vec3b := repeat (mkVec3b b g r) 6.

Definition img3 : Mat :=
  mkMat 6 18 (repeat (block 200 10 10 ++ block 10 200 10 ++ block 10 10 200) 6).

Definition session3 : list Tick := [mkTick [] (-1); drag 0 0; drag 6 0; drag 12 0; mkTick [] 27].

Definition st3 : RoiState :=
  match ROISelection img3 session3 with Exited st => st | _ => roi_init end.

Definition chart24' : list (list Q) := firstn 23 chart24 ++ [[1; 1; 1]].

Section Claims.
Context `{FloatText}.

(** C11: the calibration end to end.  When the patch selection exits
    with the measured colours [O] (the 24 x 3 [OriginalColor]), the
    reference file holds 24 lines of three values [R] and [O^T O] is
    invertible, [LCC_CMC] writes a matrix [X] that solves the normal
    equations [O^T O X = O^T R] (with [R] as [std::stof] parsed it),
    and [LCC] reading that file applies [X] as printed and parsed. *)
Theorem calibration_end_to_end (img : Mat) (ticks : list Tick) (st : RoiState) (Rrows : list (list Q)) :
  ROISelection img ticks = Exited st ->
  length Rrows = 24%nat -> Forall (fun r => length r = 3%nat) Rrows ->
  ~ det3 (gram (mat24 (OriginalColor st))) == 0 ->
  exists X, LCC_CMC img ticks (csv_lines (map sep_row Rrows)) = inr (write_ccm (to_cmat X)) /\
    (forall i j, (i < 3)%nat -> (j < 3)%nat ->
       sumq 3 (fun m => entry (gram (mat24 (OriginalColor st))) i m * entry X m j)
       == cross (mat24 (OriginalColor st)) (mat24 (concat (map (map fround) Rrows))) i j) /\
    forall img', LCC (write_ccm (to_cmat X)) img' = inr (LCC_apply (map (map fround) (to_cmat X)) img').
Proof.
  intros Hexit Hn Hrows Hd. unfold LCC_CMC. rewrite reference_text_rows by assumption. rewrite Hexit.
  set (O := mat24 (OriginalColor st)). set (R := mat24 (concat (map (map fround) Rrows))).
  destruct (LCC_fit_solves O R eq_refl eq_refl Hd) as (X & EX & Xr & Xc & HN).
  destruct (LCC_fit_spec O R eq_refl eq_refl) as (_ & X' & _ & EX' & _ & _ & [Xl Xf] & _).
  rewrite EX in EX'. injection EX' as <-.
  exists X. rewrite EX. split; [reflexivity|]. split; [exact HN|].
  intros img'. unfold LCC. rewrite ccm_text_roundtrip; [reflexivity|].
  split; [unfold to_cmat; rewrite Xl, Xr; reflexivity | rewrite Xc in Xf; exact Xf].
Qed.

(** C12: the 24th reference colour never counts.  Whatever the session,
    [ROISelection] exits with the last row of [OriginalColor] still 0
    (recording the 24th patch writes past the matrix), so two reference
    files that agree on their first 23 lines give the same CCM, entry
    for entry. *)
Theorem calibration_ignores_24th_patch (img : Mat) (ticks : list Tick) (st : RoiState)
    (R1 R2 : list (list Q)) :
  ROISelection img ticks = Exited st ->
  length R1 = 24%nat -> length R2 = 24%nat ->
  Forall (fun r => length r = 3%nat) R1 -> Forall (fun r => length r = 3%nat) R2 ->
  firstn 23 R1 = firstn 23 R2 ->
  exists X1 X2, LCC_CMC img ticks (csv_lines (map sep_row R1)) = inr (write_ccm (to_cmat X1)) /\
    LCC_CMC img ticks (csv_lines (map sep_row R2)) = inr (write_ccm (to_cmat X2)) /\
    fmat_eq X1 X2.
Proof.
  intros Hexit Hn1 Hn2 Hr1 Hr2 H23. unfold LCC_CMC.
  rewrite !reference_text_rows by assumption. rewrite Hexit.
  assert (Hf : forall R, Forall (fun r => length r = 3%nat) R ->
                 Forall (fun r => length r = 3%nat) (map (map fround) R))
    by (intros R HR; apply Forall_map; eapply Forall_impl; [exact HR|]; intros r Hr; now rewrite length_map).
  destruct (fit_ignores_zero_row (mat24 (OriginalColor st)) (mat24 (concat (map (map fround) R1)))
              (mat24 (concat (map (map fround) R2))) 23 eq_refl eq_refl eq_refl eq_refl)
    as (X1 & X2 & E1 & E2 & HX).
  - intros l Hl. rewrite entry_mat24 by lia. change (3 * 23 + l)%nat with (69 + l)%nat.
    rewrite (roi_exit_last_row_zero img ticks st Hexit l Hl). reflexivity.
  - intros k j Hk Hne Hj. cbn [mat24 build frows fcols] in Hk, Hj.
    rewrite !entry_mat24, !nth_concat3 by (apply Hf || lia; assumption).
    rewrite !nth_map_rows.
    assert (E : nth k R1 [] = nth k R2 []).
    { rewrite <- (firstn_skipn 23 R1), <- (firstn_skipn 23 R2), H23.
      rewrite !app_nth1 by (rewrite length_firstn; lia). reflexivity. }
    now rewrite E.
  - exists X1, X2. rewrite E1, E2. auto.
Qed.

End Claims.

Lemma calibration_end_to_end_witness :
  ROISelection img3 session3 = Exited st3 /\ length chart24 = 24%nat /\
  Forall (fun r => length r = 3%nat) chart24 /\ ~ det3 (gram (mat24 (OriginalColor st3))) == 0 /\
  exists X, LCC_CMC img3 session3 (csv_lines (map sep_row chart24)) = inr (write_ccm (to_cmat X)) /\
    (forall i j, (i < 3)%nat -> (j < 3)%nat ->
       sumq 3 (fun m => entry (gram (mat24 (OriginalColor st3))) i m * entry X m j)
       == cross (mat24 (OriginalColor st3)) (mat24 (concat (map (map fround) chart24))) i j) /\
    forall img', LCC (write_ccm (to_cmat X)) img' = inr (LCC_apply (map (map fround) (to_cmat X)) img').
Proof.
  assert (E : ROISelection img3 session3 = Exited st3) by (vm_compute; reflexivity).
  assert (H24 : length chart24 = 24%nat) by reflexivity.
  assert (H3 : Forall (fun r => length r = 3%nat) chart24) by (repeat constructor).
  assert (Hd : ~ det3 (gram (mat24 (OriginalColor st3))) == 0) by qdecide.
  split; [exact E | split; [exact H24 | split; [exact H3 | split; [exact Hd |]]]].
  exact (calibration_end_to_end img3 session3 st3 chart24 E H24 H3 Hd).
Defined.

Lemma calibration_ignores_24th_patch_witness :
  ROISelection img3 session3 = Exited st3 /\ length chart24 = 24%nat /\ length chart24' = 24%nat /\
  Forall (fun r => length r = 3%nat) chart24 /\ Forall (fun r => length r = 3%nat) chart24' /\
  firstn 23 chart24 = firstn 23 chart24' /\
  exists X1 X2, LCC_CMC img3 session3 (csv_lines (map sep_row chart24)) = inr (write_ccm (to_cmat X1)) /\
    LCC_CMC img3 session3 (csv_lines (map sep_row chart24')) = inr (write_ccm (to_cmat X2)) /\
    fmat_eq X1 X2.
Proof.
  assert (E : ROISelection img3 session3 = Exited st3) by (vm_compute; reflexivity).
  assert (H1 : length chart24 = 24%nat) by reflexivity.
  assert (H2 : length chart24' = 24%nat) by reflexivity.
  assert (F1 : Forall (fun r => length r = 3%nat) chart24) by (repeat constructor).
  assert (F2 : Forall (fun r => length r = 3%nat) chart24') by (repeat constructor).
  assert (P : firstn 23 chart24 = firstn 23 chart24') by reflexivity.
  split; [exact E | split; [exact H1 | split; [exact H2 | split; [exact F1 | split; [exact F2 | split; [exact P |]]]]]].
  exact (calibration_ignores_24th_patch img3 session3 st3 chart24 chart24' E H1 H2 F1 F2 P).
Defined.

End CalibrationProps.
