(* ===== verification/Filters.v ===== *)
(** * The OpenCV post-processing filters: white balance and gamma

    Module [Filters] models [adjustWhiteBalance] and [gammaCorrection],
    which [process_image.cpp] (lines 154-182), [load_ccm2video.cpp]
    (lines 16-45) and [test.cpp] (lines 17-46) each define, and which
    [processImages] applies to every corrected image.

    [cv::cvtColor] to and from 8-bit Lab converts pixel by pixel; the
    two conversions are section variables ([bgr2lab], [lab2bgr]), since
    their formulas (cube roots) are OpenCV's.  What the code itself does
    is modelled: [cv::split], [cv::mean] of a channel (the sum of the
    values over their count, 0 for an empty image), the subtraction
    [lab_channels[k] -= s] (each value [saturate_cast<uchar>(v - s)]),
    and [cv::merge].  In OpenCV's 8-bit Lab a neutral colour has
    [a = b = 128].

    [gammaCorrection] builds a 256-entry lookup table from
    [pow(i / 255.0, gamma)]; [pow] is the section variable [pow_gamma],
    and [cv::LUT] applies the table to each channel.

    [enhanceColor] of [mylib/Linear_CCM.cpp] (lines 118-131) scales,
    in a clone of the image, every channel within 30 of the same
    channel of a given colour ([saturate_cast<uchar>(pixel[c] * factor)]). *)

From S2P Require Import Prelude Image.
From stdpp Require Import list.

Open Scope Q_scope.

Module Filters.
Import Image.

(** Channel [k] of a pixel, as [cv::split] separates it. *)
Definition channel (k : nat) (px : Vec3b) : Z :=
  match k with
  | O => vb0 px
  | 1%nat => vb1 px
  | _ => vb2 px
  end.

(** The pixel with channel [k] replaced, as [cv::merge] puts it back. *)
Definition set_channel (k : nat) (v : Z) (px : Vec3b) : Vec3b :=
  match k with
  | O => mkVec3b v (vb1 px) (vb2 px)
  | 1%nat => mkVec3b (vb0 px) v (vb2 px)
  | _ => mkVec3b (vb0 px) (vb1 px) v
  end.

(** [cv::mean(lab_channels[k])[0]]. *)
Definition channel_mean (k : nat) (img : Mat) : Q :=
  let ps := concat (data img) in
  match length ps with
  | O => 0
  | n => fold_left (fun acc px => acc + inject_Z (channel k px)) ps 0 / inject_Z (Z.of_nat n)
  end.

(** [lab_channels[k] -= s]. *)
Definition sub_channel (k : nat) (s : Q) (img : Mat) : Mat :=
  map_pixels (fun px => set_channel k (saturate_cast_uchar (inject_Z (channel k px) - s)) px) img.

Section WhiteBalance.
Variables bgr2lab lab2bgr : Vec3b -> Vec3b.

(** The body of [adjustWhiteBalance] with the value the means of [a] and
    [b] are moved to ([mean_l] is computed and not used). *)
Definition white_balance (target : Q) (img : Mat) : Mat :=
  let lab := map_pixels bgr2lab img in
  let mean_a := channel_mean 1 lab in
  let mean_b := channel_mean 2 lab in
  let lab := sub_channel 1 (mean_a - target) lab in
  let lab := sub_channel 2 (mean_b - target) lab in
  map_pixels lab2bgr lab.

(** [adjustWhiteBalance] of [process_image.cpp]:
    [lab_channels[1] -= (mean_a - 129); lab_channels[2] -= (mean_b - 129);]. *)
Definition adjustWhiteBalance (img : Mat) : Mat := white_balance 129 img.

(** [adjustWhiteBalance] of [test.cpp] and [load_ccm2video.cpp]:
    [... - 128]. *)
Definition adjustWhiteBalance_128 (img : Mat) : Mat := white_balance 128 img.

(** [convertToLabSpace] and [convertToRGBSpace] of [mylib/Linear_CCM.cpp]:
    one [cv::cvtColor] each. *)
Definition convertToLabSpace (image : Mat) : Mat := map_pixels bgr2lab image.

Definition convertToRGBSpace (labImage : Mat) : Mat := map_pixels lab2bgr labImage.

End WhiteBalance.

Section Gamma.
Variable pow_gamma : Q -> Q.

(** [p[i] = cv::saturate_cast<uchar>(pow(i / 255.0, gamma) * 255.0)]
    for [i < 256]. *)
Definition gamma_lut : list Z :=
  map (fun i => saturate_cast_uchar (pow_gamma (inject_Z (Z.of_nat i) / 255) * 255)) (seq 0 256).

(** [cv::LUT(input, lookUpTable, output)] on each channel. *)
Definition lut_pixel (lut : list Z) (px : Vec3b) : Vec3b :=
  mkVec3b (nth (Z.to_nat (vb0 px)) lut 0%Z) (nth (Z.to_nat (vb1 px)) lut 0%Z) (nth (Z.to_nat (vb2 px)) lut 0%Z).

(** [cv::Mat gammaCorrection(input, gamma)]. *)
Definition gammaCorrection (img : Mat) : Mat := map_pixels (lut_pixel gamma_lut) img.

End Gamma.

(** [a * alpha + b * beta] on 8-bit images, as [cv::addWeighted]
    evaluates it channel by channel: [saturate_cast<uchar>(a * alpha +
    b * beta)]. *)
Definition add_weighted_channel (alpha beta : Q) (a b : Z) : Z :=
  saturate_cast_uchar (inject_Z a * alpha + inject_Z b * beta).

Definition add_weighted_pixel (alpha beta : Q) (p q : Vec3b) : Vec3b :=
  mkVec3b (add_weighted_channel alpha beta (vb0 p) (vb0 q))
          (add_weighted_channel alpha beta (vb1 p) (vb1 q))
          (add_weighted_channel alpha beta (vb2 p) (vb2 q)).

Definition addWeighted (src1 : Mat) (alpha : Q) (src2 : Mat) (beta : Q) : Mat :=
  mkMat (rows src1) (cols src1) (zip_with (zip_with (add_weighted_pixel alpha beta)) (data src1) (data src2)).

Section OpenCVFilters.
(** [cv::GaussianBlur(input, blurred, cv::Size(0, 0), 3)] and
    [cv::bilateralFilter(input, output, d, sigmaColor, sigmaSpace)]. *)
Variable GaussianBlur3 : Mat -> Mat.
Variable bilateral : Z -> Q -> Q -> Mat -> Mat.

(** [cv::Mat unsharpMask(input, amount)]: [input * (1 + amount) +
    blurred * (-amount)]. *)
Definition unsharpMask (input : Mat) (amount : Q) : Mat :=
  addWeighted input (1 + amount) (GaussianBlur3 input) (- amount).

(** [cv::Mat bilateralFilter(input, d, sigmaColor, sigmaSpace)]. *)
Definition bilateralFilter (input : Mat) (d : Z) (sigmaColor sigmaSpace : Q) : Mat :=
  bilateral d sigmaColor sigmaSpace input.

End OpenCVFilters.

(** [enhanceColor(image, color, factor)] of [mylib/Linear_CCM.cpp]:
    each channel within 30 of the same channel of [color] is scaled. *)
Definition enhance_channel (factor : Q) (p c : Z) : Z :=
  if (Z.abs (p - c) <? 30)%Z then saturate_cast_uchar (inject_Z p * factor) else p.

Definition enhance_pixel (color : Vec3b) (factor : Q) (px : Vec3b) : Vec3b :=
  mkVec3b (enhance_channel factor (vb0 px) (vb0 color))
          (enhance_channel factor (vb1 px) (vb1 color))
          (enhance_channel factor (vb2 px) (vb2 color)).

Definition enhanceColor (img : Mat) (color : Vec3b) (factor : Q) : option Mat :=
  map_pixels_loop (enhance_pixel color factor) img.

End Filters.

Module FiltersFacts.
Import Image ImageFacts Filters.

(** The pixels of an image, row after row. *)
Definition pixels (img : Mat) : list Vec3b := concat (data img).

Lemma pixels_map (f : Vec3b -> Vec3b) (img : Mat) : pixels (map_pixels f img) = map f (pixels img).
Proof. unfold pixels, map_pixels. cbn [data]. now rewrite concat_map. Qed.

(** Two pixel maps that agree on the pixels of an image agree on it. *)
Lemma map_pixels_ext_in (f g : Vec3b -> Vec3b) (img : Mat) :
  (forall px, In px (pixels img) -> f px = g px) -> map_pixels f img = map_pixels g img.
Proof.
  intros Hfg. unfold map_pixels. f_equal. apply map_ext_in. intros row Hrow. apply map_ext_in.
  intros px Hpx. apply Hfg. unfold pixels. apply in_concat. eauto.
Qed.

Lemma fold_channel_sum (k : nat) (v : Z) (ps : list Vec3b) (a : Q) :
  (forall px, In px ps -> channel k px = v) ->
  fold_left (fun acc px => acc + inject_Z (channel k px)) ps a == a + inject_Z (Z.of_nat (length ps)) * inject_Z v.
Proof.
  revert a; induction ps as [|px ps IH]; intros a Hps; simpl.
  - change (inject_Z (Z.of_nat 0)) with 0. ring.
  - rewrite IH by (intros; apply Hps; right; assumption). rewrite (Hps px) by (left; reflexivity).
    rewrite Nat2Z.inj_succ, <- Z.add_1_r, inject_Z_plus. ring.
Qed.

(** The mean of a channel whose values are all [v] is [v]. *)
Lemma channel_mean_uniform (k : nat) (v : Z) (img : Mat) :
  pixels img <> [] -> (forall px, In px (pixels img) -> channel k px = v) ->
  channel_mean k img == inject_Z v.
Proof.
  intros Hne Hv. unfold channel_mean. fold (pixels img).
  destruct (length (pixels img)) as [|n] eqn:E; [destruct (pixels img); simpl in E; congruence|].
  rewrite fold_channel_sum by exact Hv. rewrite E.
  assert (Hn : ~ inject_Z (Z.of_nat (S n)) == 0) by (unfold Qeq; simpl; lia).
  field. exact Hn.
Qed.

Lemma channel_set_other (k k' : nat) (v : Z) (px : Vec3b) :
  k <> k' -> (k < 3)%nat -> (k' < 3)%nat -> channel k' (set_channel k v px) = channel k' px.
Proof. intros Hne Hk Hk'. destruct k as [|[|[|]]], k' as [|[|[|]]]; simpl; lia || reflexivity. Qed.

(** Subtracting [mean - t] from a channel whose values are all [v]
    (so its mean is [v]) sets it to [t]. *)
Lemma sub_channel_uniform (k : nat) (v t : Z) (m : Q) (img : Mat) :
  uchar_ok t -> m == inject_Z v ->
  (forall px, In px (pixels img) -> channel k px = v) ->
  sub_channel k (m - inject_Z t) img = map_pixels (set_channel k t) img.
Proof.
  intros Ht Hm Hv. unfold sub_channel. apply map_pixels_ext_in. intros px Hpx.
  rewrite (saturate_cast_uchar_Z _ t Ht); [reflexivity|].
  rewrite Hm, (Hv px Hpx). ring.
Qed.

(** [enhanceColor] tests each channel on its own: a pixel whose
    colour is far from [color] still has the channels that happen to be
    close scaled. *)
Lemma enhance_pixel_per_channel (color px : Vec3b) (factor : Q) :
  (Z.abs (vb0 px - vb0 color) < 30)%Z -> (30 <= Z.abs (vb1 px - vb1 color))%Z ->
  (30 <= Z.abs (vb2 px - vb2 color))%Z ->
  enhance_pixel color factor px = mkVec3b (saturate_cast_uchar (inject_Z (vb0 px) * factor)) (vb1 px) (vb2 px).
Proof.
  intros H0 H1 H2. unfold enhance_pixel, enhance_channel.
  rewrite (proj2 (Z.ltb_lt _ _) H0), (proj2 (Z.ltb_ge _ _) H1), (proj2 (Z.ltb_ge _ _) H2). reflexivity.
Qed.

Lemma enhance_pixel_ok (color px : Vec3b) (factor : Q) :
  vec3b_ok px -> vec3b_ok (enhance_pixel color factor px).
Proof.
  intros (H0 & H1 & H2). unfold enhance_pixel, enhance_channel, vec3b_ok. cbn [vb0 vb1 vb2].
  refine (conj _ (conj _ _)); (destruct (Z.abs _ <? 30)%Z; [apply saturate_cast_uchar_ok | assumption]).
Qed.

(** Where the blur equals the image, [unsharpMask] changes nothing,
    whatever the amount: [p * (1 + a) + p * (-a) = p]. *)
Lemma add_weighted_same (a : Q) (img : Mat) :
  mat_wf img -> addWeighted img (1 + a) img (- a) = img.
Proof.
  intros [Hlen Hrows]. destruct img as [r c d]. unfold addWeighted. cbn [rows cols data] in *. f_equal. clear Hlen.
  induction d as [| row d IH]; [reflexivity |]. cbn [zip_with]. apply Forall_cons_iff in Hrows as [[_ Hok] Hrows].
  f_equal; [| apply IH; exact Hrows].
  induction row as [| px row IHr]; [reflexivity |]. apply Forall_cons_iff in Hok as [(H0 & H1 & H2) Hok].
  cbn [zip_with]. f_equal; [| apply IHr; exact Hok].
  destruct px as [b g rr]. unfold add_weighted_pixel, add_weighted_channel. cbn [vb0 vb1 vb2] in *.
  f_equal; apply saturate_cast_uchar_Z; try assumption; rewrite Qmult_plus_distr_r; ring.
Qed.

End FiltersFacts.

Module FiltersProps.
Import Image ImageFacts Filters FiltersFacts.

Section Claims.
Variables bgr2lab lab2bgr : Vec3b -> Vec3b.

(** The white balance of an image whose Lab chroma is uniformly [a = b = 128]
    sets both chroma channels to [t]. *)
Lemma white_balance_uniform (t : Z) (img : Mat) :
  uchar_ok t -> pixels img <> [] ->
  (forall px, In px (pixels img) -> channel 1 (bgr2lab px) = 128%Z /\ channel 2 (bgr2lab px) = 128%Z) ->
  white_balance bgr2lab lab2bgr (inject_Z t) img
  = map_pixels (fun px => lab2bgr (set_channel 2 t (set_channel 1 t (bgr2lab px)))) img.
Proof.
  intros Ht Hne Hc. unfold white_balance.
  assert (Hp : forall px, In px (pixels (map_pixels bgr2lab img)) -> channel 1 px = 128%Z /\ channel 2 px = 128%Z)
    by (intros px; rewrite pixels_map; intros (q & <- & Hq)%in_map_iff; exact (Hc q Hq)).
  assert (Hne' : pixels (map_pixels bgr2lab img) <> []) by (rewrite pixels_map; now destruct (pixels img)).
  pose proof (channel_mean_uniform 1 128 _ Hne' (fun px H => proj1 (Hp px H))) as Ha.
  pose proof (channel_mean_uniform 2 128 _ Hne' (fun px H => proj2 (Hp px H))) as Hb.
  rewrite (sub_channel_uniform 1 128 t _ _ Ht Ha) by (intros px H; exact (proj1 (Hp px H))).
  rewrite (sub_channel_uniform 2 128 t _ _ Ht Hb).
  - now rewrite !map_pixels_compose.
  - intros px. rewrite pixels_map. intros (q & <- & Hq)%in_map_iff.
    rewrite channel_set_other by lia. exact (proj2 (Hp q Hq)).
Qed.

(** C31: [adjustWhiteBalance] of [process_image.cpp] (the one
    [processImages] calls) moves the chroma means to 129, not to the
    neutral 128 of OpenCV's 8-bit Lab: an image whose colours are all
    neutral ([a = b = 128]) comes back with [a = b = 129], a colour
    cast, while the copies of [test.cpp] and [load_ccm2video.cpp]
    (128) give it back unchanged up to the Lab round trip. *)
Theorem white_balance_grey_cast (img : Mat) :
  pixels img <> [] ->
  (forall px, In px (pixels img) -> channel 1 (bgr2lab px) = 128%Z /\ channel 2 (bgr2lab px) = 128%Z) ->
  adjustWhiteBalance bgr2lab lab2bgr img
  = map_pixels (fun px => lab2bgr (set_channel 2 129 (set_channel 1 129 (bgr2lab px)))) img /\
  adjustWhiteBalance_128 bgr2lab lab2bgr img = map_pixels (fun px => lab2bgr (bgr2lab px)) img.
Proof.
  intros Hne Hc. split.
  - apply (white_balance_uniform 129); [unfold uchar_ok; lia | exact Hne | exact Hc].
  - unfold adjustWhiteBalance_128. rewrite (white_balance_uniform 128) by (unfold uchar_ok; lia || assumption).
    apply map_pixels_ext_in. intros px Hpx. destruct (Hc px Hpx) as [H1 H2].
    destruct (bgr2lab px) as [l a b]. cbn in H1, H2 |- *. now subst.
Qed.

End Claims.

(** A neutral grey, with the identity for the Lab conversions. *)
Definition grey_lab : Mat := mkMat 1 2 [[mkVec3b 100 128 128; mkVec3b 50 128 128]].

Lemma white_balance_grey_cast_witness :
  pixels grey_lab <> [] /\
  (forall px, In px (pixels grey_lab) -> channel 1 (id px) = 128%Z /\ channel 2 (id px) = 128%Z) /\
  adjustWhiteBalance id id grey_lab = mkMat 1 2 [[mkVec3b 100 129 129; mkVec3b 50 129 129]].
Proof.
  assert (Hne : pixels grey_lab <> []) by discriminate.
  assert (Hc : forall px, In px (pixels grey_lab) -> channel 1 (id px) = 128%Z /\ channel 2 (id px) = 128%Z)
    by (intros px Hpx; repeat destruct Hpx as [<-|Hpx]; [split; reflexivity .. | destruct Hpx]).
  split; [exact Hne | split; [exact Hc|]].
  rewrite (proj1 (white_balance_grey_cast id id grey_lab Hne Hc)). reflexivity.
Defined.

End FiltersProps.
