(* ===== verification/Copies.v ===== *)
(** * The copies each executable compiles

    The programs of [src/src] are separate executables, and several of
    them carry their own copy of a function modelled elsewhere:
    [process_image.cpp] (lines 12-70) and [hsl_rgb.cpp] (lines 7-65)
    the [struct HSL], [rgb_to_hsl] and [hsl_to_rgb] of [mylib/hsl.cpp];
    [applyvideo2ccm.cpp] (lines 12-37) [readColorCorrectionMatrix] of
    [process_image.cpp], with an [std::ifstream] for the [std::fstream];
    [load_ccm2video.cpp] (lines 9-51) and [test.cpp] (lines 10-26 and
    48-52) [unsharpMask], [gammaCorrection], [adjustWhiteBalance] (with
    the neutral 128) and [bilateralFilter].

    One Module per executable translates its copies from their own
    lines; the [_agrees] lemmas show that each is the function the
    development models at its first occurrence, so the drivers of
    [Batch] and [Pipeline], which are written with those, are the
    functions the executables run.  [load_ccm2video.cpp]'s
    [adjustWhiteBalance] is the 128 version ([Filters.adjustWhiteBalance_128]),
    not the 129 one of [process_image.cpp]. *)

From S2P Require Import Prelude Image ColorSpace CCMApply CSV Filters.
From Stdlib Require Import String.
From stdpp Require Import list.

Open Scope Q_scope.
Open Scope cc_scope.

(** ** [process_image.cpp], lines 16-70 *)

Module ProcessImageCopy.
Import HSLConv.

Definition rgb_to_hsl (r0 g0 b0 : Q) : HSL :=
  let r := r0 / 255 in
  let g := g0 / 255 in
  let b := b0 / 255 in
  let cmax := max3 r g b in
  let cmin := min3 r g b in
  let diff := cmax - cmin in
  let l := (cmax + cmin) / 2 in
  if cmax =? cmin then mkHSL 0 (0 * 100) (l * 100)
  else
    let s := if l <=? (1 # 2) then diff / (cmax + cmin)
             else diff / (2 - cmax - cmin) in
    let h := if cmax =? r then (g - b) / diff + (if g <? b then 6 else 0)
             else if cmax =? g then (b - r) / diff + 2
             else (r - g) / diff + 4 in
    mkHSL (h * 60) (s * 100) (l * 100).

Definition hue_to_rgb (p q t0 : Q) : Q :=
  let t1 := if t0 <? 0 then t0 + 1 else t0 in
  let t := if 1 <? t1 then t1 - 1 else t1 in
  if t <? 1 / 6 then p + (q - p) * 6 * t
  else if t <? 1 / 2 then q
  else if t <? 2 / 3 then p + (q - p) * (2 / 3 - t) * 6
  else p.

Definition hsl_channels (h s0 l0 : Q) : Q * Q * Q :=
  let s := s0 / 100 in
  let l := l0 / 100 in
  if s =? 0 then (l, l, l)
  else
    let q := if l <? (1 # 2) then l * (1 + s) else l + s - l * s in
    let p := 2 * l - q in
    (hue_to_rgb p q (h / 360 + 1 / 3),
     hue_to_rgb p q (h / 360),
     hue_to_rgb p q (h / 360 - 1 / 3)).

Definition hsl_to_rgb (h s l : Q) : Vec3b :=
  let '(r, g, b) := hsl_channels h s l in
  mkVec3b (cast_uchar (b * 255)) (cast_uchar (g * 255)) (cast_uchar (r * 255)).

End ProcessImageCopy.

(** ** [hsl_rgb.cpp], lines 11-65 *)

Module HslRgbCopy.
Import HSLConv.

Definition rgb_to_hsl (r0 g0 b0 : Q) : HSL :=
  let r := r0 / 255 in
  let g := g0 / 255 in
  let b := b0 / 255 in
  let cmax := max3 r g b in
  let cmin := min3 r g b in
  let diff := cmax - cmin in
  let l := (cmax + cmin) / 2 in
  if cmax =? cmin then mkHSL 0 (0 * 100) (l * 100)
  else
    let s := if l <=? (1 # 2) then diff / (cmax + cmin)
             else diff / (2 - cmax - cmin) in
    let h := if cmax =? r then (g - b) / diff + (if g <? b then 6 else 0)
             else if cmax =? g then (b - r) / diff + 2
             else (r - g) / diff + 4 in
    mkHSL (h * 60) (s * 100) (l * 100).

Definition hue_to_rgb (p q t0 : Q) : Q :=
  let t1 := if t0 <? 0 then t0 + 1 else t0 in
  let t := if 1 <? t1 then t1 - 1 else t1 in
  if t <? 1 / 6 then p + (q - p) * 6 * t
  else if t <? 1 / 2 then q
  else if t <? 2 / 3 then p + (q - p) * (2 / 3 - t) * 6
  else p.

Definition hsl_channels (h s0 l0 : Q) : Q * Q * Q :=
  let s := s0 / 100 in
  let l := l0 / 100 in
  if s =? 0 then (l, l, l)
  else
    let q := if l <? (1 # 2) then l * (1 + s) else l + s - l * s in
    let p := 2 * l - q in
    (hue_to_rgb p q (h / 360 + 1 / 3),
     hue_to_rgb p q (h / 360),
     hue_to_rgb p q (h / 360 - 1 / 3)).

Definition hsl_to_rgb (h s l : Q) : Vec3b :=
  let '(r, g, b) := hsl_channels h s l in
  mkVec3b (cast_uchar (b * 255)) (cast_uchar (g * 255)) (cast_uchar (r * 255)).

End HslRgbCopy.

(** ** [applyvideo2ccm.cpp], lines 12-37 *)

Module ApplyVideoCopy.
Import CCMApply CSV.

Definition readColorCorrectionMatrix `{FloatText} (text : string) : CsvError + CMat :=
  match read_ccm_lines (replicate 9 0) 0 (getlines text) with
  | inl e => inl e
  | inr buf => inr (rows3 buf)
  end.

End ApplyVideoCopy.

(** ** [load_ccm2video.cpp], lines 9-51 *)

Module LoadCcmCopy.
Import Image Filters.

Section Copies.
Variable GaussianBlur3 : Mat -> Mat.
Variable bilateral : Z -> Q -> Q -> Mat -> Mat.
Variables bgr2lab lab2bgr : Vec3b -> Vec3b.
Variable pow_gamma : Q -> Q.

Definition unsharpMask (input : Mat) (amount : Q) : Mat :=
  addWeighted input (1 + amount) (GaussianBlur3 input) (- amount).

Definition gamma_lut : list Z :=
  map (fun i => saturate_cast_uchar (pow_gamma (inject_Z (Z.of_nat i) / 255) * 255)) (seq 0 256).

Definition gammaCorrection (input : Mat) : Mat := map_pixels (lut_pixel gamma_lut) input.

(** [lab_channels[1] -= (mean_a - 128); lab_channels[2] -= (mean_b - 128);]. *)
Definition adjustWhiteBalance (img : Mat) : Mat := white_balance bgr2lab lab2bgr 128 img.

Definition bilateralFilter (input : Mat) (d : Z) (sigmaColor sigmaSpace : Q) : Mat :=
  bilateral d sigmaColor sigmaSpace input.

End Copies.

End LoadCcmCopy.

(** ** [test.cpp], lines 10-26 and 48-52 ([adjustWhiteBalance], lines
    28-46, is [Filters.adjustWhiteBalance_128]) *)

Module TestCopy.
Import Image Filters.

Section Copies.
Variable GaussianBlur3 : Mat -> Mat.
Variable bilateral : Z -> Q -> Q -> Mat -> Mat.
Variable pow_gamma : Q -> Q.

Definition unsharpMask (input : Mat) (amount : Q) : Mat :=
  addWeighted input (1 + amount) (GaussianBlur3 input) (- amount).

Definition gamma_lut : list Z :=
  map (fun i => saturate_cast_uchar (pow_gamma (inject_Z (Z.of_nat i) / 255) * 255)) (seq 0 256).

Definition gammaCorrection (input : Mat) : Mat := map_pixels (lut_pixel gamma_lut) input.

Definition bilateralFilter (input : Mat) (d : Z) (sigmaColor sigmaSpace : Q) : Mat :=
  bilateral d sigmaColor sigmaSpace input.

End Copies.

End TestCopy.

(** ** Each copy is the function of its first occurrence *)

Module CopiesFacts.

Lemma process_image_rgb_to_hsl_agrees : ProcessImageCopy.rgb_to_hsl = HSLConv.rgb_to_hsl.
Proof. reflexivity. Qed.

Lemma process_image_hsl_to_rgb_agrees : ProcessImageCopy.hsl_to_rgb = HSLConv.hsl_to_rgb.
Proof. reflexivity. Qed.

Lemma hsl_rgb_rgb_to_hsl_agrees : HslRgbCopy.rgb_to_hsl = HSLConv.rgb_to_hsl.
Proof. reflexivity. Qed.

Lemma hsl_rgb_hsl_to_rgb_agrees : HslRgbCopy.hsl_to_rgb = HSLConv.hsl_to_rgb.
Proof. reflexivity. Qed.

Lemma applyvideo_reader_agrees `{CSV.FloatText} :
  ApplyVideoCopy.readColorCorrectionMatrix = CSV.readColorCorrectionMatrix.
Proof. reflexivity. Qed.

Lemma load_ccm_filters_agree (blur : Image.Mat -> Image.Mat) (bil : Z -> Q -> Q -> Image.Mat -> Image.Mat)
    (bgr2lab lab2bgr : Vec3b -> Vec3b) (pow_gamma : Q -> Q) :
  LoadCcmCopy.unsharpMask blur = Filters.unsharpMask blur /\
  LoadCcmCopy.gammaCorrection pow_gamma = Filters.gammaCorrection pow_gamma /\
  LoadCcmCopy.adjustWhiteBalance bgr2lab lab2bgr = Filters.adjustWhiteBalance_128 bgr2lab lab2bgr /\
  LoadCcmCopy.bilateralFilter bil = Filters.bilateralFilter bil.
Proof. repeat split. Qed.

Lemma test_filters_agree (blur : Image.Mat -> Image.Mat) (bil : Z -> Q -> Q -> Image.Mat -> Image.Mat)
    (pow_gamma : Q -> Q) :
  TestCopy.unsharpMask blur = Filters.unsharpMask blur /\
  TestCopy.gammaCorrection pow_gamma = Filters.gammaCorrection pow_gamma /\
  TestCopy.bilateralFilter bil = Filters.bilateralFilter bil.
Proof. repeat split. Qed.

End CopiesFacts.
