(* ===== verification/Batch.v ===== *)
(** * The batch drivers: directory walks over a file store

    Module [Batch] models the drivers that run the image operations on
    every file of a directory: [adjust_hsl] of [hsl_rgb.cpp] (lines
    67-92) and of [process_image.cpp] (lines 72-97) on paths, the
    [main] of [hsl_rgb.cpp] (lines 94-120), [processImages] of
    [process_image.cpp] (lines 188-215) and its [main] (lines 218-255),
    which first writes the HSL-adjusted images of [data] to
    [result_hsl] and then colour-corrects [result_hsl] into [results];
    the [main] of [test.cpp] (lines 54-131) with its early returns; and
    [adjust_yellow] and [adjust_green] of [mylib/hsl.cpp] with their
    [imwrite].  The video mains are in [VideoMain].

    The file system is a store [FS] of regular files by path, in the
    order [directory_iterator] visits them; a file holds a picture
    ([cv::imread] decodes it) or other content ([imread] returns an
    empty [Mat]).  [std::filesystem::directory_iterator(dir)] lists the
    files whose path is [dir + "/" + name] with a name without ['/']
    ([list_dir]); the listing is taken when the loop starts (files
    created during the walk are not visited, one of the behaviours the
    standard allows).  Directories are implicit ([create_directories] is
    a no-op and [is_regular_file] holds of every listed entry).
    [std::filesystem::path::extension] is [extension]; [cv::imwrite]
    replaces or creates the file ([imwrite]).  The bytes of a picture
    file read as text are the section variable [encode]; [pow] and
    [cvtColor] are the section variables of [Filters]. *)

From S2P Require Import Prelude Image ColorSpace HSLAdjust CCMApply Pipeline VideoIO CSV Filters.
From Stdlib Require Import String Ascii.
From stdpp Require Import list.

Open Scope Q_scope.

Module Batch.
Import Image CCMApply CSV Filters HSLAdjust VideoIO.

(** What a file holds. *)
Inductive Content := Picture (m : Mat) | Text (s : string).

(** The regular files, by path. *)
Definition FS := list (string * Content).

(** The file at a path (the first entry with that path). *)
Definition lookup_file (p : string) (fs : FS) : option Content :=
  option_map snd (List.find (fun e => String.eqb (fst e) p) fs).

(** [dir + "/" + name], as [outputDir + "/" + filename] builds it. *)
Definition path (dir name : string) : string := String.append dir (String "/" name).

(** A ['/'] in a string. *)
Fixpoint has_slash (s : string) : bool :=
  match s with
  | EmptyString => false
  | String c s' => (Ascii.eqb c "/" || has_slash s')%bool
  end.

(** A file name: nonempty, without ['/']. *)
Definition is_name (n : string) : bool := negb (String.eqb n EmptyString) && negb (has_slash n).

(** The name of [p] in directory [dir]: [p] is [dir + "/" + name]. *)
Fixpoint strip_dir (dir p : string) : option string :=
  match dir, p with
  | EmptyString, String c n => if Ascii.eqb c "/" && is_name n then Some n else None
  | String a d, String c p' => if Ascii.eqb a c then strip_dir d p' else None
  | _, _ => None
  end.

(** [fs::directory_iterator(dir)]: the names of the files in [dir]. *)
Definition list_dir (dir : string) (fs : FS) : list string :=
  flat_map (fun e => match strip_dir dir (fst e) with Some n => [n] | None => [] end) fs.

(** The position of the last ['.'] of a string, from [i]. *)
Fixpoint last_dot_from (i : nat) (s : string) (acc : option nat) : option nat :=
  match s with
  | EmptyString => acc
  | String c s' => last_dot_from (S i) s' (if Ascii.eqb c "." then Some i else acc)
  end.

(** [path::extension()] of a file name: from its last ['.'], empty for
    ["."], [".."], a name without a dot and a name whose only dot is
    its first character. *)
Definition extension (name : string) : string :=
  if (String.eqb name "." || String.eqb name "..")%bool then EmptyString
  else match last_dot_from 0 name None with
       | Some (S k) => substring (S k) (String.length name - S k) name
       | _ => EmptyString
       end.

(** [entry.path().extension() == ".jpg" || ... == ".png"]. *)
Definition is_image_ext (e : string) : bool := (String.eqb e ".jpg" || String.eqb e ".png")%bool.

(** [cv::imread(p)]: the picture, an empty [Mat] for a missing file or
    other content. *)
Definition imread (fs : FS) (p : string) : Mat :=
  match lookup_file p fs with
  | Some (Picture m) => m
  | _ => empty_mat
  end.

(** [cv::imwrite(p, m)]: the file at [p] is the picture [m]. *)
Definition imwrite (p : string) (m : Mat) (fs : FS) : FS :=
  (p, Picture m) :: List.filter (fun e => negb (String.eqb (fst e) p)) fs.

(** [adjust_hsl(input_path, output_path, hue, saturation, lightness)]:
    [imread], the early return on an empty image, the pixel loop of
    [HSLAdjust.adjust_hsl] and [imwrite]. *)
Definition adjust_hsl_file (input_path output_path : string) (hue saturation lightness : Q) (fs : FS) : FS :=
  match adjust_hsl (imread fs input_path) hue saturation lightness with
  | None => fs
  | Some result => imwrite output_path result fs
  end.

(** The loop of the [main]s over [input_folder]: [adjust_hsl] of each
    file into [output_folder + "/" + file_name]. *)
Definition hsl_batch (input_folder output_folder : string) (hue saturation lightness : Q) (fs : FS) : FS :=
  fold_left (fun fs' n => adjust_hsl_file (path input_folder n) (path output_folder n) hue saturation lightness fs')
    (list_dir input_folder fs) fs.

(** [main] of [hsl_rgb.cpp]: [adjust_hsl(..., 0, -70, 30)] from [data]
    to [result_hsl]. *)
Definition hsl_rgb_main (fs : FS) : FS := hsl_batch "data" "result_hsl" 0 (-70) 30 fs.

(** The ways [processImages] stops: the CCM file does not open
    ([exit(EXIT_FAILURE)]), the reader fails ([CsvError]), or the
    correction loop leaves the image. *)
Inductive BatchError := OpenFailed (p : string) | ReadFailed (e : CsvError) | OutOfRange.

Section Drivers.
Context `{FloatText}.
Variable encode : Mat -> string.
Variables bgr2lab lab2bgr : Vec3b -> Vec3b.
Variable pow_gamma : Q -> Q.

(** The text [std::fstream] reads from a file. *)
Definition read_text (fs : FS) (p : string) : option string :=
  match lookup_file p fs with
  | Some (Text s) => Some s
  | Some (Picture m) => Some (encode m)
  | None => None
  end.

(** The loop body of [processImages] on the entry [inputDir/name]. *)
Definition process_entry (C : CMat) (inputDir outputDir : string) (fs : FS) (name : string) : BatchError + FS :=
  if is_image_ext (extension name) then
    let img := imread fs (path inputDir name) in
    if mat_empty img then inr fs
    else match applyColorCorrection img C with
         | None => inl OutOfRange
         | Some corrected =>
             let corrected := gammaCorrection pow_gamma corrected in
             let corrected := adjustWhiteBalance bgr2lab lab2bgr corrected in
             inr (imwrite (path outputDir name) corrected fs)
         end
  else inr fs.

Fixpoint process_entries (C : CMat) (inputDir outputDir : string) (fs : FS) (names : list string) : BatchError + FS :=
  match names with
  | [] => inr fs
  | n :: rest =>
      match process_entry C inputDir outputDir fs n with
      | inl e => inl e
      | inr fs' => process_entries C inputDir outputDir fs' rest
      end
  end.

(** [processImages(inputDir, outputDir, cmcFile)]. *)
Definition processImages (inputDir outputDir cmcFile : string) (fs : FS) : BatchError + FS :=
  match read_text fs cmcFile with
  | None => inl (OpenFailed cmcFile)
  | Some text =>
      match readColorCorrectionMatrix text with
      | inl e => inl (ReadFailed e)
      | inr C => process_entries C inputDir outputDir fs (list_dir inputDir fs)
      end
  end.

(** [main] of [process_image.cpp]: [adjust_hsl(..., 0, -40, 30)] from
    [data] to [result_hsl], then [processImages("result_hsl", "results",
    "ref/LCC_CMC.csv")]. *)
Definition process_image_main (fs : FS) : BatchError + FS :=
  processImages "result_hsl" "results" "ref/LCC_CMC.csv" (hsl_batch "data" "result_hsl" 0 (-40) 30 fs).

(** [main] of [test.cpp]: [imread("data/output1.jpg")] ([return -1]
    on an empty image), the matrix read from [ref/LCC_CMC.csv]
    ([exit(EXIT_FAILURE)] when it does not open), the correction loop,
    [convertTo] with [alpha = 0.9] and [imwrite] of the result; the
    exit code and the store ([imshow] and [waitKey] are not modelled). *)
Definition test_main (fs : FS) : BatchError + (Z * FS) :=
  let img := imread fs "data/output1.jpg" in
  if mat_empty img then inr ((-1)%Z, fs)
  else match read_text fs "ref/LCC_CMC.csv" with
       | None => inl (OpenFailed "ref/LCC_CMC.csv")
       | Some text =>
           match readColorCorrectionMatrix text with
           | inl e => inl (ReadFailed e)
           | inr C =>
               match ccm_test_image C img with
               | None => inl OutOfRange
               | Some Dst => inr (0%Z, imwrite "results/img11_processed.jpg" Dst fs)
               end
           end
       end.

End Drivers.

(** [cv::Mat adjust_yellow(img, hue, saturation, lightness, output_path)]
    of [mylib/hsl.cpp] with its [imwrite]: the result of
    [HSLAdjust.adjust_yellow], written to [output_path] unless the image
    was empty ([return cv::Mat()] before the write). *)
Definition adjust_yellow_io (img : Mat) (hue saturation lightness : Q) (output_path : string) (fs : FS)
    : option (Mat * FS) :=
  match adjust_yellow img hue saturation lightness with
  | None => None
  | Some result => Some (result, if mat_empty img then fs else imwrite output_path result fs)
  end.

(** [adjust_green] with its [imwrite]. *)
Definition adjust_green_io (img : Mat) (hue saturation lightness : Q) (output_path : string) (fs : FS)
    : option (Mat * FS) :=
  match adjust_green img hue saturation lightness with
  | None => None
  | Some result => Some (result, if mat_empty img then fs else imwrite output_path result fs)
  end.

(** Every picture of the store is a well-formed image. *)
Definition fs_wf (fs : FS) : Prop :=
  Forall (fun e => match snd e with Picture m => mat_wf m | Text _ => True end) fs.

End Batch.

(** ** Paths, the store and the listing *)

Module BatchFacts.
Import Image ImageFacts CCMApply CCMApplyFacts CSV Filters HSLAdjust Batch.

Lemma has_slash_path (d n : string) : has_slash (path d n) = true.
Proof. unfold path. induction d as [|c d IH]; simpl; [reflexivity | now rewrite IH, orb_true_r]. Qed.

Lemma is_name_path (d n : string) : is_name (path d n) = false.
Proof. unfold is_name. now rewrite has_slash_path, andb_false_r. Qed.

(** [strip_dir] recognises exactly the paths [path dir name]. *)
Lemma strip_dir_sound (d p n : string) : strip_dir d p = Some n -> p = path d n /\ is_name n = true.
Proof.
  unfold path. revert p. induction d as [|a d IH]; intros [|c p]; simpl; try discriminate.
  - destruct (Ascii.eqb_spec c "/"), (is_name p) eqn:E; simpl; try discriminate.
    intros [= <-]. subst. auto.
  - destruct (Ascii.eqb_spec a c); [subst | discriminate]. intros Hs.
    destruct (IH p Hs) as [-> ?]. auto.
Qed.

Lemma strip_dir_path (d n : string) : is_name n = true -> strip_dir d (path d n) = Some n.
Proof.
  unfold path. intros Hn. induction d as [|a d IH]; simpl; [now rewrite Hn | now rewrite Ascii.eqb_refl].
Qed.

(** A path of one directory is no path of another. *)
Lemma strip_dir_other (d d' n : string) : is_name n = true -> strip_dir d (path d' n) <> None -> d = d'.
Proof.
  revert d'. induction d as [|a d IH]; intros [|b d'] Hn; unfold path; simpl.
  - reflexivity.
  - fold (path d' n). rewrite is_name_path, andb_false_r. congruence.
  - destruct (Ascii.eqb a "/"); [| congruence]. destruct (strip_dir d n) as [x|] eqn:E; [| congruence].
    destruct (strip_dir_sound _ _ _ E) as [-> _]. now rewrite is_name_path in Hn.
  - destruct (Ascii.eqb_spec a b); [subst | congruence]. intros H. f_equal. exact (IH d' Hn H).
Qed.

Lemma path_inj (d d' n n' : string) :
  is_name n = true -> is_name n' = true -> path d n = path d' n' -> d = d' /\ n = n'.
Proof.
  intros Hn Hn' E. pose proof (strip_dir_path d n Hn) as Hs. rewrite E in Hs.
  assert (d = d') as <- by (apply (strip_dir_other _ _ n' Hn'); congruence).
  split; [reflexivity|]. rewrite strip_dir_path in Hs by exact Hn'. congruence.
Qed.

Lemma find_filter_other (p q : string) (fs : FS) :
  p <> q ->
  List.find (fun e => String.eqb (fst e) q) (List.filter (fun e => negb (String.eqb (fst e) p)) fs) =
  List.find (fun e => String.eqb (fst e) q) fs.
Proof.
  intros Hpq. induction fs as [|[r c] fs IH]; [reflexivity|]. cbn [List.filter fst].
  destruct (String.eqb_spec r p) as [->|Hrp].
  - simpl. rewrite (proj2 (String.eqb_neq p q) Hpq). exact IH.
  - simpl. now rewrite IH.
Qed.

(** [imwrite] changes the file at its path and no other. *)
Lemma lookup_imwrite (p q : string) (m : Mat) (fs : FS) :
  lookup_file q (imwrite p m fs) = if String.eqb p q then Some (Picture m) else lookup_file q fs.
Proof.
  unfold lookup_file, imwrite. cbn [List.find fst]. destruct (String.eqb_spec p q); [reflexivity|].
  now rewrite find_filter_other.
Qed.

(** The names of a listing are file names, of files of the directory. *)
Lemma list_dir_names (d n : string) (fs : FS) : In n (list_dir d fs) -> is_name n = true.
Proof.
  unfold list_dir. rewrite in_flat_map. intros (e & _ & Hn).
  destruct (strip_dir d (fst e)) eqn:E; [| contradiction]. destruct Hn as [<- | []].
  exact (proj2 (strip_dir_sound _ _ _ E)).
Qed.

Lemma list_dir_all_names (d : string) (fs : FS) : Forall (fun n => is_name n = true) (list_dir d fs).
Proof. apply Forall_forall. intros n Hn. apply (list_dir_names d n fs), list_elem_of_In, Hn. Qed.

Lemma list_dir_complete (d n : string) (fs : FS) (c : Content) :
  is_name n = true -> lookup_file (path d n) fs = Some c -> In n (list_dir d fs).
Proof.
  intros Hn Hl. unfold lookup_file in Hl.
  destruct (List.find _ fs) as [e|] eqn:E; [| discriminate].
  apply find_some in E as [Hin He]. apply String.eqb_eq in He.
  unfold list_dir. apply in_flat_map. exists e. split; [exact Hin|].
  rewrite He, strip_dir_path by exact Hn. now left.
Qed.

(** ** Well-formed stores *)

Lemma imread_wf (fs : FS) (p : string) : fs_wf fs -> mat_wf (imread fs p).
Proof.
  intros Hwf. unfold imread, lookup_file.
  destruct (List.find _ fs) as [[q c]|] eqn:E; cbn [option_map snd]; [| repeat constructor].
  apply find_some in E as [Hin _]. destruct c as [m|]; [| repeat constructor].
  unfold fs_wf in Hwf. rewrite Forall_forall in Hwf. exact (Hwf _ (proj2 (list_elem_of_In _ _) Hin)).
Qed.

Lemma imwrite_wf (p : string) (m : Mat) (fs : FS) : mat_wf m -> fs_wf fs -> fs_wf (imwrite p m fs).
Proof.
  intros Hm Hwf. constructor; [exact Hm|]. unfold fs_wf in *. rewrite Forall_forall in *.
  intros e He. apply list_elem_of_In, filter_In in He as [He _]. apply Hwf, list_elem_of_In, He.
Qed.

(** A name whose input file is a nonempty picture is listed. *)
Lemma nonempty_listed (i n : string) (fs : FS) :
  is_name n = true -> mat_empty (imread fs (path i n)) = false -> existsb (String.eqb n) (list_dir i fs) = true.
Proof.
  intros Hn Hs. apply existsb_exists. exists n. split; [| apply String.eqb_refl]. unfold imread in Hs.
  destruct (lookup_file (path i n) fs) eqn:E; [exact (list_dir_complete _ _ _ _ Hn E) | discriminate].
Qed.

(** ** The walks as sequences of writes

    Both walks read [i + "/" + name] and may write [o + "/" + name];
    with [i <> o] no write changes a file they read, so each walk is the
    sequence of writes of a value computed from the initial store. *)

Section Writes.
Variables (i o : string) (fs0 : FS) (sel : string -> bool) (val : string -> Mat).
Hypothesis Hio : i <> o.

Definition step (fs : FS) (n : string) : FS :=
  if sel n then imwrite (path o n) (val n) fs else fs.

(** The store agrees with [fs0] on the input directory. *)
Definition inputs_kept (fs : FS) : Prop :=
  forall q, is_name q = true -> lookup_file (path i q) fs = lookup_file (path i q) fs0.

Lemma inputs_kept_imread (fs : FS) (n : string) :
  inputs_kept fs -> is_name n = true -> imread fs (path i n) = imread fs0 (path i n).
Proof. intros Hk Hn. unfold imread. now rewrite Hk. Qed.

Lemma step_kept (fs : FS) (n : string) : is_name n = true -> inputs_kept fs -> inputs_kept (step fs n).
Proof.
  intros Hn Hk q Hq. rewrite <- (Hk q Hq). unfold step. destruct (sel n); [| reflexivity].
  rewrite lookup_imwrite. destruct (String.eqb_spec (path o n) (path i q)) as [E|]; [| reflexivity].
  destruct (path_inj _ _ _ _ Hn Hq E). congruence.
Qed.

(** A walk whose body is [step] on every store that kept its inputs. *)
Lemma fold_steps (g : FS -> string -> FS) (ns : list string) (fs : FS) :
  (forall fs' n, In n ns -> inputs_kept fs' -> g fs' n = step fs' n) ->
  Forall (fun n => is_name n = true) ns -> inputs_kept fs ->
  fold_left g ns fs = fold_left step ns fs.
Proof.
  revert fs. induction ns as [|n ns IH]; intros fs Hg Hns Hk; [reflexivity|].
  apply Forall_cons_iff in Hns as [Hn Hns]. cbn [fold_left]. rewrite (Hg fs n (or_introl eq_refl) Hk).
  apply IH; [intros; apply Hg; [right|]; assumption | exact Hns | apply step_kept; assumption].
Qed.

Lemma lookup_fold (ns : list string) (fs : FS) (p : string) :
  Forall (fun n => is_name n = true) ns ->
  lookup_file p (fold_left step ns fs) =
  match strip_dir o p with
  | Some n => if sel n && existsb (String.eqb n) ns then Some (Picture (val n)) else lookup_file p fs
  | None => lookup_file p fs
  end.
Proof.
  revert fs. induction ns as [|a ns IH]; intros fs Hns.
  { simpl. destruct (strip_dir o p); [now rewrite andb_false_r | reflexivity]. }
  apply Forall_cons_iff in Hns as [Ha Hns]. cbn [fold_left existsb]. rewrite (IH _ Hns).
  unfold step. destruct (strip_dir o p) as [n|] eqn:Hp.
  - destruct (strip_dir_sound _ _ _ Hp) as [-> Hn].
    destruct (String.eqb_spec n a) as [<-|Hna]; cbn [orb].
    + destruct (sel n), (existsb _ ns); simpl; rewrite ?lookup_imwrite, ?String.eqb_refl; reflexivity.
    + destruct (sel n && existsb (String.eqb n) ns); [reflexivity|].
      destruct (sel a); [| reflexivity]. rewrite lookup_imwrite.
      destruct (String.eqb_spec (path o a) (path o n)) as [E|]; [| reflexivity].
      destruct (path_inj _ _ _ _ Ha Hn E). congruence.
  - destruct (sel a); [| reflexivity]. rewrite lookup_imwrite.
    destruct (String.eqb_spec (path o a) p) as [<-|]; [| reflexivity].
    now rewrite strip_dir_path in Hp.
Qed.

(** The walk over the listing of [i] in [fs0], when [sel] only selects
    names with a nonempty input picture. *)
Lemma lookup_walk (p : string) :
  (forall n, is_name n = true -> sel n = true -> mat_empty (imread fs0 (path i n)) = false) ->
  lookup_file p (fold_left step (list_dir i fs0) fs0) =
  match strip_dir o p with
  | Some n => if sel n then Some (Picture (val n)) else lookup_file p fs0
  | None => lookup_file p fs0
  end.
Proof.
  intros Hsel. rewrite lookup_fold by apply list_dir_all_names.
  destruct (strip_dir o p) as [n|] eqn:Hp; [| reflexivity]. destruct (strip_dir_sound _ _ _ Hp) as [_ Hn].
  destruct (sel n) eqn:Hs; [| reflexivity]. now rewrite (nonempty_listed i n fs0 Hn (Hsel n Hn Hs)).
Qed.

Lemma steps_wf (ns : list string) (fs : FS) :
  (forall n, sel n = true -> mat_wf (val n)) -> fs_wf fs -> fs_wf (fold_left step ns fs).
Proof.
  intros Hv. revert fs. induction ns as [|n ns IH]; intros fs Hwf; [exact Hwf|]. cbn [fold_left]. apply IH.
  unfold step. destruct (sel n) eqn:E; [apply imwrite_wf; [apply Hv, E | exact Hwf] | exact Hwf].
Qed.

End Writes.

(** ** [processImages] and the HSL walk as sequences of writes *)

Section Entries.
Variables (bgr2lab lab2bgr : Vec3b -> Vec3b) (pow_gamma : Q -> Q) (C : CMat) (i o : string) (fs0 : FS).
Hypothesis Hwf0 : fs_wf fs0.

(** The image [processImages] writes for an input image. *)
Definition corrected (img : Mat) : Mat :=
  adjustWhiteBalance bgr2lab lab2bgr (gammaCorrection pow_gamma (convertTo (95 / 100) 0 (map_pixels (ccm_pixel C) img))).

(** The entries of [fs0] that [processImages] writes. *)
Definition selected (n : string) : bool :=
  is_image_ext (extension n) && negb (mat_empty (imread fs0 (path i n))).

Lemma process_entry_step (fs : FS) (n : string) :
  is_name n = true -> inputs_kept i fs0 fs ->
  process_entry bgr2lab lab2bgr pow_gamma C i o fs n =
  inr (step o selected (fun n => corrected (imread fs0 (path i n))) fs n).
Proof.
  intros Hn Hk. unfold process_entry, step, selected. rewrite (inputs_kept_imread _ _ _ _ Hk Hn).
  destruct (is_image_ext _); [| reflexivity]. destruct (mat_empty _); [reflexivity |].
  unfold applyColorCorrection. rewrite LCC_apply_map by (apply imread_wf, Hwf0). reflexivity.
Qed.

Lemma process_entries_fold (ns : list string) (fs : FS) :
  i <> o -> Forall (fun n => is_name n = true) ns -> inputs_kept i fs0 fs ->
  process_entries bgr2lab lab2bgr pow_gamma C i o fs ns =
  inr (fold_left (step o selected (fun n => corrected (imread fs0 (path i n)))) ns fs).
Proof.
  intros Hio. revert fs. induction ns as [|n ns IH]; intros fs Hns Hk; [reflexivity|].
  apply Forall_cons_iff in Hns as [Hn Hns]. cbn [process_entries fold_left].
  rewrite process_entry_step by assumption. apply IH; [exact Hns | apply step_kept; assumption].
Qed.

(** The body of the HSL walk is a [step] on a well-formed input. *)
Lemma adjust_hsl_file_step (h s l : Q) (fs : FS) (n : string) :
  is_name n = true -> inputs_kept i fs0 fs ->
  adjust_hsl_file (path i n) (path o n) h s l fs =
  step o (fun n => negb (mat_empty (imread fs0 (path i n))))
    (fun n => map_pixels (yellow_pixel h s l) (imread fs0 (path i n))) fs n.
Proof.
  intros Hn Hk. unfold adjust_hsl_file, adjust_hsl, step. rewrite (inputs_kept_imread _ _ _ _ Hk Hn).
  destruct (mat_empty _); [reflexivity|]. rewrite map_pixels_loop_spec by (apply imread_wf, Hwf0). reflexivity.
Qed.

(** The HSL walk as a sequence of writes. *)
Lemma hsl_batch_steps (h s l : Q) :
  i <> o ->
  hsl_batch i o h s l fs0 =
  fold_left (step o (fun n => negb (mat_empty (imread fs0 (path i n))))
                    (fun n => map_pixels (yellow_pixel h s l) (imread fs0 (path i n))))
            (list_dir i fs0) fs0.
Proof.
  intros Hio. apply (fold_steps i o fs0); [exact Hio | | apply list_dir_all_names | intros q _; reflexivity].
  intros fs n Hn Hk. apply adjust_hsl_file_step; [| exact Hk].
  exact (list_dir_names i n fs0 Hn).
Qed.

End Entries.

(** ** Valid pixels through the filters *)

Lemma gamma_lut_ok (pow_gamma : Q -> Q) (k : nat) : uchar_ok (nth k (gamma_lut pow_gamma) 0%Z).
Proof.
  unfold gamma_lut. destruct (nth_in_or_default k (gamma_lut pow_gamma) 0%Z) as [Hin | E];
    unfold gamma_lut in *; [| rewrite E; unfold uchar_ok; lia].
  apply in_map_iff in Hin as (j & <- & _). apply saturate_cast_uchar_ok.
Qed.

Lemma gammaCorrection_wf (pow_gamma : Q -> Q) (img : Mat) : mat_wf img -> mat_wf (gammaCorrection pow_gamma img).
Proof.
  apply map_pixels_wf. intros px _. unfold lut_pixel, vec3b_ok. cbn [vb0 vb1 vb2].
  split; [| split]; apply gamma_lut_ok.
Qed.

Lemma sub_channel_wf (k : nat) (s : Q) (img : Mat) : mat_wf img -> mat_wf (sub_channel k s img).
Proof.
  apply map_pixels_wf. intros px (H0 & H1 & H2).
  destruct k as [|[|k]]; unfold set_channel, vec3b_ok; cbn [vb0 vb1 vb2];
    refine (conj _ (conj _ _)); first [apply saturate_cast_uchar_ok | assumption].
Qed.

Section Lab.
Variables bgr2lab lab2bgr : Vec3b -> Vec3b.
Hypothesis bgr2lab_ok : forall px, vec3b_ok px -> vec3b_ok (bgr2lab px).
Hypothesis lab2bgr_ok : forall px, vec3b_ok px -> vec3b_ok (lab2bgr px).

Lemma white_balance_wf (t : Q) (img : Mat) : mat_wf img -> mat_wf (white_balance bgr2lab lab2bgr t img).
Proof.
  intros Hwf. unfold white_balance.
  apply map_pixels_wf; [exact lab2bgr_ok |]. apply sub_channel_wf, sub_channel_wf, map_pixels_wf; assumption.
Qed.

Lemma corrected_wf (pow_gamma : Q -> Q) (C : CMat) (img : Mat) :
  mat_wf img -> mat_wf (corrected bgr2lab lab2bgr pow_gamma C img).
Proof.
  intros Hwf. unfold corrected, adjustWhiteBalance. apply white_balance_wf, gammaCorrection_wf.
  unfold convertTo. apply map_pixels_wf; [intros; apply convert_pixel_ok |].
  apply map_pixels_wf; [intros; apply ccm_pixel_ok | exact Hwf].
Qed.

End Lab.

(** ** The walks, file by file *)

(** What the HSL walk leaves at each path. *)
Lemma hsl_batch_lookup (i o : string) (h s l : Q) (fs : FS) (p : string) :
  fs_wf fs -> i <> o ->
  lookup_file p (hsl_batch i o h s l fs) =
  match strip_dir o p with
  | Some n => if negb (mat_empty (imread fs (path i n)))
              then Some (Picture (map_pixels (yellow_pixel h s l) (imread fs (path i n))))
              else lookup_file p fs
  | None => lookup_file p fs
  end.
Proof.
  intros Hwf Hio. rewrite hsl_batch_steps by assumption. apply lookup_walk.
  intros n _ E. now apply negb_true_iff in E.
Qed.

Lemma hsl_batch_wf (i o : string) (h s l : Q) (fs : FS) :
  fs_wf fs -> i <> o -> fs_wf (hsl_batch i o h s l fs).
Proof.
  intros Hwf Hio. rewrite hsl_batch_steps by assumption. apply steps_wf; [| exact Hwf].
  intros n _. apply map_pixels_wf; [intros; apply PipelineFacts.pixel_of_hsl_ok | apply imread_wf, Hwf].
Qed.

(** A path of another directory is not touched by a walk into [o]. *)
Lemma strip_dir_other_none (d d' n : string) : is_name n = true -> d <> d' -> strip_dir d (path d' n) = None.
Proof.
  intros Hn Hd. destruct (strip_dir d (path d' n)) eqn:E; [| reflexivity].
  exfalso. apply Hd, (strip_dir_other d d' n Hn). congruence.
Qed.

Section Process.
Context `{FloatText}.
Variable encode : Mat -> string.
Variables bgr2lab lab2bgr : Vec3b -> Vec3b.
Variable pow_gamma : Q -> Q.

(** [processImages] reads the matrix once and then writes, for each
    selected entry, the corrected image of the initial store. *)
Lemma processImages_writes (i o cmc text : string) (C : CMat) (fs : FS) :
  fs_wf fs -> i <> o -> read_text encode fs cmc = Some text -> readColorCorrectionMatrix text = inr C ->
  processImages encode bgr2lab lab2bgr pow_gamma i o cmc fs =
  inr (fold_left (step o (selected i fs) (fun n => corrected bgr2lab lab2bgr pow_gamma C (imread fs (path i n))))
         (list_dir i fs) fs).
Proof.
  intros Hwf Hio Ht HC. unfold processImages. rewrite Ht, HC.
  apply process_entries_fold; [exact Hwf | exact Hio | apply list_dir_all_names | intros q _; reflexivity].
Qed.

Lemma selected_nonempty (i n : string) (fs : FS) :
  selected i fs n = true -> mat_empty (imread fs (path i n)) = false.
Proof. unfold selected. intros E. apply andb_true_iff in E as [_ E]. now apply negb_true_iff in E. Qed.

(** [main] of [test.cpp] on a readable image and matrix: exit code 0
    and the corrected, darkened image in [results]. *)
Lemma test_main_writes (text : string) (C : CMat) (fs : FS) :
  fs_wf fs -> mat_empty (imread fs "data/output1.jpg") = false ->
  read_text encode fs "ref/LCC_CMC.csv" = Some text -> readColorCorrectionMatrix text = inr C ->
  test_main encode fs =
  inr (0%Z, imwrite "results/img11_processed.jpg"
              (convertTo (9 / 10) 0 (map_pixels (ccm_pixel C) (imread fs "data/output1.jpg"))) fs).
Proof.
  intros Hwf He Ht HC. unfold test_main. rewrite He, Ht, HC. unfold ccm_test_image.
  rewrite LCC_apply_map by (apply imread_wf, Hwf). reflexivity.
Qed.

End Process.

(** [adjust_yellow] and [adjust_green] on a nonempty well-formed image
    return the pixel map and write it to [output_path]. *)
Lemma adjust_yellow_io_writes (img : Mat) (h s l : Q) (p : string) (fs : FS) :
  mat_wf img -> mat_empty img = false ->
  adjust_yellow_io img h s l p fs =
  Some (map_pixels (yellow_pixel h s l) img, imwrite p (map_pixels (yellow_pixel h s l) img) fs).
Proof.
  intros Hwf He. unfold adjust_yellow_io, adjust_yellow. rewrite He, map_pixels_loop_spec by exact Hwf.
  reflexivity.
Qed.

Lemma adjust_green_io_writes (img : Mat) (h s l : Q) (p : string) (fs : FS) :
  mat_wf img -> mat_empty img = false ->
  adjust_green_io img h s l p fs =
  Some (map_pixels (green_pixel h s l) img, imwrite p (map_pixels (green_pixel h s l) img) fs).
Proof.
  intros Hwf He. unfold adjust_green_io, adjust_green. rewrite He, map_pixels_loop_spec by exact Hwf.
  reflexivity.
Qed.

End BatchFacts.

(** ** The drivers' contracts *)

Module BatchProps.
Import Image CCMApply CCMApplyFacts CSV CSVFacts Filters HSLAdjust Batch BatchFacts.

Section Claims.
Context `{FloatText}.
Variable encode : Mat -> string.
Variables bgr2lab lab2bgr : Vec3b -> Vec3b.
Variable pow_gamma : Q -> Q.

(** C14: [processImages] reads the matrix file once and then, for
    every file [outputDir/name], holds the colour-corrected, gamma
    corrected and white-balanced image of [inputDir/name] when that
    name ends in [.jpg] or [.png] and [imread] decodes a nonempty
    picture from it; every other file of the store is unchanged (a
    name with another extension, or a file [imread] cannot read, is
    skipped with [continue]). *)
Theorem processImages_spec (inputDir outputDir cmcFile text : string) (C : CMat) (fs : FS) :
  fs_wf fs -> inputDir <> outputDir ->
  read_text encode fs cmcFile = Some text -> readColorCorrectionMatrix text = inr C ->
  exists fs', processImages encode bgr2lab lab2bgr pow_gamma inputDir outputDir cmcFile fs = inr fs' /\
  forall p, lookup_file p fs' =
    match strip_dir outputDir p with
    | Some n => if is_image_ext (extension n) && negb (mat_empty (imread fs (path inputDir n)))
                then Some (Picture (corrected bgr2lab lab2bgr pow_gamma C (imread fs (path inputDir n))))
                else lookup_file p fs
    | None => lookup_file p fs
    end.
Proof.
  intros Hwf Hio Ht HC. rewrite (processImages_writes encode bgr2lab lab2bgr pow_gamma _ _ _ text C fs Hwf Hio Ht HC).
  eexists; split; [reflexivity|]. intros p. apply lookup_walk. intros n _. apply selected_nonempty.
Qed.

(** C13: [main] of [process_image.cpp], end to end: the file
    [results/name] it leaves is the corrected image of the HSL-adjusted
    [data/name] (hue 0, saturation -40, lightness 30); when [data/name]
    is no picture, of a [result_hsl/name] left by an earlier run; and
    it is unchanged when [name] does not end in [.jpg] or [.png] (a
    [.jpeg] is HSL-adjusted but never corrected). *)
Theorem process_image_main_spec (text : string) (C : CMat) (fs : FS) :
  fs_wf fs -> read_text encode fs "ref/LCC_CMC.csv" = Some text -> readColorCorrectionMatrix text = inr C ->
  exists fs', process_image_main encode bgr2lab lab2bgr pow_gamma fs = inr fs' /\
  forall n, is_name n = true ->
    lookup_file (path "results" n) fs' =
    (let src := if mat_empty (imread fs (path "data" n)) then imread fs (path "result_hsl" n)
                else map_pixels (yellow_pixel 0 (-40) 30) (imread fs (path "data" n)) in
     if is_image_ext (extension n) && negb (mat_empty src)
     then Some (Picture (corrected bgr2lab lab2bgr pow_gamma C src))
     else lookup_file (path "results" n) fs).
Proof.
  intros Hwf Ht HC. unfold process_image_main.
  assert (Hd : ("data" <> "result_hsl")%string) by discriminate.
  assert (Hr : ("result_hsl" <> "results")%string) by discriminate.
  set (fs1 := hsl_batch "data" "result_hsl" 0 (-40) 30 fs).
  assert (Hwf1 : fs_wf fs1) by (apply hsl_batch_wf; assumption).
  assert (Ht1 : read_text encode fs1 "ref/LCC_CMC.csv" = Some text).
  { unfold read_text, fs1. rewrite hsl_batch_lookup by assumption. exact Ht. }
  rewrite (processImages_writes encode bgr2lab lab2bgr pow_gamma _ _ _ text C fs1 Hwf1 Hr Ht1 HC).
  eexists; split; [reflexivity|]. intros n Hn.
  rewrite lookup_walk by (intros ? _; apply selected_nonempty).
  rewrite strip_dir_path by exact Hn. cbv zeta.
  assert (Hsrc : imread fs1 (path "result_hsl" n) =
    if mat_empty (imread fs (path "data" n)) then imread fs (path "result_hsl" n)
    else map_pixels (yellow_pixel 0 (-40) 30) (imread fs (path "data" n))).
  { unfold imread at 1, fs1. rewrite hsl_batch_lookup, strip_dir_path by assumption.
    destruct (mat_empty (imread fs (path "data" n))); reflexivity. }
  assert (Hout : lookup_file (path "results" n) fs1 = lookup_file (path "results" n) fs).
  { unfold fs1. rewrite hsl_batch_lookup, strip_dir_other_none by (assumption || congruence). reflexivity. }
  unfold selected. rewrite Hsrc, Hout. reflexivity.
Qed.


End Claims.

Local Open Scope string_scope.

Definition grey1 : Mat := mkMat 1 1 [[mkVec3b 100 100 100]].

(** The identity matrix as [LCC_CMC] writes it. *)
Definition I3_text : string :=
  String.append "1,0,0," (String nl (String.append "0,1,0," (String nl "0,0,1,"))).

(** [data] holds a [.jpg] and a [.jpeg]; [result_hsl] a [.png] of an
    earlier run. *)
Definition store : FS :=
  [("data/a.jpg", Picture grey1); ("data/b.jpeg", Picture grey1);
   ("result_hsl/c.png", Picture grey1); ("ref/LCC_CMC.csv", Text I3_text)].

Lemma processImages_spec_witness :
  exists fs', processImages (fun _ => EmptyString) id id id "data" "out" "ref/LCC_CMC.csv" store = inr fs' /\
  forall p, lookup_file p fs' =
    match strip_dir "out" p with
    | Some n => if is_image_ext (extension n) && negb (mat_empty (imread store (path "data" n)))
                then Some (Picture (corrected id id id I3 (imread store (path "data" n))))
                else lookup_file p store
    | None => lookup_file p store
    end.
Proof.
  apply (processImages_spec (fun _ => EmptyString) id id id "data" "out" "ref/LCC_CMC.csv" I3_text I3 store).
  - unfold fs_wf, store, grey1. repeat constructor; simpl; lia.
  - discriminate.
  - reflexivity.
  - vm_compute. reflexivity.
Defined.

Lemma process_image_main_spec_witness :
  exists fs', process_image_main (fun _ => EmptyString) id id id store = inr fs' /\
  forall n, is_name n = true ->
    lookup_file (path "results" n) fs' =
    (let src := if mat_empty (imread store (path "data" n)) then imread store (path "result_hsl" n)
                else map_pixels (yellow_pixel 0 (-40) 30) (imread store (path "data" n)) in
     if is_image_ext (extension n) && negb (mat_empty src)
     then Some (Picture (corrected id id id I3 src))
     else lookup_file (path "results" n) store).
Proof.
  apply (process_image_main_spec (fun _ => EmptyString) id id id I3_text I3 store).
  - unfold fs_wf, store, grey1. repeat constructor; simpl; lia.
  - reflexivity.
  - vm_compute. reflexivity.
Defined.


(** On [store], [main] writes [results/a.jpg] and, from the stale
    [result_hsl/c.png], [results/c.png]; [data/b.jpeg] is HSL-adjusted
    into [result_hsl/b.jpeg] and never reaches [results]. *)
Lemma process_image_main_store :
  match process_image_main (fun _ => EmptyString) id id id store with
  | inr fs' => map fst fs' = ["results/c.png"; "results/a.jpg"; "result_hsl/b.jpeg"; "result_hsl/a.jpg";
                             "data/a.jpg"; "data/b.jpeg"; "result_hsl/c.png"; "ref/LCC_CMC.csv"]
  | inl _ => False
  end.
Proof. vm_compute. reflexivity. Qed.

End BatchProps.
