(* ===== verification/VideoMain.v ===== *)
(** * The video mains and the rate of the videos they write

    Module [VideoMain] models [main] of [load_ccm2video.cpp] (lines
    53-135) and [processVideo] and [main] of [applyvideo2ccm.cpp]
    (lines 71-114) with their early returns, the writer's parameters
    ([VideoIO]) and the frame loops of [Pipeline].  Proved:
    [applyvideo2ccm.cpp] opens its writer at the whole part of the
    capture's rate (an [int fps]), so a 29.97 fps video is written at 29
    fps and plays longer, and a rate below 1 becomes 0; [load_ccm2video.cpp]
    keeps the rate. *)

From S2P Require Import Prelude Image CCMApply Pipeline VideoIO CSV Batch.
From Stdlib Require Import String.
From stdpp Require Import list.

Open Scope Q_scope.

Module VideoMain.
Import Image CCMApply CSV VideoIO Batch.

(** [main] of [load_ccm2video.cpp]: [return -1] when the capture or
    the writer does not open, or when [ref/LCC_CMC.csv] does not (the
    writer is open by then); otherwise the matrix is read and the frame
    loop of [Pipeline.load_ccm2video] runs.  The exit code, the
    parameters the writer was opened with and the frames written. *)
Definition load_ccm2video_main `{FloatText} (cap : option (CaptureProps * Video)) (writer_opened : bool)
    (cmc : option string) : BatchError + (Z * option WriterParams * Video) :=
  match cap with
  | None => inr ((-1)%Z, None, [])
  | Some (cp, frames) =>
      if negb writer_opened then inr ((-1)%Z, None, [])
      else match cmc with
           | None => inr ((-1)%Z, Some (writer_params cp), [])
           | Some text =>
               match readColorCorrectionMatrix text with
               | inl e => inl (ReadFailed e)
               | inr C =>
                   match Pipeline.load_ccm2video C frames with
                   | None => inl OutOfRange
                   | Some out => inr (0%Z, Some (writer_params cp), out)
                   end
               end
           end
  end.

(** [processVideo(inputVideo, outputVideo, cmcFile)] of
    [applyvideo2ccm.cpp]: nothing happens when the capture does not open
    ([return]); otherwise the matrix is read ([exit(EXIT_FAILURE)] when
    [cmcFile] does not open), the writer is opened with the [int]
    rate and size, and the frame loop of [Pipeline.processVideo] runs
    with [base_width = frame_width]; the writer's parameters and the
    frames written. *)
Definition processVideo_file `{FloatText} (cap : option (CaptureProps * Video)) (cmcFile : string)
    (cmc : option string) : BatchError + option (WriterParams * Video) :=
  match cap with
  | None => inr None
  | Some (cp, frames) =>
      match cmc with
      | None => inl (OpenFailed cmcFile)
      | Some text =>
          match readColorCorrectionMatrix text with
          | inl e => inl (ReadFailed e)
          | inr C =>
              let wp := writer_params_int cp in
              match Pipeline.processVideo C (Z.to_nat (w_width wp)) frames with
              | None => inl OutOfRange
              | Some out => inr (Some (wp, out))
              end
          end
      end
  end.

(** [main] of [applyvideo2ccm.cpp]: [processVideo] on the file
    [ref/LCC_CMC.csv], then exit code 0. *)
Definition applyvideo2ccm_main `{FloatText} (cap : option (CaptureProps * Video)) (cmc : option string)
    : BatchError + (Z * option (WriterParams * Video)) :=
  match processVideo_file cap "ref/LCC_CMC.csv" cmc with
  | inl e => inl e
  | inr out => inr (0%Z, out)
  end.

End VideoMain.

Module VideoMainFacts.
Import Image ImageFacts CCMApply Pipeline PipelineFacts VideoIO VideoIOFacts.

(** A frame loop whose stage keeps frames well formed ends on a video of
    well-formed frames, whatever stops it. *)
Lemma video_loop_some (stop : Mat -> bool) (stage : Mat -> option Mat) `{FrameStage stage}
    (frames written : Video) :
  Forall mat_wf frames -> exists out, video_loop stop stage frames written = Some out.
Proof.
  revert written. induction frames as [| f frames IH]; intros written Hwf; [eexists; reflexivity |].
  apply Forall_cons_iff in Hwf as [Hf Hwf]. cbn [video_loop]. destruct (stop f); [eexists; reflexivity |].
  destruct (stage_ok f Hf) as (o & -> & _). cbn [mbind option_bind]. exact (IH _ Hwf).
Qed.

(** [processVideo]'s loop writes one frame per frame read. *)
Lemma processVideo_runs (C : CMat) (w : nat) (frames : Video) :
  Forall mat_wf frames -> exists out, processVideo C w frames = Some out /\ length out = length frames.
Proof.
  intros Hwf. unfold processVideo. rewrite video_loop_no_break.
  destruct (PipelineProps.mapM_stage (processVideo_stage C (inject_Z (Z.of_nat w))) frames Hwf) as (out & E & Hall).
  exists out. rewrite E. split; [reflexivity | symmetry; exact (Forall2_length _ _ _ Hall)].
Qed.

(** The whole part of a rate in [[0, 1)] is 0; of a rate of at least 1
    that is no integer, a positive number below the rate. *)
Lemma floor_rate_small (f : Q) : 0 <= f -> f < 1 -> Qfloor f = 0%Z.
Proof.
  intros H0 H1. pose proof (Qfloor_resp_le _ _ H0) as Hlo. pose proof (Qfloor_le f) as Hhi.
  change (Qfloor 0) with 0%Z in Hlo. assert (inject_Z (Qfloor f) < inject_Z 1) as Hlt by (change (inject_Z 1) with 1; lra).
  rewrite <- Zlt_Qlt in Hlt. lia.
Qed.

Lemma floor_rate_below (f : Q) :
  1 <= f -> ~ f == inject_Z (Qfloor f) -> 0 < inject_Z (Qfloor f) /\ inject_Z (Qfloor f) < f.
Proof.
  intros H1 Hni. pose proof (Qfloor_resp_le _ _ H1) as Hlo. change (Qfloor 1) with 1%Z in Hlo.
  pose proof (Qfloor_le f) as Hle. split.
  - change 0 with (inject_Z 0). rewrite <- Zlt_Qlt. lia.
  - apply Qle_lt_or_eq in Hle as [Hlt | Heq]; [exact Hlt | exfalso; apply Hni; symmetry; exact Heq].
Qed.

End VideoMainFacts.

Module VideoMainProps.
Import Image ImageFacts CCMApply Pipeline PipelineFacts VideoIO VideoIOFacts CSV Batch VideoMain VideoMainFacts.

Section Claims.
Context `{FloatText}.

(** C27: [applyvideo2ccm.cpp] truncates the frame rate: on a readable
    matrix and a capture of well-formed frames, [main] exits with 0 and
    writes one frame per frame read through a writer opened at the whole
    part of the capture's rate; a rate below 1 becomes 0, and a rate of
    at least 1 that is no integer becomes a lower one, so the written
    video plays longer than the captured one. *)
Theorem applyvideo2ccm_fps_truncated (cp : CaptureProps) (frames : Video) (text : string) (C : CMat) :
  Forall mat_wf frames -> readColorCorrectionMatrix text = inr C -> 0 <= cap_fps cp ->
  exists wp out, applyvideo2ccm_main (Some (cp, frames)) (Some text) = inr (0%Z, Some (wp, out)) /\
    length out = length frames /\ w_fps wp = inject_Z (Qfloor (cap_fps cp)) /\
    (cap_fps cp < 1 -> w_fps wp == 0) /\
    (1 <= cap_fps cp -> ~ cap_fps cp == inject_Z (Qfloor (cap_fps cp)) ->
       w_fps wp < cap_fps cp /\ (frames <> [] -> duration (length out) (cap_fps cp) < duration (length out) (w_fps wp))).
Proof.
  intros Hwf HC Hf. unfold applyvideo2ccm_main, processVideo_file. rewrite HC. cbv zeta.
  destruct (processVideo_runs C (Z.to_nat (w_width (writer_params_int cp))) frames Hwf) as (out & -> & Hlen).
  do 2 eexists. split; [reflexivity |]. rewrite (writer_params_int_fps cp Hf).
  split; [exact Hlen |]. split; [reflexivity |]. split.
  - intros H1. rewrite (floor_rate_small _ Hf H1). reflexivity.
  - intros H1 Hni. destruct (floor_rate_below _ H1 Hni) as [Hpos Hlt]. split; [exact Hlt |].
    intros Hne. apply duration_longer; [| exact Hpos | exact Hlt].
    rewrite Hlen. destruct frames; [contradiction | cbn; lia].
Qed.

(** [load_ccm2video.cpp] keeps the rate: on a readable matrix and a
    capture of well-formed frames, [main] exits with 0 through a writer
    opened at the capture's own rate. *)
Lemma load_ccm2video_keeps_fps (cp : CaptureProps) (frames : Video) (text : string) (C : CMat) :
  Forall mat_wf frames -> readColorCorrectionMatrix text = inr C ->
  exists out, load_ccm2video_main (Some (cp, frames)) true (Some text) = inr (0%Z, Some (writer_params cp), out) /\
    w_fps (writer_params cp) = cap_fps cp.
Proof.
  intros Hwf HC. unfold load_ccm2video_main, Pipeline.load_ccm2video. cbn [negb]. rewrite HC.
  destruct (video_loop_some mat_empty (ccm_frame_load C) frames [] Hwf) as (out & ->).
  exists out. split; reflexivity.
Qed.

End Claims.

Import CSVFacts.

(** A 29.97 fps capture of one grey frame. *)
Definition ntsc : CaptureProps := mkCapture 640 480 (2997 # 100).

Definition one_frame : Video := [mkMat 1 1 [[mkVec3b 100 100 100]]].

Lemma applyvideo2ccm_fps_truncated_witness :
  exists wp out, applyvideo2ccm_main (Some (ntsc, one_frame)) (Some BatchProps.I3_text) = inr (0%Z, Some (wp, out)) /\
    length out = length one_frame /\ w_fps wp = inject_Z (Qfloor (cap_fps ntsc)) /\
    (cap_fps ntsc < 1 -> w_fps wp == 0) /\
    (1 <= cap_fps ntsc -> ~ cap_fps ntsc == inject_Z (Qfloor (cap_fps ntsc)) ->
       w_fps wp < cap_fps ntsc /\
       (one_frame <> [] -> duration (length out) (cap_fps ntsc) < duration (length out) (w_fps wp))).
Proof.
  apply (applyvideo2ccm_fps_truncated ntsc one_frame BatchProps.I3_text CCMApplyFacts.I3).
  - constructor; [apply mat_wfb_spec; vm_compute; reflexivity | constructor].
  - vm_compute. reflexivity.
  - unfold ntsc. cbn. lra.
Defined.

End VideoMainProps.
